(** * Career advisor agents: decision tree, course search, ranking, cache

    A shallow embedding of the three agents of the career advisor
    ([DynamicDecisionAgent], [RealCourseSearchAgent] and the answer handler
    of [CareerAdvisorApp]) and the properties of their specification.

    Conventions of the embedding.
    - A Python [float] is an IEEE 754 binary64 number: Rocq's primitive
      [float], whose operations are specified by [SpecFloat].
    - A Python [int] is a [Z].
    - A Python [str] is a [string] that holds its UTF-8 encoding. The
      character classes and the case mapping are computed on ASCII text
      and read from the interpreter beyond it.
    - [sorted] with float keys is the stable sort when the keys are numbers;
      the list it returns when a key is a NaN is read from the interpreter.
    - A [dict] used as a table with literal keys is an association list in
      declaration order, or a [gmap] where the order plays no role.
    - A raised exception is the [None] of an [option]. *)

From Stdlib Require Import ZArith String Ascii List Floats Lia Bool.
From Stdlib Require Import Sorting.Permutation Sorting.Sorted.
From stdpp Require Import gmap strings list pretty.

Set Warnings "-inexact-float".
Local Open Scope string_scope.
Local Open Scope list_scope.
Local Open Scope Z_scope.

(** ** Floats *)

Module PyFloat.

(** [a >= b] on Python floats. *)
Definition ge (a b : float) : bool := PrimFloat.leb b a.
(** [a < b], [a > b] and [a <= b] on Python floats. *)
Definition lt (a b : float) : bool := PrimFloat.ltb a b.
Definition gt (a b : float) : bool := PrimFloat.ltb b a.
Definition le (a b : float) : bool := PrimFloat.leb a b.

Definition is_nan (a : float) : bool := negb (PrimFloat.eqb a a).

(** The float nearest to the quotient of two integers, ties to even
    (the rounding of [SpecFloat]'s division, which takes mantissas of any
    size); an infinity when the quotient is beyond the largest float. *)
Definition SF_of_Z (n : Z) : spec_float :=
  match n with
  | Z0 => S754_zero false
  | Zpos p => S754_finite false p 0
  | Zneg p => S754_finite true p 0
  end.
Definition nearest_quotient (a b : Z) : spec_float :=
  SF64div (SF_of_Z a) (SF_of_Z b).

Definition is_infinity (x : spec_float) : bool :=
  match x with S754_infinity _ => true | _ => false end.

(** [a / b] on Python ints: the correctly rounded quotient;
    [ZeroDivisionError] on a zero divisor and [OverflowError] when the
    quotient is too large for a float. *)
Definition int_true_div (a b : Z) : option float :=
  if (b =? 0)%Z then None
  else
    let q := nearest_quotient a b in
    if is_infinity q then None else Some (SF2Prim q).

(** [min(a, b)] on two floats: the first argument unless the second is
    smaller. *)
Definition min (a b : float) : float := if lt b a then b else a.

(** The integer nearest to [m * 2^e * scale], ties to even. *)
Definition nearest_even_scaled (m : positive) (e : Z) (scale : Z) : Z :=
  match e with
  | Zneg k =>
      let num := Zpos m * scale in
      let den := 2 ^ Zpos k in
      let q := num / den in
      let r := num mod den in
      match 2 * r ?= den with
      | Lt => q
      | Gt => q + 1
      | Eq => if Z.even q then q else q + 1
      end
  | _ => Zpos m * 2 ^ e * scale
  end.

(** [round(x, ndigits)] for [ndigits >= 0]: the decimal with [ndigits]
    places nearest to the exact value of [x], ties to even, read back as
    the nearest float; NaN and the infinities round to themselves. *)
Definition round (x : float) (ndigits : N) : float :=
  match Prim2SF x with
  | S754_finite s m e =>
      let scale := 10 ^ Z.of_N ndigits in
      match nearest_even_scaled m e scale with
      | Zpos n => SF2Prim (SF64div (S754_finite s n 0) (SF_of_Z scale))
      | _ => SF2Prim (S754_zero s)
      end
  | _ => x
  end.

End PyFloat.

(** ** The interpreter *)

(** What the embedding takes from the running interpreter: the Unicode
    database behind the [str] methods and the classes of [re] on the
    characters beyond ASCII, and the list that [sorted] returns when a key
    is a NaN, which no order relates to the other keys: the sort then
    leaves the elements of the list in an order that follows the
    comparisons it happens to make. A character and a text are given by
    their UTF-8 bytes. *)
Class Interpreter := {
  (** [c.isalnum()] and [c.isspace()] on one character beyond ASCII. *)
  unicode_isalnum : string -> bool;
  unicode_isspace : string -> bool;
  (** [s.lower()] on a text without a space that holds a character beyond
      ASCII. *)
  unicode_lower : string -> string;
  (** [s.title()] on a text that holds a character beyond ASCII. *)
  unicode_title : string -> string;
  (** [sorted(l, key=key, reverse=True)] on a list with a NaN key: a
      permutation of the list. *)
  sorted_unordered : forall A : Type, (A -> float) -> list A -> list A;
  sorted_unordered_permutation :
    forall (A : Type) (key : A -> float) (l : list A), sorted_unordered A key l ≡ₚ l
}.

(** The interpreter of the examples: their texts are ASCII and their keys
    are numbers, so that none of its fields is read. *)
Definition ascii_interpreter : Interpreter :=
  {| unicode_isalnum := fun _ => false;
     unicode_isspace := fun _ => false;
     unicode_lower := fun s => s;
     unicode_title := fun s => s;
     sorted_unordered := fun _ _ l => l;
     sorted_unordered_permutation := fun _ _ l => Permutation_refl l |}.

(** ** Strings *)

Module PyStr.

Definition code (c : ascii) : N := N_of_ascii c.

(** The bytes of the UTF-8 encoding of a text. A byte below 128 is an ASCII
    character; a byte from 128 to 191 continues the character that the
    bytes before it began. *)
Definition chars (s : string) : list ascii := list_ascii_of_string s.
Definition of_chars (l : list ascii) : string := string_of_list_ascii l.

Definition is_ascii_byte (b : ascii) : bool := (code b <? 128)%N.
Definition is_continuation (b : ascii) : bool :=
  ((128 <=? code b) && (code b <? 192))%N.
Definition is_ascii (s : string) : bool := forallb is_ascii_byte (chars s).

(** The characters of a text, in their order, each with its bytes. *)
Fixpoint characters (s : string) : list string :=
  match s with
  | EmptyString => []
  | String b r =>
      match characters r with
      | String c k :: rest =>
          if is_continuation c then String b (String c k) :: rest
          else String b EmptyString :: String c k :: rest
      | rest => String b EmptyString :: rest
      end
  end.
Definition of_characters (l : list string) : string := foldr String.append "" l.

(** [len(s)]: the number of characters. *)
Definition len (s : string) : Z := Z.of_nat (length (characters s)).

(** The classes of the ASCII characters: [isspace] holds of the tab, the
    line feed, the vertical tab, the form feed, the carriage return, the
    four separators 28..31 and the space. *)
Definition ascii_isspace (c : ascii) : bool :=
  let n := code c in
  ((9 <=? n) && (n <=? 13) || (28 <=? n) && (n <=? 32))%N.
Definition isdigit (c : ascii) : bool :=
  let n := code c in ((48 <=? n) && (n <=? 57))%N.
Definition isupper (c : ascii) : bool :=
  let n := code c in ((65 <=? n) && (n <=? 90))%N.
Definition islower (c : ascii) : bool :=
  let n := code c in ((97 <=? n) && (n <=? 122))%N.
Definition isalpha (c : ascii) : bool := isupper c || islower c.
Definition ascii_isalnum (c : ascii) : bool := isalpha c || isdigit c.

Definition lower_char (c : ascii) : ascii :=
  if isupper c then ascii_of_N (code c + 32) else c.
Definition upper_char (c : ascii) : ascii :=
  if islower c then ascii_of_N (code c - 32) else c.

(** [s.lower()] on ASCII text. *)
Definition lower_ascii (s : string) : string := of_chars (map lower_char (chars s)).

(** [s.title()] on ASCII text: a letter is upper-cased after a character
    that is not a letter and lower-cased after a letter. *)
Fixpoint title_from (prev_cased : bool) (l : list ascii) : list ascii :=
  match l with
  | [] => []
  | c :: r =>
      (if isalpha c then (if prev_cased then lower_char c else upper_char c) else c)
        :: title_from (isalpha c) r
  end.

(** [sub in s]. A text occurs in another exactly when its bytes occur in
    the bytes of the other: no character of UTF-8 begins with a
    continuation byte. *)
Fixpoint starts_with (p l : list ascii) : bool :=
  match p, l with
  | [], _ => true
  | _ :: _, [] => false
  | a :: p', b :: l' => Ascii.eqb a b && starts_with p' l'
  end.
Fixpoint occurs_in (p l : list ascii) : bool :=
  starts_with p l ||
  match l with
  | [] => false
  | _ :: l' => occurs_in p l'
  end.
Definition contains (sub s : string) : bool := occurs_in (chars sub) (chars s).

(** The pieces of a text between its spaces, and the text back from its
    pieces. *)
Fixpoint pieces (s : string) : list string :=
  match s with
  | EmptyString => [""]
  | String c r =>
      if Ascii.eqb c " " then "" :: pieces r
      else
        match pieces r with
        | w :: ws => String c w :: ws
        | [] => [String c ""]
        end
  end.
Fixpoint join_spaces (l : list string) : string :=
  match l with
  | [] => ""
  | [w] => w
  | w :: ws => w +:+ " " +:+ join_spaces ws
  end.

Section Text.

Context `{python : Interpreter}.

(** [c.isspace()] and [c.isalnum()] on one character. The class [\s] of
    the [re] module on a [str] pattern holds the same characters as
    [isspace]. *)
Definition isspace (c : string) : bool :=
  match c with
  | String b EmptyString => if is_ascii_byte b then ascii_isspace b else unicode_isspace c
  | _ => unicode_isspace c
  end.
Definition isalnum (c : string) : bool :=
  match c with
  | String b EmptyString => if is_ascii_byte b then ascii_isalnum b else unicode_isalnum c
  | _ => unicode_isalnum c
  end.

(** The class [\w] of the [re] module: alphanumeric or the underscore. *)
Definition is_word (c : string) : bool := isalnum c || String.eqb c "_".

(** [s.lower()]. Every character is mapped by itself, but for the capital
    sigma, whose lower case follows the letters around it; no such rule
    looks across a space, so that the text is lowered piece by piece. *)
Definition lower_piece (w : string) : string :=
  if is_ascii w then lower_ascii w else unicode_lower w.
Definition lower (s : string) : string := join_spaces (map lower_piece (pieces s)).

(** [s.title()]. *)
Definition title (s : string) : string :=
  if is_ascii s then of_chars (title_from false (chars s)) else unicode_title s.

(** [s.lstrip()], [s.rstrip()], [s.strip()]. *)
Fixpoint lstrip_chars (l : list string) : list string :=
  match l with
  | [] => []
  | c :: r => if isspace c then lstrip_chars r else l
  end.
Fixpoint rstrip_chars (l : list string) : list string :=
  match l with
  | [] => []
  | c :: r =>
      match rstrip_chars r with
      | [] => if isspace c then [] else [c]
      | r' => c :: r'
      end
  end.
Definition strip_chars (l : list string) : list string := rstrip_chars (lstrip_chars l).
Definition strip (s : string) : string := of_characters (strip_chars (characters s)).

(** [s.split()]: the maximal runs of characters that are not whitespace.
    [cur] is the run being read, in reverse. *)
Fixpoint split_from (cur : list string) (l : list string) : list (list string) :=
  match l with
  | [] => match cur with [] => [] | _ => [rev cur] end
  | c :: r =>
      if isspace c then
        match cur with
        | [] => split_from [] r
        | _ => rev cur :: split_from [] r
        end
      else split_from (c :: cur) r
  end.
Definition split (s : string) : list string :=
  map of_characters (split_from [] (characters s)).

(** [re.sub(r'[^\w\s]', ' ', s)]. *)
Definition sub_non_word (c : string) : string :=
  if is_word c || isspace c then c else " ".

(** [re.sub(r'\s+', ' ', s)]: every maximal run of whitespace becomes one
    space. [in_run] tells that the previous character was whitespace. *)
Fixpoint collapse_from (in_run : bool) (l : list string) : list string :=
  match l with
  | [] => []
  | c :: r =>
      if isspace c then
        (if in_run then collapse_from true r else " " :: collapse_from true r)
      else c :: collapse_from false r
  end.

End Text.

End PyStr.

(** ** DynamicDecisionAgent *)

Module DecisionAgent.

(** One entry of a node's ["answers"] table. *)
Record Answer := { threshold : float; next : string }.

(** A node of the tree; ["answers"] may be absent. *)
Record Node := { question : string; answers : option (list (string * Answer)) }.

(** The tree: a dict from node names to nodes. *)
Abbreviation Tree := (gmap string Node).

Definition mk_node (q : string) (ans : list (string * Answer)) : Node :=
  {| question := q; answers := Some ans |}.

Definition edge (key : string) (t : float) (n : string) : string * Answer :=
  (key, {| threshold := t; next := n |}).

Definition get_default_tree : Tree :=
  list_to_map
    [ ("Math", mk_node "🔢 Rate your Math skills (0.0 - 1.0):"
         [ edge "high" 0.7 "Math_High"; edge "medium" 0.4 "Math_Med";
           edge "low" 0.0 "Math_Low" ]);
      ("Math_High", mk_node "💻 Rate your Programming skills (0.0 - 1.0):"
         [ edge "high" 0.5 "HighProg"; edge "low" 0.0 "HighPhys" ]);
      ("HighProg", mk_node "🤖 Rate your interest in Data/AI (0.0 - 1.0):"
         [ edge "high" 0.6 "Data Scientist"; edge "low" 0.0 "Software Engineer" ]);
      ("HighPhys", mk_node "⚛️ Rate your Physics/Engineering knowledge (0.0 - 1.0):"
         [ edge "low" 0.6 "Research Scientist"; edge "high" 0.0 "Engineer" ]);
      ("Math_Med", mk_node "🎨 Rate your Design/Creativity skills (0.0 - 1.0):"
         [ edge "high" 0.5 "MedDesign"; edge "low" 0.0 "MedBio" ]);
      ("MedDesign", mk_node "👥 Rate your Communication/Teamwork skills (0.0 - 1.0):"
         [ edge "high" 0.6 "UI/UX Designer"; edge "low" 0.0 "Graphic Designer" ]);
      ("MedBio", mk_node "🧬 Rate your Biology/Health knowledge (0.0 - 1.0):"
         [ edge "high" 0.6 "Healthcare Specialist"; edge "low" 0.0 "Project Manager" ]);
      ("Math_Low", mk_node "💬 Rate your Communication/People skills (0.0 - 1.0):"
         [ edge "high" 0.5 "LowComm"; edge "low" 0.0 "LowHands" ]);
      ("LowComm", mk_node "👑 Rate your Leadership ability (0.0 - 1.0):"
         [ edge "high" 0.6 "Manager / HR Specialist";
           edge "low" 0.0 "Journalist / Public Speaker" ]);
      ("LowHands", mk_node "🔧 Rate your Practical/Technical skills (0.0 - 1.0):"
         [ edge "high" 0.6 "Technician"; edge "low" 0.0 "Sales Assistant" ]) ].

(** The [for answer_key, answer in node["answers"].items()] loop of
    [navigate_tree]: the first entry, in the order of the table, whose
    threshold the input reaches. *)
Fixpoint first_answer (items : list (string * Answer)) (user_input : float)
  : option string :=
  match items with
  | [] => None
  | (_, answer) :: rest =>
      if PyFloat.ge user_input (threshold answer) then Some (next answer)
      else first_answer rest user_input
  end.

Definition navigate_tree (tree : Tree) (current_node : string) (user_input : float)
  : string :=
  match tree !! current_node with
  | None => current_node
  | Some node =>
      match answers node with
      | None => current_node
      | Some items =>
          match first_answer items user_input with
          | Some nxt => nxt
          | None => current_node
          end
      end
  end.

End DecisionAgent.

(** ** CareerAdvisorApp: the answer handler *)

Module App.
Import DecisionAgent.

(** The assessment state of the application. *)
Record AppState := {
  current_node : string;
  user_skills : gmap string float;
  recommended_career : option string
}.

(** What the handler shows to the user. *)
Inductive Shown :=
| ShowQuestion (q : string)
| ShowLoading
| ShowError (title message : string).

Definition extract_skill_name (node : string) : string :=
  let skill_map : list (string * string) :=
    [ ("Math", "Mathematics"); ("Math_High", "Advanced Math");
      ("Math_Med", "Intermediate Math"); ("Math_Low", "Basic Math");
      ("HighProg", "Programming"); ("HighPhys", "Physics/Engineering");
      ("MedDesign", "Design/Creativity"); ("MedBio", "Biology/Health");
      ("LowComm", "Communication"); ("LowHands", "Technical Skills") ] in
  match (list_to_map skill_map : gmap string string) !! node with
  | Some s => s
  | None => "General Skills"
  end.

(** [show_question]: the next question, or the final recommendation. *)
Definition show_question (tree : Tree) (st : AppState) : AppState * Shown :=
  match tree !! current_node st with
  | Some node => (st, ShowQuestion (question node))
  | None =>
      ({| current_node := current_node st;
          user_skills := user_skills st;
          recommended_career := Some (current_node st) |}, ShowLoading)
  end.

(** The range test [0.0 <= rating <= 1.0]. *)
Definition rating_in_range (rating : float) : bool :=
  PyFloat.le 0.0 rating && PyFloat.le rating 1.0.

(** [process_answer]. The text of the entry field is read by [float(...)]:
    [entry] is its value, [None] when it raises [ValueError]. *)
Definition process_answer (tree : Tree) (st : AppState) (entry : option float)
  : AppState * Shown :=
  match entry with
  | None =>
      (st, ShowError "Invalid Input" "Please enter a valid number between 0.0 and 1.0")
  | Some rating =>
      if negb (rating_in_range rating) then
        (st, ShowError "Invalid Input" "Please enter a valid number between 0.0 and 1.0")
      else
        let skill_name := extract_skill_name (current_node st) in
        let st1 :=
          {| current_node := navigate_tree tree (current_node st) rating;
             user_skills := <[skill_name := rating]> (user_skills st);
             recommended_career := recommended_career st |} in
        show_question tree st1
  end.

End App.

(** ** RealCourseSearchAgent *)

Module CourseSearch.

(** A course dict. The keys read with [.get] may be absent. *)
Record Course := {
  title : option string;
  url : string;
  provider : string;
  level : string;
  rating : option float;
  duration : string;
  instructors : list string;
  enrollment_count : option Z;
  price : option string;
  language : string;
  score : float;
  searched_for : string
}.

(** [course["score"] = v]. *)
Definition set_score (course : Course) (v : float) : Course :=
  {| title := title course; url := url course; provider := provider course;
     level := level course; rating := rating course; duration := duration course;
     instructors := instructors course;
     enrollment_count := enrollment_count course; price := price course;
     language := language course; score := v;
     searched_for := searched_for course |}.

(** [d.get(key, default)] on a table with literal keys. *)
Fixpoint dict_get {A} (d : list (string * A)) (key : string) (default : A) : A :=
  match d with
  | [] => default
  | (k, v) :: rest => if String.eqb k key then v else dict_get rest key default
  end.

Section Agent.

Context `{python : Interpreter}.

(** *** Title cleaning *)

Definition _clean_title (title : string) : string :=
  let cleaned := map PyStr.sub_non_word (PyStr.characters title) in
  let cleaned := PyStr.collapse_from false cleaned in
  PyStr.of_characters (PyStr.strip_chars cleaned).

(** *** Scoring *)

Definition _get_provider_score (provider : string) : float :=
  let provider_scores : list (string * float) :=
    [ ("YouTube", 1.5%float); ("GitHub", 1.2%float);
      ("Career Guidance", 0.8%float); ("Skills Academy", 0.8%float) ] in
  dict_get provider_scores provider 0.5%float.

Definition _calculate_relevance_score (course : Course) (career : string) : float :=
  let title := PyStr.lower (default "" (title course)) in
  let career_lower := PyStr.lower career in
  if PyStr.contains career_lower title then 2.0%float
  else if existsb (fun word => PyStr.contains word title) (PyStr.split career_lower)
  then 1.5%float
  else 0.5%float.

Definition rating_score (course : Course) : float :=
  (default 4.0 (rating course) * 1.5)%float.

(** [min(course.get("enrollment_count", 0) / 50000, 2)]; the division
    raises on a count too large for a float. *)
Definition enrollment_score (course : Course) : option float :=
  q ← PyFloat.int_true_div (default 0 (enrollment_count course)) 50000;
  Some (PyFloat.min q 2.0).

Definition price_score (course : Course) : float :=
  match price course with
  | Some p => if String.eqb p "Free" then 2.0%float else 0.5%float
  | None => 0.5%float
  end.

(** The value of [score] at the end of one turn of the loop of
    [_rank_courses], before it is rounded. *)
Definition raw_score (course : Course) (career : string) : option float :=
  e ← enrollment_score course;
  let score := 0%float in
  let score := (score + _get_provider_score (provider course))%float in
  let score := (score + rating_score course)%float in
  let score := (score + e)%float in
  let score := (score + price_score course)%float in
  let score := (score + _calculate_relevance_score course career)%float in
  Some score.

(** One turn of the loop: the course with its score stored. *)
Definition score_course (career : string) (course : Course) : option Course :=
  s ← raw_score course career;
  Some (set_score course (PyFloat.round s 2)).

(** The stable sort in descending order of the score: [insert_desc] puts
    a course after the courses of a strictly greater score. *)
Fixpoint insert_desc (c : Course) (l : list Course) : list Course :=
  match l with
  | [] => [c]
  | d :: l' =>
      if PyFloat.lt (score c) (score d) then d :: insert_desc c l'
      else c :: l
  end.
Definition stable_desc (l : list Course) : list Course :=
  foldr insert_desc [] l.

Definition all_numbers (l : list Course) : bool :=
  forallb (fun c => negb (PyFloat.is_nan (score c))) l.

(** [sorted(l, key=lambda x: x["score"], reverse=True)]: the stable sort
    in descending order of the key when the keys are numbers. A NaN
    compares false with every key, and where the sort then leaves each
    course follows the comparisons that its algorithm happens to make:
    that list is the interpreter's. *)
Definition sorted_desc (l : list Course) : list Course :=
  if all_numbers l then stable_desc l else sorted_unordered Course score l.

Definition _rank_courses (courses : list Course) (user_level career : string)
  : option (list Course) :=
  match courses with
  | [] => Some []
  | _ =>
      scored_courses ← mapM (score_course career) courses;
      Some (sorted_desc scored_courses)
  end.

(** *** Search terms *)

Definition career_keywords : list (string * list string) :=
  [ ("Data Scientist", ["data science"; "machine learning"; "python data analysis"; "artificial intelligence"]);
    ("Software Engineer", ["programming"; "web development"; "python programming"; "javascript tutorial"]);
    ("UI/UX Designer", ["ui design"; "ux design"; "user experience"; "figma tutorial"]);
    ("Graphic Designer", ["graphic design"; "photoshop tutorial"; "illustrator course"; "digital design"]);
    ("Project Manager", ["project management"; "agile methodology"; "scrum master"; "leadership skills"]);
    ("Healthcare Specialist", ["healthcare"; "medical education"; "public health"; "biology basics"]);
    ("Research Scientist", ["research methods"; "data analysis"; "academic research"; "scientific methods"]);
    ("Engineer", ["engineering"; "mechanical engineering"; "electrical engineering"; "physics concepts"]);
    ("Manager / HR Specialist", ["human resources"; "management skills"; "leadership"; "team management"]);
    ("Journalist / Public Speaker", ["journalism"; "public speaking"; "communication skills"; "writing skills"]);
    ("Technician", ["technical skills"; "it support"; "computer repair"; "hardware tutorial"]);
    ("Sales Assistant", ["sales training"; "marketing basics"; "customer service"; "communication skills"]) ].

Definition level_keywords : list (string * list string) :=
  [ ("beginner", ["beginner"; "fundamentals"; "basics"; "introduction"; "getting started"]);
    ("intermediate", ["intermediate"; "advanced"; "professional"; "deep dive"]);
    ("advanced", ["advanced"; "expert"; "master"; "professional"]) ].

(** The list [search_terms] built by the two loops of
    [_get_search_terms], before the duplicates are removed. *)
Definition combined_terms (career level : string) : list string :=
  let base_terms := dict_get career_keywords career [PyStr.lower career] in
  let level_terms := dict_get level_keywords level [] in
  flat_map
    (fun base =>
       map (fun level_term => base +:+ " " +:+ level_term) (take 1 level_terms)
         ++ [base])%list
    (take 2 base_terms).

(** *** Fallback courses *)

Definition _get_fallback_courses (career level : string) : list Course :=
  [ {| title := Some ("Introduction to " +:+ career +:+ " - " +:+ PyStr.title level +:+ " Level");
       url := "https://www.youtube.com/results?search_query=career+development";
       provider := "Career Guidance";
       level := level;
       rating := Some 4.5%float;
       duration := "Self-paced";
       instructors := ["Professional Instructors"];
       enrollment_count := Some 10000;
       price := Some "Free";
       language := "English";
       score := 0%float;
       searched_for := "fallback" |};
    {| title := Some (career +:+ " Skills Development Course");
       url := "https://www.youtube.com/results?search_query=professional+skills";
       provider := "Skills Academy";
       level := level;
       rating := Some 4.3%float;
       duration := "4-6 weeks";
       instructors := ["Industry Experts"];
       enrollment_count := Some 15000;
       price := Some "Free";
       language := "English";
       score := 0%float;
       searched_for := "fallback" |} ].

End Agent.

(** *** The cache *)

(** A cache entry; the timestamp is a [datetime], counted in
    microseconds. *)
Record CacheEntry := { courses : list Course; timestamp : Z }.

Abbreviation Cache := (gmap string CacheEntry).

(** [timedelta(weeks=1)] in microseconds. *)
Definition one_week : Z := 7 * 24 * 3600 * 1000000.
Definition cache_expiry : Z := one_week.

(** [now] is the value of [datetime.now()] read by the function. *)
Definition _is_cache_too_old (course_cache : Cache) (cache_key : string) (now : Z) : bool :=
  match course_cache !! cache_key with
  | Some cache_data => one_week <? now - timestamp cache_data
  | None => false
  end.

Definition _is_cache_valid (course_cache : Cache) (cache_key : string) (now : Z) : bool :=
  match course_cache !! cache_key with
  | Some cache_data => now - timestamp cache_data <? cache_expiry
  | None => false
  end.

Definition cache_key_of (career user_level : string) : string :=
  career +:+ "_" +:+ user_level.

(** The first step of [search_courses]: an entry that is too old is
    deleted. *)
Definition evict_if_too_old (course_cache : Cache) (cache_key : string) (now : Z) : Cache :=
  if _is_cache_too_old course_cache cache_key now
  then delete cache_key course_cache
  else course_cache.

(** The last step of [search_courses]: the entry of the key is replaced. *)
Definition cache_put (course_cache : Cache) (cache_key : string)
  (top_courses : list Course) (now : Z) : Cache :=
  <[cache_key := {| courses := top_courses; timestamp := now |}]> course_cache.

(** *** The parsers and the search, in their environment *)

Section Environment.

Context `{python : Interpreter}.

(** The iteration order of the [set] built from a list of strings: it
    follows the string hashes of the running interpreter. *)
Variable set_order : list string -> list string.

(** [re.findall] with the video pattern and with the repository
    pattern. *)
Variable findall_video : string -> list (string * string).
Variable findall_repo : string -> list (string * string).

(** The decoded body fetched for a search term, [None] when the request
    raises. *)
Variable urlopen_youtube : string -> option string.
Variable urlopen_github : string -> option string.

(** The [k]-th call of the random generator. *)
Variable random_uniform : nat -> float -> float -> float.
Variable random_randint : nat -> Z -> Z -> Z.

Definition _get_search_terms (career level : string) : list string :=
  set_order (combined_terms career level).

Definition youtube_keywords : list string :=
  ["tutorial"; "course"; "learn"; "guide"; "introduction"].
Definition github_keywords : list string :=
  ["learn"; "tutorial"; "course"; "guide"; "examples"].

Definition has_keyword (keywords : list string) (title : string) : bool :=
  existsb (fun keyword => PyStr.contains keyword (PyStr.lower title)) keywords.

(** The test of the video parser on a matched title. *)
Definition youtube_keeps (title : string) : bool :=
  (15 <? PyStr.len title) && has_keyword youtube_keywords title.

(** The test of the repository parser on a matched title. *)
Definition github_keeps (title : string) : bool :=
  has_keyword github_keywords title.

Definition youtube_course (k : nat) (video_id title search_term : string) : Course :=
  {| title := Some (_clean_title title);
     url := "https://www.youtube.com/watch?v=" +:+ video_id;
     provider := "YouTube";
     level := "beginner";
     rating := Some (PyFloat.round (random_uniform k 4.2 4.9) 1);
     duration := pretty (random_randint (k + 1) 1 8) +:+ " hours";
     instructors := ["YouTube Instructor"];
     enrollment_count := Some (random_randint (k + 2) 5000 200000);
     price := Some "Free";
     language := "English";
     score := 0%float;
     searched_for := search_term |}.

Definition github_course (k : nat) (repo_path title search_term : string) : Course :=
  {| title := Some ("GitHub: " +:+ title);
     url := "https://github.com" +:+ repo_path;
     provider := "GitHub";
     level := "intermediate";
     rating := Some (PyFloat.round (random_uniform k 4.0 4.8) 1);
     duration := "Self-paced";
     instructors := ["Open Source Community"];
     enrollment_count := Some (random_randint (k + 1) 100 5000);
     price := Some "Free";
     language := "English";
     score := 0%float;
     searched_for := search_term |}.

(** The loop over the matches; [k] counts the calls of the random
    generator made so far. *)
Fixpoint youtube_matches (matches : list (string * string)) (search_term : string)
  (k : nat) : list Course * nat :=
  match matches with
  | [] => ([], k)
  | (video_id, title) :: rest =>
      if youtube_keeps title then
        let '(courses, k') := youtube_matches rest search_term (k + 3)%nat in
        (youtube_course k video_id title search_term :: courses, k')
      else youtube_matches rest search_term k
  end.

Definition _parse_youtube_results (html_content search_term : string) (k : nat)
  : list Course * nat :=
  youtube_matches (take 3 (findall_video html_content)) search_term k.

Fixpoint github_matches (matches : list (string * string)) (search_term : string)
  (k : nat) : list Course * nat :=
  match matches with
  | [] => ([], k)
  | (repo_path, title) :: rest =>
      if github_keeps title then
        let '(courses, k') := github_matches rest search_term (k + 2)%nat in
        (github_course k repo_path title search_term :: courses, k')
      else github_matches rest search_term k
  end.

Definition _parse_github_results (html_content search_term : string) (k : nat)
  : list Course * nat :=
  github_matches (take 2 (findall_repo html_content)) search_term k.

(** The loop over the search terms of one provider: a term whose
    request raises is skipped. *)
Fixpoint search_terms_loop (urlopen : string -> option string)
  (parse : string -> string -> nat -> list Course * nat)
  (terms : list string) (k : nat) : list Course * nat :=
  match terms with
  | [] => ([], k)
  | term :: rest =>
      match urlopen term with
      | Some html_content =>
          let '(found, k1) := parse html_content term k in
          let '(courses, k2) := search_terms_loop urlopen parse rest k1 in
          ((found ++ courses)%list, k2)
      | None => search_terms_loop urlopen parse rest k
      end
  end.

Definition _search_youtube (career level : string) (k : nat) : list Course * nat :=
  search_terms_loop urlopen_youtube _parse_youtube_results
    (take 2 (_get_search_terms career level)) k.

Definition _search_github (career level : string) (k : nat) : list Course * nat :=
  search_terms_loop urlopen_github _parse_github_results
    (take 1 (_get_search_terms career level)) k.

(** The pool of a fresh search: what the providers found, and the
    fallback courses when fewer than 20 were found. *)
Definition gather (career user_level : string) (k : nat) : list Course * nat :=
  let '(youtube_courses, k1) := _search_youtube career user_level k in
  let '(github_courses, k2) := _search_github career user_level k1 in
  let all_courses := (youtube_courses ++ github_courses)%list in
  if Z.of_nat (length all_courses) <? 20 then
    ((all_courses ++ _get_fallback_courses career user_level)%list, k2)
  else (all_courses, k2).

(** The state of the agent and of the random generator. *)
Record Agent := { course_cache : Cache; random_calls : nat }.

(** [search_courses]. [now_old], [now_valid] and [now_store] are the
    three readings of the clock: in [_is_cache_too_old], in
    [_is_cache_valid] and when the new entry is stored. The result is
    [None] when the ranking raises. *)
Definition search_courses (agent : Agent) (career user_level : string)
  (now_old now_valid now_store : Z) : option (list Course * Agent) :=
  let cache_key := cache_key_of career user_level in
  let cache := evict_if_too_old (course_cache agent) cache_key now_old in
  if _is_cache_valid cache cache_key now_valid then
    match cache !! cache_key with
    | Some cache_data =>
        Some (courses cache_data,
              {| course_cache := cache; random_calls := random_calls agent |})
    | None => None
    end
  else
    let '(all_courses, k) := gather career user_level (random_calls agent) in
    ranked_courses ← _rank_courses all_courses user_level career;
    let top_courses := take 5 ranked_courses in
    Some (top_courses,
          {| course_cache := cache_put cache cache_key top_courses now_store;
             random_calls := k |}).

End Environment.

End CourseSearch.

(** ** MarketDataAgent *)

Module MarketData.
Import CourseSearch.

(** The dict of [_get_salary_range]. *)
Record SalaryRange := { min : Z; max : Z }.

(** The dict built by [get_market_data]. *)
Record MarketInfo := {
  demand : string;
  salary_range : SalaryRange;
  growth_trend : string;
  skills_in_demand : list string;
  job_openings : Z;
  last_updated : string
}.

Definition _get_demand_level (career : string) : string :=
  let demand_levels : list (string * string) :=
    [ ("Data Scientist", "🚀 Very High Demand");
      ("Software Engineer", "🚀 Very High Demand");
      ("UI/UX Designer", "📈 High Demand");
      ("Healthcare Specialist", "🚀 Very High Demand");
      ("Project Manager", "📈 High Demand");
      ("Graphic Designer", "⚖️ Medium Demand") ] in
  dict_get demand_levels career "⚖️ Medium Demand".

Definition _get_salary_range (career : string) : SalaryRange :=
  let salaries : list (string * SalaryRange) :=
    [ ("Data Scientist", {| min := 95000; max := 165000 |});
      ("Software Engineer", {| min := 85000; max := 155000 |});
      ("UI/UX Designer", {| min := 65000; max := 120000 |});
      ("Healthcare Specialist", {| min := 60000; max := 110000 |});
      ("Project Manager", {| min := 70000; max := 125000 |});
      ("Graphic Designer", {| min := 45000; max := 85000 |}) ] in
  dict_get salaries career {| min := 50000; max := 100000 |}.

Definition _get_growth_trend (career : string) : string :=
  let trends : list (string * string) :=
    [ ("Data Scientist", "📊 Rapid Growth (22% annually)");
      ("Software Engineer", "📊 Steady Growth (15% annually)");
      ("UI/UX Designer", "📊 High Growth (18% annually)");
      ("Healthcare Specialist", "📊 Stable Growth (16% annually)") ] in
  dict_get trends career "📈 Moderate Growth (10% annually)".

Definition _get_skills_demand (career : string) : list string :=
  let skills : list (string * list string) :=
    [ ("Data Scientist", ["Python"; "Machine Learning"; "SQL"; "Data Visualization"]);
      ("Software Engineer", ["JavaScript"; "Python"; "React"; "System Design"]);
      ("UI/UX Designer", ["Figma"; "User Research"; "Prototyping"; "Wireframing"]);
      ("Graphic Designer", ["Adobe Creative Suite"; "Typography"; "Color Theory"]) ] in
  dict_get skills career ["Communication"; "Problem Solving"; "Teamwork"].

Definition _get_job_openings (career : string) : Z :=
  let openings : list (string * Z) :=
    [ ("Data Scientist", 15000); ("Software Engineer", 45000);
      ("UI/UX Designer", 12000); ("Project Manager", 18000) ] in
  dict_get openings career 8000.

(** [get_market_data]; [now_text] is
    [datetime.now().strftime("%Y-%m-%d %H:%M")]. *)
Definition get_market_data (career : string) (now_text : string) : MarketInfo :=
  {| demand := _get_demand_level career;
     salary_range := _get_salary_range career;
     growth_trend := _get_growth_trend career;
     skills_in_demand := _get_skills_demand career;
     job_openings := _get_job_openings career;
     last_updated := now_text |}.

End MarketData.

(** ** CareerAdvisorApp: start, search thread and restart *)

Module AppFlow.
Import DecisionAgent App CourseSearch.

(** The assessment state set by [__init__] and by [restart]. *)
Definition initial_state : AppState :=
  {| current_node := "Math"; user_skills := ∅; recommended_career := None |}.

(** [restart]: the state is reset, whatever it was, and the question of the
    first node is shown. The agents, and with them the course cache, are
    kept. *)
Definition restart (tree : Tree) (st : AppState) : AppState * Shown :=
  show_question tree initial_state.

(** What [show_results] displays: the recommended career read from the
    state, the market data and the courses. *)
Record Results := {
  shown_career : option string;
  shown_market : MarketData.MarketInfo;
  shown_courses : list Course
}.

Section Thread.

Context `{python : Interpreter}.

Variable set_order : list string -> list string.
Variable findall_video findall_repo : string -> list (string * string).
Variable urlopen_youtube urlopen_github : string -> option string.
Variable random_uniform : nat -> float -> float -> float.
Variable random_randint : nat -> Z -> Z -> Z.

(** The [try] block of [perform_real_search_thread] with the call of
    [show_results] that it schedules on the main thread. The level of the
    search is the default of [search_courses], "beginner". The result is
    [None] when the search raises; the [except] clause, which schedules
    [show_error] on the main thread, is not part of the embedding. *)
Definition perform_real_search_thread (agent : Agent) (st : AppState)
  (career : string) (now_text : string) (now_old now_valid now_store : Z)
  : option (Agent * Results) :=
  let market_data := MarketData.get_market_data career now_text in
  '(courses, agent') ←
    search_courses set_order findall_video findall_repo urlopen_youtube
      urlopen_github random_uniform random_randint
      agent career "beginner" now_old now_valid now_store;
  Some (agent',
        {| shown_career := recommended_career st;
           shown_market := market_data;
           shown_courses := courses |}).

End Thread.

End AppFlow.

(** * Properties *)

(** ** The order of the floats *)

Module FloatOrder.

(** The place of a float in the order: the class (infinities, negative,
    zero, positive), then the exponent, then the mantissa; none for a NaN. *)
Definition key (x : spec_float) : option (Z * Z * Z) :=
  match x with
  | S754_nan => None
  | S754_infinity true => Some (-2, 0, 0)
  | S754_infinity false => Some (2, 0, 0)
  | S754_zero _ => Some (0, 0, 0)
  | S754_finite false m e => Some (1, e, Zpos m)
  | S754_finite true m e => Some (-1, - e, Zneg m)
  end.

Definition lex (k1 k2 : Z * Z * Z) : comparison :=
  let '(a1, b1, c1) := k1 in
  let '(a2, b2, c2) := k2 in
  match a1 ?= a2 with
  | Eq => match b1 ?= b2 with Eq => c1 ?= c2 | r => r end
  | r => r
  end.

Definition lex_le (k1 k2 : Z * Z * Z) : Prop :=
  let '(a1, b1, c1) := k1 in
  let '(a2, b2, c2) := k2 in
  a1 < a2 \/ (a1 = a2 /\ (b1 < b2 \/ (b1 = b2 /\ c1 <= c2))).

Definition lex_lt (k1 k2 : Z * Z * Z) : Prop :=
  let '(a1, b1, c1) := k1 in
  let '(a2, b2, c2) := k2 in
  a1 < a2 \/ (a1 = a2 /\ (b1 < b2 \/ (b1 = b2 /\ c1 < c2))).

Lemma lex_spec (k1 k2 : Z * Z * Z) :
  match lex k1 k2 with
  | Lt => lex_lt k1 k2
  | Eq => k1 = k2
  | Gt => lex_lt k2 k1
  end.
Proof.
  destruct k1 as [[a1 b1] c1], k2 as [[a2 b2] c2]. unfold lex, lex_lt.
  destruct (Z.compare_spec a1 a2); [|lia|lia].
  destruct (Z.compare_spec b1 b2); [|lia|lia].
  destruct (Z.compare_spec c1 c2); [|lia|lia].
  congruence.
Qed.

Lemma SFcompare_key (x y : spec_float) :
  SFcompare x y
  = match key x, key y with
    | Some k1, Some k2 => Some (lex k1 k2)
    | _, _ => None
    end.
Proof.
  destruct x as [sx|sx| |sx mx ex], y as [sy|sy| |sy my ey];
    try destruct sx; try destruct sy; try reflexivity.
  - simpl. rewrite Z.compare_opp. rewrite (Z.compare_antisym ex ey).
    destruct (ex ?= ey); reflexivity.
Qed.

(** [x <= y] and [x < y] on floats, read on the keys. *)
Lemma leb_key (x y : float) :
  PrimFloat.leb x y = true
  <-> exists k1 k2, key (Prim2SF x) = Some k1 /\ key (Prim2SF y) = Some k2
                    /\ lex_le k1 k2.
Proof.
  rewrite leb_spec. unfold SFleb. rewrite SFcompare_key.
  destruct (key (Prim2SF x)) as [k1|], (key (Prim2SF y)) as [k2|];
    try (split; [discriminate|intros (? & ? & ? & ? & ?); discriminate]).
  pose proof (lex_spec k1 k2) as H.
  destruct k1 as [[a1 b1] c1], k2 as [[a2 b2] c2].
  split.
  - intros Hc. exists (a1, b1, c1), (a2, b2, c2). split; [reflexivity|].
    split; [reflexivity|]. unfold lex_le.
    destruct (lex (a1, b1, c1) (a2, b2, c2)); try discriminate.
    + injection H as -> -> ->. lia.
    + unfold lex_lt in H. lia.
  - intros (k1 & k2 & [= <-] & [= <-] & Hle). unfold lex_le in Hle.
    destruct (lex (a1, b1, c1) (a2, b2, c2)); try reflexivity.
    unfold lex_lt in H. lia.
Qed.

Lemma ltb_key (x y : float) :
  PrimFloat.ltb x y = true
  <-> exists k1 k2, key (Prim2SF x) = Some k1 /\ key (Prim2SF y) = Some k2
                    /\ lex_lt k1 k2.
Proof.
  rewrite ltb_spec. unfold SFltb. rewrite SFcompare_key.
  destruct (key (Prim2SF x)) as [k1|], (key (Prim2SF y)) as [k2|];
    try (split; [discriminate|intros (? & ? & ? & ? & ?); discriminate]).
  pose proof (lex_spec k1 k2) as H.
  destruct k1 as [[a1 b1] c1], k2 as [[a2 b2] c2].
  split.
  - intros Hc. exists (a1, b1, c1), (a2, b2, c2). split; [reflexivity|].
    split; [reflexivity|].
    destruct (lex (a1, b1, c1) (a2, b2, c2)); try discriminate. exact H.
  - intros (k1 & k2 & [= <-] & [= <-] & Hlt). unfold lex_lt in Hlt.
    destruct (lex (a1, b1, c1) (a2, b2, c2)); try reflexivity.
    + injection H as -> -> ->. lia.
    + unfold lex_lt in H. lia.
Qed.

Lemma is_nan_key (x : float) :
  PyFloat.is_nan x = false <-> exists k, key (Prim2SF x) = Some k.
Proof.
  unfold PyFloat.is_nan. rewrite negb_false_iff, FloatAxioms.eqb_spec.
  unfold SFeqb. rewrite SFcompare_key.
  destruct (key (Prim2SF x)) as [k|].
  - split; [intros _; exists k; reflexivity|intros _].
    pose proof (lex_spec k k) as H. destruct k as [[a b] c].
    destruct (lex (a, b, c) (a, b, c)); [reflexivity| |]; unfold lex_lt in H; lia.
  - split; [discriminate|intros [k Hk]; discriminate].
Qed.

(** On floats that are not NaN the order is total and transitive. *)
Lemma leb_total (x y : float) :
  PyFloat.is_nan x = false -> PyFloat.is_nan y = false ->
  PrimFloat.ltb x y = false -> PrimFloat.leb y x = true.
Proof.
  intros Hx Hy Hlt. apply is_nan_key in Hx, Hy.
  destruct Hx as [k1 Hk1], Hy as [k2 Hk2].
  apply leb_key. exists k2, k1. split; [exact Hk2|]. split; [exact Hk1|].
  destruct (ltb_key x y) as [_ Hback].
  destruct k1 as [[a1 b1] c1], k2 as [[a2 b2] c2]. unfold lex_le.
  assert (Hn : ~ lex_lt (a1, b1, c1) (a2, b2, c2)).
  { intros Hl. rewrite Hback in Hlt; [discriminate|].
    exists (a1, b1, c1), (a2, b2, c2). auto. }
  unfold lex_lt in Hn. lia.
Qed.

Lemma leb_trans (x y z : float) :
  PrimFloat.leb x y = true -> PrimFloat.leb y z = true -> PrimFloat.leb x z = true.
Proof.
  rewrite !leb_key.
  intros (k1 & k2 & H1 & H2 & H12) (k2' & k3 & H2' & H3 & H23).
  rewrite H2 in H2'. injection H2' as <-.
  exists k1, k3. split; [exact H1|]. split; [exact H3|].
  destruct k1 as [[a1 b1] c1], k2 as [[a2 b2] c2], k3 as [[a3 b3] c3].
  unfold lex_le in *. lia.
Qed.

Lemma ltb_leb (x y : float) : PrimFloat.ltb x y = true -> PrimFloat.leb x y = true.
Proof.
  rewrite ltb_key, leb_key. intros (k1 & k2 & H1 & H2 & H).
  exists k1, k2. split; [exact H1|]. split; [exact H2|].
  destruct k1 as [[a1 b1] c1], k2 as [[a2 b2] c2]. unfold lex_lt, lex_le in *. lia.
Qed.

Lemma leb_refl (x : float) : PyFloat.is_nan x = false -> PrimFloat.leb x x = true.
Proof.
  intros Hx. apply is_nan_key in Hx. destruct Hx as [k Hk].
  apply leb_key. exists k, k. split; [exact Hk|]. split; [exact Hk|].
  destruct k as [[a b] c]. unfold lex_le. lia.
Qed.

End FloatOrder.

(** ** Rounding to the nearest float *)

Module Rounding.

Ltac zdiv := Z.to_euclidean_division_equations; lia.

(** The place of a mantissa between two neighbours, as a number: four times
    the mantissa plus 0 (exact), 1 (below the middle), 2 (the middle) or 3
    (above the middle). *)
Definition code (l : location) : Z :=
  match l with
  | loc_Exact => 0
  | loc_Inexact Lt => 1
  | loc_Inexact Eq => 2
  | loc_Inexact Gt => 3
  end.

Definition bit (b : bool) : Z := if b then 1 else 0.

Definition pos_of (mrs : shr_record) : Z :=
  4 * shr_m mrs + (2 * bit (shr_r mrs) + bit (shr_s mrs)).

(** The shift to the right by [k] binary places that keeps a sticky last
    bit. *)
Definition shk (k p : Z) : Z :=
  2 * (p / 2 ^ (k + 1)) + (if p mod 2 ^ (k + 1) =? 0 then 0 else 1).

(** The mantissa nearest to a place, ties to even. *)
Definition rnd (p : Z) : Z :=
  p / 4 + (if p mod 4 =? 3 then 1
           else if p mod 4 =? 2 then (if Z.even (p / 4) then 0 else 1)
           else 0).

Lemma divmod4 (x c : Z) : 0 <= c < 4 -> (4 * x + c) / 4 = x /\ (4 * x + c) mod 4 = c.
Proof. intros H. zdiv. Qed.

Lemma four_div (x : Z) : 4 * x / 4 = x.
Proof. zdiv. Qed.

Lemma shk1_spec (x c : Z) :
  0 <= c < 4 -> shk 1 (4 * x + c) = 2 * x + (if c =? 0 then 0 else 1).
Proof.
  intros H. unfold shk. change (2 ^ (1 + 1)) with 4.
  destruct (divmod4 x c H) as [-> ->]. reflexivity.
Qed.

Lemma rnd_spec (x c : Z) :
  0 <= c < 4 ->
  rnd (4 * x + c)
  = x + (if c =? 3 then 1 else if c =? 2 then (if Z.even x then 0 else 1) else 0).
Proof.
  intros H. unfold rnd. destruct (divmod4 x c H) as [-> ->]. reflexivity.
Qed.

Lemma code_range (l : location) : 0 <= code l < 4.
Proof. destruct l as [|[| |]]; simpl; lia. Qed.

Lemma bits_range (r s : bool) : 0 <= 2 * bit r + bit s < 4.
Proof. destruct r, s; simpl; lia. Qed.

Lemma pos_record_of_loc (m : Z) (l : location) :
  pos_of (shr_record_of_loc m l) = 4 * m + code l.
Proof. destruct l as [|[| |]]; reflexivity. Qed.

Lemma shr_m_pos (mrs : shr_record) : shr_m mrs = pos_of mrs / 4.
Proof.
  unfold pos_of.
  destruct (divmod4 (shr_m mrs) _ (bits_range (shr_r mrs) (shr_s mrs))) as [-> _].
  reflexivity.
Qed.

Lemma rne_pos (mrs : shr_record) :
  round_nearest_even (shr_m mrs) (loc_of_shr_record mrs) = rnd (pos_of mrs).
Proof.
  unfold pos_of. rewrite rnd_spec by apply bits_range.
  destruct mrs as [m [|] [|]];
    cbn [shr_m shr_r shr_s loc_of_shr_record round_nearest_even].
  - change (2 * bit true + bit true) with 3. change (3 =? 3) with true.
    cbv iota. reflexivity.
  - change (2 * bit true + bit false) with 2. change (2 =? 3) with false.
    change (2 =? 2) with true. cbv iota. destruct (Z.even m); lia.
  - change (2 * bit false + bit true) with 1. change (1 =? 3) with false.
    change (1 =? 2) with false. cbv iota. lia.
  - change (2 * bit false + bit false) with 0. change (0 =? 3) with false.
    change (0 =? 2) with false. cbv iota. lia.
Qed.

Lemma bits_zero (r s : bool) :
  (if 2 * bit r + bit s =? 0 then 0 else 1) = bit (r || s).
Proof. destruct r, s; reflexivity. Qed.

Lemma pos_shr_1 (mrs : shr_record) :
  0 <= shr_m mrs ->
  pos_of (shr_1 mrs) = shk 1 (pos_of mrs) /\ 0 <= shr_m (shr_1 mrs).
Proof.
  destruct mrs as [m r s]. cbn [shr_m]. intros Hm. unfold pos_of.
  destruct m as [|[p|p|]|p]; try lia; cbn [shr_1 shr_m shr_r shr_s].
  - rewrite shk1_spec by apply bits_range. rewrite bits_zero. unfold bit at 1. lia.
  - split; [|lia].
    replace (4 * Z.pos p~1 + (2 * bit r + bit s))
      with (4 * (2 * Z.pos p + 1) + (2 * bit r + bit s)) by lia.
    rewrite shk1_spec by apply bits_range. rewrite bits_zero. unfold bit at 1. lia.
  - split; [|lia].
    replace (4 * Z.pos p~0 + (2 * bit r + bit s))
      with (4 * (2 * Z.pos p) + (2 * bit r + bit s)) by lia.
    rewrite shk1_spec by apply bits_range. rewrite bits_zero. unfold bit at 1. lia.
  - split; [|lia].
    rewrite shk1_spec by apply bits_range. rewrite bits_zero. unfold bit at 1. lia.
Qed.

Lemma pow2_pos (k : Z) : 0 <= k -> 0 < 2 ^ k.
Proof. intros H. apply Z.pow_pos_nonneg; lia. Qed.

Lemma shk_shk (a b p : Z) :
  0 <= a -> 0 <= b -> shk a (shk b p) = shk (a + b) p.
Proof.
  intros Ha Hb. unfold shk.
  set (Q := 2 ^ (b + 1)). set (R := 2 ^ a).
  assert (HQ : 0 < Q) by (apply pow2_pos; lia).
  assert (HR : 0 < R) by (apply pow2_pos; lia).
  replace (2 ^ (a + 1)) with (2 * R) by (unfold R; rewrite Z.pow_add_r by lia; lia).
  replace (2 ^ (a + b + 1)) with (Q * R)
    by (unfold Q, R; rewrite <- Z.pow_add_r by lia; f_equal; lia).
  pose proof (Z.div_mod p Q ltac:(lia)) as Hp.
  pose proof (Z.mod_pos_bound p Q HQ) as Hv.
  set (u := p / Q) in *. set (v := p mod Q) in *.
  pose proof (Z.div_mod u R ltac:(lia)) as Hu.
  pose proof (Z.mod_pos_bound u R HR) as Hw.
  set (u' := u / R) in *. set (w := u mod R) in *.
  set (beta := if v =? 0 then 0 else 1).
  assert (Hbeta : 0 <= beta <= 1 /\ (beta = 0 <-> v = 0)).
  { unfold beta. destruct (Z.eqb_spec v 0); lia. }
  assert (E1 : (2 * u + beta) / (2 * R) = u').
  { symmetry. apply (Z.div_unique _ _ _ (2 * w + beta)); [left; lia|lia]. }
  assert (E2 : (2 * u + beta) mod (2 * R) = 2 * w + beta).
  { symmetry. apply (Z.mod_unique _ _ u'); [left; lia|lia]. }
  assert (B3 : 0 <= Q * w + v < Q * R) by nia.
  assert (E3 : p / (Q * R) = u').
  { symmetry. apply (Z.div_unique _ _ _ (Q * w + v)); [left; exact B3|lia]. }
  assert (E4 : p mod (Q * R) = Q * w + v).
  { symmetry. apply (Z.mod_unique _ _ u'); [left; exact B3|lia]. }
  rewrite E1, E2, E3, E4.
  destruct (Z.eqb_spec (2 * w + beta) 0), (Z.eqb_spec (Q * w + v) 0); nia.
Qed.

Lemma shk_0 (p : Z) : shk 0 p = p.
Proof.
  unfold shk. change (2 ^ (0 + 1)) with 2.
  destruct (Z.eqb_spec (p mod 2) 0); zdiv.
Qed.

Lemma pos_iter (k : positive) (mrs : shr_record) :
  0 <= shr_m mrs ->
  pos_of (SpecFloat.iter_pos shr_1 k mrs) = shk (Z.pos k) (pos_of mrs)
  /\ 0 <= shr_m (SpecFloat.iter_pos shr_1 k mrs).
Proof.
  revert mrs. induction k as [k IH|k IH|]; intros mrs Hm; cbn [SpecFloat.iter_pos].
  - destruct (pos_shr_1 mrs Hm) as [E1 H1].
    destruct (IH _ H1) as [E2 H2]. destruct (IH _ H2) as [E3 H3].
    split; [|exact H3]. rewrite E3, E2, E1.
    rewrite !shk_shk by lia. f_equal. lia.
  - destruct (IH _ Hm) as [E2 H2]. destruct (IH _ H2) as [E3 H3].
    split; [|exact H3]. rewrite E3, E2.
    rewrite !shk_shk by lia. f_equal. lia.
  - apply pos_shr_1. exact Hm.
Qed.

(** *** The number of binary digits *)

Lemma digits2_pos_bounds (p : positive) :
  2 ^ (Z.pos (digits2_pos p) - 1) <= Z.pos p < 2 ^ Z.pos (digits2_pos p).
Proof.
  induction p as [p IH|p IH|]; cbn [digits2_pos].
  - rewrite Pos2Z.inj_succ, (Pos2Z.inj_xI p).
    replace (Z.succ (Z.pos (digits2_pos p)) - 1) with (Z.succ (Z.pos (digits2_pos p) - 1)) by lia.
    rewrite !Z.pow_succ_r by lia. lia.
  - rewrite Pos2Z.inj_succ, (Pos2Z.inj_xO p).
    replace (Z.succ (Z.pos (digits2_pos p)) - 1) with (Z.succ (Z.pos (digits2_pos p) - 1)) by lia.
    rewrite !Z.pow_succ_r by lia. lia.
  - change (2 ^ (1 - 1)) with 1. change (2 ^ 1) with 2. lia.
Qed.

Lemma Zdigits2_bounds (m : Z) :
  0 < m -> 0 < Zdigits2 m /\ 2 ^ (Zdigits2 m - 1) <= m < 2 ^ Zdigits2 m.
Proof.
  destruct m as [|p|p]; try lia. intros _. cbn [Zdigits2].
  split; [lia|apply digits2_pos_bounds].
Qed.

Lemma Zdigits2_nonneg (m : Z) : 0 <= Zdigits2 m.
Proof. destruct m; cbn [Zdigits2]; lia. Qed.

Lemma Zdigits2_unique (m d : Z) :
  0 < d -> 2 ^ (d - 1) <= m < 2 ^ d -> Zdigits2 m = d.
Proof.
  intros Hd Hm.
  assert (Hpos : 0 < m) by (pose proof (pow2_pos (d - 1)); lia).
  destruct (Zdigits2_bounds m Hpos) as [Hd' Hb].
  destruct (Z.lt_trichotomy (Zdigits2 m) d) as [Hlt|[Heq|Hgt]]; [|exact Heq|].
  - assert (2 ^ Zdigits2 m <= 2 ^ (d - 1)) by (apply Z.pow_le_mono_r; lia). lia.
  - assert (2 ^ d <= 2 ^ (Zdigits2 m - 1)) by (apply Z.pow_le_mono_r; lia). lia.
Qed.

Lemma Zdigits2_mono (m m' : Z) : 0 <= m <= m' -> Zdigits2 m <= Zdigits2 m'.
Proof.
  intros Hm. destruct (Z.eq_dec m 0) as [->|Hne]; [apply Zdigits2_nonneg|].
  destruct (Zdigits2_bounds m ltac:(lia)) as [Hd Hb].
  destruct (Zdigits2_bounds m' ltac:(lia)) as [Hd' Hb'].
  destruct (Z_le_gt_dec (Zdigits2 m) (Zdigits2 m')) as [Hle|Hgt]; [exact Hle|].
  assert (2 ^ Zdigits2 m' <= 2 ^ (Zdigits2 m - 1)) by (apply Z.pow_le_mono_r; lia). lia.
Qed.

Lemma Zdigits2_le (m d : Z) : 0 <= d -> 0 <= m < 2 ^ d -> Zdigits2 m <= d.
Proof.
  intros Hd Hm. destruct (Z.eq_dec m 0) as [->|Hne]; [exact Hd|].
  destruct (Zdigits2_bounds m ltac:(lia)) as [Hd' Hb].
  destruct (Z_le_gt_dec (Zdigits2 m) d) as [Hle|Hgt]; [exact Hle|].
  assert (2 ^ d <= 2 ^ (Zdigits2 m - 1)) by (apply Z.pow_le_mono_r; lia). lia.
Qed.

(** *** The shift and the rounding on places *)

Lemma shk_div4 (k p : Z) : 0 <= k -> shk k p / 4 = p / 4 / 2 ^ k.
Proof.
  intros Hk. unfold shk.
  set (Q := 2 ^ (k + 1)).
  assert (HQ : 0 < Q) by (apply pow2_pos; lia).
  assert (E : Q = 2 * 2 ^ k) by (unfold Q; rewrite Z.pow_add_r by lia; lia).
  assert (HR : 0 < 2 ^ k) by (apply pow2_pos; lia).
  rewrite Z.div_div by lia.
  replace (4 * 2 ^ k) with (Q * 2) by lia.
  rewrite <- Z.div_div by lia.
  destruct (p mod Q =? 0); zdiv.
Qed.

Lemma shk_mono (k p p' : Z) : 0 <= k -> p <= p' -> shk k p <= shk k p'.
Proof.
  intros Hk Hp. unfold shk.
  set (Q := 2 ^ (k + 1)).
  assert (HQ : 0 < Q) by (apply pow2_pos; lia).
  pose proof (Z.div_mod p Q ltac:(lia)). pose proof (Z.mod_pos_bound p Q HQ).
  pose proof (Z.div_mod p' Q ltac:(lia)). pose proof (Z.mod_pos_bound p' Q HQ).
  destruct (Z.eqb_spec (p mod Q) 0), (Z.eqb_spec (p' mod Q) 0); nia.
Qed.

Lemma shk_nonneg (k p : Z) : 0 <= k -> 0 <= p -> 0 <= shk k p.
Proof.
  intros Hk Hp. unfold shk.
  assert (HQ : 0 < 2 ^ (k + 1)) by (apply pow2_pos; lia).
  assert (0 <= p / 2 ^ (k + 1)) by (apply Z.div_pos; lia).
  destruct (p mod 2 ^ (k + 1) =? 0); lia.
Qed.

Lemma rnd_bounds (p : Z) : p / 4 <= rnd p <= p / 4 + 1.
Proof.
  unfold rnd. destruct (p mod 4 =? 3); [lia|].
  destruct (p mod 4 =? 2); [|lia]. destruct (Z.even (p / 4)); lia.
Qed.

Lemma rnd_mono (p p' : Z) : p <= p' -> rnd p <= rnd p'.
Proof.
  intros Hp.
  destruct (Z.eq_dec (p / 4) (p' / 4)) as [E|N].
  - unfold rnd. rewrite <- E.
    assert (Hm : p mod 4 <= p' mod 4) by zdiv.
    assert (0 <= p mod 4 < 4) by (apply Z.mod_pos_bound; lia).
    assert (0 <= p' mod 4 < 4) by (apply Z.mod_pos_bound; lia).
    destruct (Z.eqb_spec (p mod 4) 3), (Z.eqb_spec (p' mod 4) 3);
      destruct (Z.eqb_spec (p mod 4) 2), (Z.eqb_spec (p' mod 4) 2);
      destruct (Z.even (p / 4)); lia.
  - pose proof (rnd_bounds p). pose proof (rnd_bounds p').
    assert (p / 4 < p' / 4) by zdiv. lia.
Qed.

Lemma rnd_exact (m : Z) : rnd (4 * m) = m.
Proof.
  replace (4 * m) with (4 * m + 0) by lia. rewrite rnd_spec by lia.
  cbn [Z.eqb]. lia.
Qed.

Lemma shk_exact (k m : Z) : 0 <= k -> shk k (4 * (m * 2 ^ k)) = 4 * m.
Proof.
  intros Hk. unfold shk.
  assert (HR : 0 < 2 ^ k) by (apply pow2_pos; lia).
  replace (4 * (m * 2 ^ k)) with ((2 * m) * 2 ^ (k + 1))
    by (rewrite Z.pow_add_r by lia; lia).
  assert (HQ : 0 < 2 ^ (k + 1)) by (apply pow2_pos; lia).
  rewrite Z.div_mul by lia. rewrite Z.mod_mul by lia. cbn [Z.eqb]. lia.
Qed.

Section Format.

Variables prec emax : Z.

Abbreviation fexp := (SpecFloat.fexp prec emax).
Abbreviation emin := (SpecFloat.emin prec emax).

(** A place brought to the exponent of its format. *)
Definition shift_to (p e : Z) : Z * Z :=
  let k := fexp (Zdigits2 (p / 4) + e) - e in
  if 0 <? k then (shk k p, e + k) else (p, e).

(** The rounding of a place: the mantissa and the exponent of the result. *)
Definition round_pos (p e : Z) : Z * Z :=
  let '(p1, e1) := shift_to p e in
  let '(p3, e3) := shift_to (4 * rnd p1) e1 in
  (p3 / 4, e3).

Definition result_of (s : bool) (me : Z * Z) : spec_float :=
  match fst me with
  | Z0 => S754_zero s
  | Zpos m => if snd me <=? emax - prec then S754_finite s m (snd me) else S754_infinity s
  | Zneg _ => S754_nan
  end.

Lemma shr_fexp_pos (m e : Z) (l : location) :
  0 <= m ->
  (pos_of (fst (shr_fexp prec emax m e l)), snd (shr_fexp prec emax m e l))
  = shift_to (4 * m + code l) e
  /\ 0 <= shr_m (fst (shr_fexp prec emax m e l)).
Proof.
  intros Hm. unfold shr_fexp, shift_to, shr.
  destruct (divmod4 m (code l) (code_range l)) as [-> _].
  destruct (fexp (Zdigits2 m + e) - e) as [|k|k] eqn:Ek; cbn [fst snd].
  - rewrite pos_record_of_loc. split; [reflexivity|].
    destruct l as [|[| |]]; exact Hm.
  - assert (H0 : 0 <= shr_m (shr_record_of_loc m l))
      by (destruct l as [|[| |]]; exact Hm).
    destruct (pos_iter k _ H0) as [E H]. split; [|exact H].
    rewrite E, pos_record_of_loc. reflexivity.
  - rewrite pos_record_of_loc. split; [reflexivity|].
    destruct l as [|[| |]]; exact Hm.
Qed.

Lemma rnd_nonneg (p : Z) : 0 <= p -> 0 <= rnd p.
Proof.
  intros Hp. unfold rnd.
  assert (0 <= p / 4) by zdiv.
  destruct (p mod 4 =? 3); [lia|].
  destruct (p mod 4 =? 2); [|lia]. destruct (Z.even (p / 4)); lia.
Qed.

Lemma binary_round_aux_pos (s : bool) (m e : Z) (l : location) :
  0 <= m ->
  binary_round_aux prec emax s m e l = result_of s (round_pos (4 * m + code l) e).
Proof.
  intros Hm. unfold binary_round_aux, round_pos.
  destruct (shr_fexp_pos m e l Hm) as [E1 H1].
  destruct (shr_fexp prec emax m e l) as [mrs1 e1]. cbn [fst snd] in E1, H1.
  rewrite <- E1. rewrite rne_pos.
  assert (H2 : 0 <= rnd (pos_of mrs1)).
  { apply rnd_nonneg. unfold pos_of. pose proof (bits_range (shr_r mrs1) (shr_s mrs1)). lia. }
  destruct (shr_fexp_pos (rnd (pos_of mrs1)) e1 loc_Exact H2) as [E3 H3].
  destruct (shr_fexp prec emax (rnd (pos_of mrs1)) e1 loc_Exact) as [mrs3 e3].
  cbn [fst snd] in E3, H3. cbn [code] in E3. rewrite Z.add_0_r in E3.
  rewrite <- E3. rewrite <- shr_m_pos. unfold result_of. cbn [fst snd].
  reflexivity.
Qed.

Hypothesis Hprec : 0 < prec.

(** The number of places a place is shifted by, and the condition that the
    place is not coarser than its format. *)
Definition kshift (p e : Z) : Z := fexp (Zdigits2 (p / 4) + e) - e.
Definition enough (p e : Z) : Prop := 0 <= kshift p e.

(** The rank of a mantissa and exponent among the non-negative floats. *)
Definition ordinal (me : Z * Z) : Z := (snd me - emin) * 2 ^ (prec - 1) + fst me.

Lemma pow2_prec : 2 ^ prec = 2 * 2 ^ (prec - 1).
Proof.
  replace prec with (Z.succ (prec - 1)) at 1 by lia.
  rewrite Z.pow_succ_r by lia. reflexivity.
Qed.

Lemma shift_to_enough (p e : Z) :
  enough p e -> shift_to p e = (shk (kshift p e) p, e + kshift p e).
Proof.
  unfold enough, shift_to. fold (kshift p e). intros Hk.
  destruct (Z.ltb_spec 0 (kshift p e)) as [Hlt|Hle]; [reflexivity|].
  replace (kshift p e) with 0 by lia. rewrite shk_0, Z.add_0_r. reflexivity.
Qed.

Lemma round_pos_closed (p e : Z) :
  0 <= p -> enough p e ->
  let k := kshift p e in
  let m2 := rnd (shk k p) in
  0 <= m2 <= 2 ^ prec /\ emin <= e + k
  /\ (emin < e + k -> 2 ^ (prec - 1) <= m2)
  /\ round_pos p e
     = if m2 <? 2 ^ prec then (m2, e + k) else (2 ^ (prec - 1), e + k + 1).
Proof.
  intros Hp Hk k m2. unfold enough in Hk. fold k in Hk.
  assert (HP : 0 < 2 ^ (prec - 1)) by (apply pow2_pos; lia).
  pose proof pow2_prec as H2P.
  assert (HR : 0 < 2 ^ k) by (apply pow2_pos; lia).
  set (m := p / 4) in *. assert (Hm : 0 <= m) by (apply Z.div_pos; lia).
  set (d := Zdigits2 m).
  assert (HE : e + k = Z.max (d + e - prec) emin).
  { unfold k, kshift. fold m. fold d. unfold SpecFloat.fexp. lia. }
  assert (Hm1 : shk k p / 4 = m / 2 ^ k) by (apply shk_div4; exact Hk).
  assert (Hd : 0 <= d) by apply Zdigits2_nonneg.
  assert (Hup : m / 2 ^ k < 2 ^ prec).
  { apply Z.div_lt_upper_bound; [exact HR|].
    rewrite <- Z.pow_add_r by lia.
    destruct (Z.eq_dec m 0) as [->|Hne]; [apply pow2_pos; lia|].
    destruct (Zdigits2_bounds m ltac:(lia)) as [_ [_ Hlt]]. fold d in Hlt.
    assert (2 ^ d <= 2 ^ (k + prec)) by (apply Z.pow_le_mono_r; lia). lia. }
  assert (Hlo : 0 <= m / 2 ^ k) by (apply Z.div_pos; lia).
  pose proof (rnd_bounds (shk k p)) as Hb. rewrite Hm1 in Hb. fold m2 in Hb.
  assert (Hnorm : emin < e + k -> 2 ^ (prec - 1) <= m / 2 ^ k).
  { intros Hgt.
    assert (Hkd : k = d - prec) by lia.
    assert (Hmpos : 0 < m).
    { destruct (Z.eq_dec m 0) as [E0|Hne]; [|lia].
      exfalso. unfold d in Hkd. rewrite E0 in Hkd. cbn [Zdigits2] in Hkd. lia. }
    destruct (Zdigits2_bounds m Hmpos) as [_ [Hge _]]. fold d in Hge.
    apply Z.div_le_lower_bound; [exact HR|].
    rewrite <- Z.pow_add_r by lia.
    replace (k + (prec - 1)) with (d - 1) by lia. exact Hge. }
  split; [lia|]. split; [lia|]. split; [intros Hgt; specialize (Hnorm Hgt); lia|].
  unfold round_pos. rewrite (shift_to_enough p e Hk). fold k. fold m2.
  unfold shift_to.
  replace (4 * m2 / 4) with m2 by (rewrite Z.mul_comm, Z.div_mul; lia).
  destruct (Z.ltb_spec m2 (2 ^ prec)) as [Hlt|Hge].
  - assert (Hd2 : Zdigits2 m2 <= prec) by (apply Zdigits2_le; lia).
    assert (Hk2 : fexp (Zdigits2 m2 + (e + k)) - (e + k) <= 0)
      by (unfold SpecFloat.fexp; lia).
    destruct (Z.ltb_spec 0 (fexp (Zdigits2 m2 + (e + k)) - (e + k))); [lia|].
    rewrite Z.mul_comm, Z.div_mul by lia. reflexivity.
  - assert (Em2 : m2 = 2 ^ prec) by lia.
    assert (Hd2 : Zdigits2 m2 = prec + 1).
    { apply Zdigits2_unique; [lia|].
      replace (prec + 1 - 1) with prec by lia.
      rewrite Z.pow_add_r by lia. change (2 ^ 1) with 2. lia. }
    rewrite Hd2.
    assert (Hk2 : fexp (prec + 1 + (e + k)) - (e + k) = 1)
      by (unfold SpecFloat.fexp; lia).
    rewrite Hk2. cbn [Z.ltb Z.compare].
    rewrite shk_div4 by lia.
    replace (4 * m2 / 4) with m2 by (rewrite Z.mul_comm, Z.div_mul; lia).
    change (2 ^ 1) with 2. rewrite Em2, H2P.
    rewrite Z.mul_comm, Z.div_mul by lia. reflexivity.
Qed.

Lemma ordinal_round_pos (p e : Z) :
  0 <= p -> enough p e ->
  ordinal (round_pos p e)
  = (e + kshift p e - emin) * 2 ^ (prec - 1) + rnd (shk (kshift p e) p).
Proof.
  intros Hp Hk. destruct (round_pos_closed p e Hp Hk) as (Hm2 & _ & _ & ->).
  pose proof pow2_prec as H2P. unfold ordinal.
  destruct (Z.ltb_spec (rnd (shk (kshift p e) p)) (2 ^ prec)); cbn [fst snd]; lia.
Qed.

(** The result of a rounding has the mantissa and the exponent of a float
    of the format. *)
Definition canonical (me : Z * Z) : Prop :=
  0 <= fst me < 2 ^ prec /\ emin <= snd me
  /\ (emin < snd me -> 2 ^ (prec - 1) <= fst me).

Lemma round_pos_canonical (p e : Z) :
  0 <= p -> enough p e -> canonical (round_pos p e).
Proof.
  intros Hp Hk. destruct (round_pos_closed p e Hp Hk) as (Hm2 & He & Hn & ->).
  pose proof pow2_prec as H2P.
  assert (HP : 0 < 2 ^ (prec - 1)) by (apply pow2_pos; lia).
  unfold canonical.
  destruct (Z.ltb_spec (rnd (shk (kshift p e) p)) (2 ^ prec)); cbn [fst snd]; lia.
Qed.

(** Two places at the same exponent are rounded in their order. *)
Lemma round_pos_mono (p p' e : Z) :
  0 <= p <= p' -> enough p e -> enough p' e ->
  ordinal (round_pos p e) <= ordinal (round_pos p' e).
Proof.
  intros Hp Hk Hk'.
  rewrite !ordinal_round_pos by (assumption || lia).
  assert (HP : 0 < 2 ^ (prec - 1)) by (apply pow2_pos; lia).
  pose proof pow2_prec as H2P.
  assert (Hd : Zdigits2 (p / 4) <= Zdigits2 (p' / 4)).
  { apply Zdigits2_mono. split; [apply Z.div_pos; lia|apply Z.div_le_mono; lia]. }
  assert (Hkk : kshift p e <= kshift p' e) by (unfold kshift, SpecFloat.fexp; lia).
  destruct (Z.eq_dec (kshift p e) (kshift p' e)) as [E|N].
  - rewrite <- E.
    assert (rnd (shk (kshift p e) p) <= rnd (shk (kshift p e) p'))
      by (apply rnd_mono, shk_mono; [exact Hk|lia]).
    lia.
  - destruct (round_pos_closed p e ltac:(lia) Hk) as (Hm2 & He & _ & _).
    destruct (round_pos_closed p' e ltac:(lia) Hk') as (Hm2' & He' & Hn' & _).
    specialize (Hn' ltac:(lia)). nia.
Qed.

(** A place and its shift by [j] places are rounded alike. *)
Lemma round_pos_shift (p e j : Z) :
  0 <= p -> 0 <= j -> enough (shk j p) (e + j) ->
  Zdigits2 (p / 4) = Zdigits2 (shk j p / 4) + j ->
  enough p e /\ round_pos p e = round_pos (shk j p) (e + j).
Proof.
  intros Hp Hj Hk Hd.
  assert (Ek : kshift p e = kshift (shk j p) (e + j) + j).
  { unfold kshift. rewrite Hd. replace (Zdigits2 (shk j p / 4) + j + e)
      with (Zdigits2 (shk j p / 4) + (e + j)) by lia. lia. }
  assert (Hen : enough p e) by (unfold enough in *; lia).
  split; [exact Hen|].
  destruct (round_pos_closed p e Hp Hen) as (_ & _ & _ & ->).
  destruct (round_pos_closed (shk j p) (e + j) (shk_nonneg j p Hj Hp) Hk)
    as (_ & _ & _ & ->).
  rewrite Ek. rewrite <- (shk_shk _ j p) by (unfold enough in Hk; lia).
  replace (e + (kshift (shk j p) (e + j) + j)) with (e + j + kshift (shk j p) (e + j))
    by lia.
  reflexivity.
Qed.

Hypothesis Hemax : prec < emax.

Lemma emin_nonpos : emin <= 0.
Proof. unfold SpecFloat.emin. lia. Qed.

Lemma fexp_ge_emin (x : Z) : emin <= fexp x.
Proof. unfold SpecFloat.fexp. lia. Qed.

Lemma enough_base (p e0 : Z) : e0 <= emin -> enough p e0.
Proof.
  intros H. unfold enough, kshift.
  pose proof (fexp_ge_emin (Zdigits2 (p / 4) + e0)). lia.
Qed.

Lemma Zdigits2_mul_pow (M j : Z) :
  0 < M -> 0 <= j -> Zdigits2 (M * 2 ^ j) = Zdigits2 M + j.
Proof.
  intros HM Hj. destruct (Zdigits2_bounds M HM) as [Hd [Hlo Hhi]].
  assert (HR : 0 < 2 ^ j) by (apply pow2_pos; lia).
  apply Zdigits2_unique; [lia|].
  replace (Zdigits2 M + j - 1) with (Zdigits2 M - 1 + j) by lia.
  rewrite !Z.pow_add_r by lia. nia.
Qed.

(** An exact mantissa may be written at any lower exponent. *)
Lemma round_pos_exact_shift (M e e0 : Z) :
  0 < M -> e0 <= e -> enough (4 * M) e ->
  round_pos (4 * (M * 2 ^ (e - e0))) e0 = round_pos (4 * M) e.
Proof.
  intros HM He Hen.
  assert (HR : 0 < 2 ^ (e - e0)) by (apply pow2_pos; lia).
  assert (Hs : shk (e - e0) (4 * (M * 2 ^ (e - e0))) = 4 * M)
    by (apply shk_exact; lia).
  destruct (round_pos_shift (4 * (M * 2 ^ (e - e0))) e0 (e - e0)) as [_ E].
  - nia.
  - lia.
  - rewrite Hs. replace (e0 + (e - e0)) with e by lia. exact Hen.
  - rewrite Hs.
    rewrite !four_div. apply Zdigits2_mul_pow; lia.
  - rewrite E, Hs. f_equal. lia.
Qed.

(** *** The keys of the results *)

Definition rkey (me : Z * Z) : Z * Z * Z :=
  if fst me =? 0 then (0, 0, 0)
  else if snd me <=? emax - prec then (1, snd me, fst me)
  else (2, 0, 0).

Definition opp_key (k : Z * Z * Z) : Z * Z * Z :=
  let '(a, b, c) := k in (- a, - b, - c).

Definition signed_key (s : bool) (me : Z * Z) : Z * Z * Z :=
  if s then opp_key (rkey me) else rkey me.

Lemma key_result_of (s : bool) (me : Z * Z) :
  0 <= fst me -> FloatOrder.key (result_of s me) = Some (signed_key s me).
Proof.
  destruct me as [m e]. cbn [fst]. intros Hm.
  unfold result_of, signed_key, rkey, opp_key. cbn [fst snd].
  destruct m as [|q|q]; [destruct s; reflexivity| |lia].
  change (Z.pos q =? 0) with false. cbv iota.
  destruct (e <=? emax - prec); destruct s; reflexivity.
Qed.

Lemma rkey_mono (me me' : Z * Z) :
  canonical me -> canonical me' -> ordinal me <= ordinal me' ->
  FloatOrder.lex_le (rkey me) (rkey me').
Proof.
  destruct me as [m e], me' as [m' e']. unfold canonical, ordinal, rkey.
  cbn [fst snd]. intros (Hm & He & Hn) (Hm' & He' & Hn') Ho.
  assert (HP : 0 < 2 ^ (prec - 1)) by (apply pow2_pos; lia).
  pose proof pow2_prec as H2P.
  assert (Hee : e < e' \/ (e = e' /\ m <= m') \/ (e' < e /\ m = 0)).
  { destruct (Z.lt_trichotomy e e') as [H|[H|H]]; [left; exact H|right; left; lia|].
    right; right. split; [exact H|].
    destruct (Z.eq_dec m 0) as [E|N]; [exact E|]. specialize (Hn ltac:(lia)). nia. }
  destruct (Z.eqb_spec m 0) as [Em|Nm].
  - destruct (Z.eqb_spec m' 0); [unfold FloatOrder.lex_le; lia|].
    destruct (e' <=? emax - prec); unfold FloatOrder.lex_le; lia.
  - destruct (Z.eqb_spec m' 0) as [Em'|Nm'].
    { exfalso. subst m'. destruct Hee as [H|[H|H]]; lia. }
    destruct (Z.leb_spec e (emax - prec)), (Z.leb_spec e' (emax - prec));
      unfold FloatOrder.lex_le; lia.
Qed.

Lemma rkey_class (me : Z * Z) :
  0 <= fst me ->
  FloatOrder.lex_le (0, 0, 0) (rkey me) /\ FloatOrder.lex_le (opp_key (rkey me)) (0, 0, 0).
Proof.
  intros Hm. unfold rkey, opp_key.
  destruct (Z.eqb_spec (fst me) 0); [unfold FloatOrder.lex_le; lia|].
  destruct (snd me <=? emax - prec); unfold FloatOrder.lex_le; lia.
Qed.

Lemma lex_le_opp (k k' : Z * Z * Z) :
  FloatOrder.lex_le k k' -> FloatOrder.lex_le (opp_key k') (opp_key k).
Proof.
  destruct k as [[a b] c], k' as [[a' b'] c']. unfold FloatOrder.lex_le, opp_key. lia.
Qed.

Lemma lex_le_trans (k1 k2 k3 : Z * Z * Z) :
  FloatOrder.lex_le k1 k2 -> FloatOrder.lex_le k2 k3 -> FloatOrder.lex_le k1 k3.
Proof.
  destruct k1 as [[a1 b1] c1], k2 as [[a2 b2] c2], k3 as [[a3 b3] c3].
  unfold FloatOrder.lex_le. lia.
Qed.

(** *** The rounding of a signed integer at a base exponent *)

Definition round_signed (V e0 : Z) : spec_float :=
  match V with
  | Z0 => S754_zero false
  | Zpos _ => result_of false (round_pos (4 * V) e0)
  | Zneg _ => result_of true (round_pos (4 * - V) e0)
  end.

Definition key_signed (V e0 : Z) : Z * Z * Z :=
  match V with
  | Z0 => (0, 0, 0)
  | Zpos _ => rkey (round_pos (4 * V) e0)
  | Zneg _ => opp_key (rkey (round_pos (4 * - V) e0))
  end.

Lemma round_pos_nonneg (p e0 : Z) : 0 <= p -> e0 <= emin -> 0 <= fst (round_pos p e0).
Proof.
  intros Hp He. pose proof (round_pos_canonical p e0 Hp (enough_base p e0 He)) as Hc.
  unfold canonical in Hc. lia.
Qed.

Lemma key_round_signed (V e0 : Z) :
  e0 <= emin -> FloatOrder.key (round_signed V e0) = Some (key_signed V e0).
Proof.
  intros He. destruct V as [|q|q]; cbn [round_signed key_signed]; [reflexivity| |].
  - rewrite key_result_of by (apply round_pos_nonneg; lia). reflexivity.
  - rewrite key_result_of by (apply round_pos_nonneg; lia). reflexivity.
Qed.

Lemma key_signed_mono (V V' e0 : Z) :
  e0 <= emin -> V <= V' -> FloatOrder.lex_le (key_signed V e0) (key_signed V' e0).
Proof.
  intros He HV.
  assert (Hpos : forall q, FloatOrder.lex_le (0, 0, 0) (rkey (round_pos (4 * Z.pos q) e0))
                           /\ FloatOrder.lex_le
                                (opp_key (rkey (round_pos (4 * Z.pos q) e0))) (0, 0, 0)).
  { intros q. apply rkey_class. apply round_pos_nonneg; lia. }
  assert (Hmono : forall q q', Z.pos q <= Z.pos q' ->
             FloatOrder.lex_le (rkey (round_pos (4 * Z.pos q) e0))
                               (rkey (round_pos (4 * Z.pos q') e0))).
  { intros q q' Hq.
    apply rkey_mono; try (apply round_pos_canonical; [lia|apply enough_base; exact He]).
    apply round_pos_mono; [lia|apply enough_base; exact He..]. }
  destruct V as [|q|q], V' as [|q'|q']; cbn [key_signed]; try lia.
  - unfold FloatOrder.lex_le. lia.
  - apply Hpos.
  - apply Hmono. lia.
  - change (- Z.neg q) with (Z.pos q). apply Hpos.
  - change (- Z.neg q) with (Z.pos q).
    eapply lex_le_trans; [apply Hpos|apply Hpos].
  - change (- Z.neg q) with (Z.pos q). change (- Z.neg q') with (Z.pos q').
    apply lex_le_opp. apply Hmono. lia.
Qed.

(** *** The library operations through the signed rounding *)

Lemma iter_xO (m d : positive) : Z.pos (Pos.iter xO m d) = Z.pos m * 2 ^ Z.pos d.
Proof.
  induction d as [|d IH] using Pos.peano_ind.
  - cbn [Pos.iter]. change (2 ^ 1) with 2. lia.
  - rewrite Pos.iter_succ, Pos2Z.inj_succ, Z.pow_succ_r by lia.
    rewrite (Pos2Z.inj_xO (Pos.iter xO m d)), IH. lia.
Qed.

Lemma shl_align_spec (mx : positive) (ex ex' : Z) :
  snd (shl_align mx ex ex') = Z.min ex ex'
  /\ Z.pos (fst (shl_align mx ex ex')) = Z.pos mx * 2 ^ (ex - Z.min ex ex').
Proof.
  unfold shl_align. destruct (ex' - ex) as [|d|d] eqn:E; cbn [fst snd].
  - split; [lia|]. replace (ex - Z.min ex ex') with 0 by lia. change (2 ^ 0) with 1. lia.
  - split; [lia|]. replace (ex - Z.min ex ex') with 0 by lia. change (2 ^ 0) with 1. lia.
  - split; [lia|]. rewrite iter_xO. f_equal. f_equal. lia.
Qed.

Lemma pow2_split (a b : Z) : 0 <= a -> 0 <= b -> 2 ^ (a + b) = 2 ^ a * 2 ^ b.
Proof. intros. apply Z.pow_add_r; lia. Qed.

Lemma binary_round_signed (s : bool) (mx : positive) (ex e0 : Z) :
  e0 <= ex -> e0 <= emin ->
  binary_round prec emax s mx ex
  = result_of s (round_pos (4 * (Z.pos mx * 2 ^ (ex - e0))) e0).
Proof.
  intros He H0. unfold binary_round.
  destruct (shl_align_spec mx ex (fexp (Z.pos (digits2_pos mx) + ex))) as [Ez Em].
  destruct (shl_align mx ex (fexp (Z.pos (digits2_pos mx) + ex))) as [mz ez].
  cbn [fst snd] in Ez, Em.
  rewrite binary_round_aux_pos by lia. cbn [code]. rewrite Z.add_0_r.
  assert (Hez : e0 <= ez) by (pose proof (fexp_ge_emin (Z.pos (digits2_pos mx) + ex)); lia).
  assert (Hen : enough (4 * Z.pos mz) ez).
  { unfold enough, kshift. rewrite four_div, Em.
    rewrite Zdigits2_mul_pow by lia. cbn [Zdigits2].
    replace (Z.pos (digits2_pos mx) + (ex - Z.min ex (fexp (Z.pos (digits2_pos mx) + ex))) + ez)
      with (Z.pos (digits2_pos mx) + ex) by lia.
    lia. }
  rewrite <- (round_pos_exact_shift (Z.pos mz) ez e0) by (lia || exact Hen).
  rewrite Em. rewrite <- Z.mul_assoc, <- pow2_split by lia.
  replace (ex - Z.min ex (fexp (Z.pos (digits2_pos mx) + ex)) + (ez - e0))
    with (ex - e0) by lia.
  reflexivity.
Qed.

Lemma key_binary_normalize (V e e0 : Z) (sz : bool) :
  e0 <= e -> e0 <= emin ->
  FloatOrder.key (binary_normalize prec emax V e sz)
  = Some (key_signed (V * 2 ^ (e - e0)) e0).
Proof.
  intros He H0.
  assert (HR : 0 < 2 ^ (e - e0)) by (apply pow2_pos; lia).
  destruct V as [|q|q]; cbn [binary_normalize].
  - reflexivity.
  - rewrite (binary_round_signed false q e e0 He H0).
    rewrite key_result_of by (apply round_pos_nonneg; [nia|exact H0]).
    destruct (Z.pos q * 2 ^ (e - e0)) as [|w|w] eqn:E; try nia. reflexivity.
  - rewrite (binary_round_signed true q e e0 He H0).
    rewrite key_result_of by (apply round_pos_nonneg; [nia|exact H0]).
    destruct (Z.neg q * 2 ^ (e - e0)) as [|w|w] eqn:E; try nia.
    cbn [key_signed signed_key]. do 4 f_equal. lia.
Qed.

(** The value of a finite float as a multiple of [2 ^ e0]. *)
Definition sval (e0 : Z) (x : spec_float) : Z :=
  match x with
  | S754_finite s m e => cond_Zopp s (Z.pos m * 2 ^ (e - e0))
  | _ => 0
  end.

Definition is_finite (x : spec_float) : bool :=
  match x with
  | S754_zero _ | S754_finite _ _ _ => true
  | _ => false
  end.

(** [e0] is at most the exponent of the float. *)
Definition above (e0 : Z) (x : spec_float) : Prop :=
  match x with
  | S754_finite _ _ e => e0 <= e
  | _ => True
  end.

Lemma valid_finite (s : bool) (m : positive) (e : Z) :
  SpecFloat.valid_binary prec emax (S754_finite s m e) = true ->
  fexp (Z.pos (digits2_pos m) + e) = e /\ e <= emax - prec.
Proof.
  cbn [SpecFloat.valid_binary]. unfold bounded, canonical_mantissa.
  rewrite andb_true_iff, Z.eqb_eq, Z.leb_le. tauto.
Qed.

(** A float of the format is the rounding of its own value. *)
Lemma key_valid_finite (s : bool) (m : positive) (e e0 : Z) :
  SpecFloat.valid_binary prec emax (S754_finite s m e) = true ->
  e0 <= e -> e0 <= emin ->
  FloatOrder.key (S754_finite s m e)
  = Some (key_signed (sval e0 (S754_finite s m e)) e0).
Proof.
  intros Hv He H0. destruct (valid_finite s m e Hv) as [Hc Hb].
  assert (HR : 0 < 2 ^ (e - e0)) by (apply pow2_pos; lia).
  assert (Hen : enough (4 * Z.pos m) e).
  { unfold enough, kshift. rewrite four_div. cbn [Zdigits2]. lia. }
  assert (Hk : kshift (4 * Z.pos m) e = 0).
  { unfold kshift. rewrite four_div. cbn [Zdigits2]. lia. }
  assert (Hr : round_pos (4 * (Z.pos m * 2 ^ (e - e0))) e0 = (Z.pos m, e)).
  { rewrite (round_pos_exact_shift (Z.pos m) e e0) by (lia || exact Hen).
    destruct (round_pos_closed (4 * Z.pos m) e ltac:(lia) Hen) as (Hm2 & _ & _ & ->).
    rewrite Hk, shk_0, rnd_exact, Z.add_0_r.
    assert (Z.pos m < 2 ^ prec).
    { destruct (digits2_pos_bounds m) as [_ Hlt].
      assert (2 ^ Z.pos (digits2_pos m) <= 2 ^ prec).
      { apply Z.pow_le_mono_r; [lia|]. unfold SpecFloat.fexp in Hc. lia. }
      lia. }
    destruct (Z.ltb_spec (Z.pos m) (2 ^ prec)); [reflexivity|lia]. }
  assert (Hkey : rkey (Z.pos m, e) = (1, e, Z.pos m)).
  { unfold rkey. cbn [fst snd]. change (Z.pos m =? 0) with false. cbv iota.
    destruct (Z.leb_spec e (emax - prec)); [reflexivity|lia]. }
  cbn [sval]. destruct s; cbn [cond_Zopp FloatOrder.key].
  - destruct (- (Z.pos m * 2 ^ (e - e0))) as [|w|w] eqn:E; try nia.
    cbn [key_signed]. replace (- Z.neg w) with (Z.pos m * 2 ^ (e - e0)) by lia.
    rewrite Hr, Hkey. reflexivity.
  - destruct (Z.pos m * 2 ^ (e - e0)) as [|w|w] eqn:E; try nia.
    cbn [key_signed]. rewrite Hr, Hkey. reflexivity.
Qed.

Lemma key_valid (x : spec_float) (e0 : Z) :
  SpecFloat.valid_binary prec emax x = true -> is_finite x = true ->
  above e0 x -> e0 <= emin ->
  FloatOrder.key x = Some (key_signed (sval e0 x) e0).
Proof.
  destruct x as [s|s| |s m e]; try discriminate; intros Hv _ Ha H0.
  - reflexivity.
  - apply key_valid_finite; assumption.
Qed.

Lemma cond_Zopp_mul (s : bool) (a b : Z) : cond_Zopp s a * b = cond_Zopp s (a * b).
Proof. destruct s; cbn [cond_Zopp]; lia. Qed.

Lemma key_SFadd (x y : spec_float) (e0 : Z) :
  SpecFloat.valid_binary prec emax x = true ->
  SpecFloat.valid_binary prec emax y = true ->
  is_finite x = true -> is_finite y = true ->
  above e0 x -> above e0 y -> e0 <= emin ->
  FloatOrder.key (SFadd prec emax x y) = Some (key_signed (sval e0 x + sval e0 y) e0).
Proof.
  intros Vx Vy Fx Fy Ax Ay H0.
  destruct x as [sx|sx| |sx mx ex]; try discriminate;
    destruct y as [sy|sy| |sy my ey]; try discriminate.
  - destruct sx, sy; reflexivity.
  - cbn [SFadd]. rewrite (key_valid_finite sy my ey e0 Vy Ay H0). reflexivity.
  - cbn [SFadd]. rewrite (key_valid_finite sx mx ex e0 Vx Ax H0).
    cbn [sval]. rewrite Z.add_0_r. reflexivity.
  - cbn [above] in Ax, Ay. cbn [SFadd].
    rewrite (key_binary_normalize _ (Z.min ex ey) e0) by lia.
    f_equal. f_equal.
    destruct (shl_align_spec mx ex (Z.min ex ey)) as [_ ->].
    destruct (shl_align_spec my ey (Z.min ex ey)) as [_ ->].
    replace (Z.min ex (Z.min ex ey)) with (Z.min ex ey) by lia.
    replace (Z.min ey (Z.min ex ey)) with (Z.min ex ey) by lia.
    rewrite Z.mul_add_distr_r, !cond_Zopp_mul. cbn [sval].
    rewrite <- !Z.mul_assoc, <- !pow2_split by lia.
    replace (ex - Z.min ex ey + (Z.min ex ey - e0)) with (ex - e0) by lia.
    replace (ey - Z.min ex ey + (Z.min ex ey - e0)) with (ey - e0) by lia.
    reflexivity.
Qed.

Lemma Zdigits2_mul_lower (a b : Z) :
  0 < a -> 0 < b -> Zdigits2 a + Zdigits2 b - 1 <= Zdigits2 (a * b).
Proof.
  intros Ha Hb.
  destruct (Zdigits2_bounds a Ha) as [Hda [Hla _]].
  destruct (Zdigits2_bounds b Hb) as [Hdb [Hlb _]].
  destruct (Zdigits2_bounds (a * b) ltac:(nia)) as [Hdab [_ Huab]].
  destruct (Z_le_gt_dec (Zdigits2 a + Zdigits2 b - 1) (Zdigits2 (a * b))) as [H|H];
    [exact H|exfalso].
  assert (HA : 0 < 2 ^ (Zdigits2 a - 1)) by (apply pow2_pos; lia).
  assert (HB : 0 < 2 ^ (Zdigits2 b - 1)) by (apply pow2_pos; lia).
  assert (Hle : 2 ^ Zdigits2 (a * b) <= 2 ^ (Zdigits2 a - 1 + (Zdigits2 b - 1)))
    by (apply Z.pow_le_mono_r; lia).
  rewrite pow2_split in Hle by lia. nia.
Qed.

(** The product with a positive float of the format. *)
Lemma key_SFmul (x : spec_float) (mc : positive) (ec e0 : Z) :
  SpecFloat.valid_binary prec emax x = true ->
  SpecFloat.valid_binary prec emax (S754_finite false mc ec) = true ->
  is_finite x = true -> above (e0 - ec) x -> e0 <= emin ->
  FloatOrder.key (SFmul prec emax x (S754_finite false mc ec))
  = Some (key_signed (sval (e0 - ec) x * Z.pos mc) e0).
Proof.
  intros Vx Vc Fx Ax H0.
  destruct x as [sx|sx| |sx mx ex]; try discriminate.
  - destruct sx; reflexivity.
  - cbn [above] in Ax. cbn [SFmul].
    destruct (valid_finite _ _ _ Vx) as [Cx _].
    destruct (valid_finite _ _ _ Vc) as [Cc _].
    rewrite binary_round_aux_pos by lia. cbn [code]. rewrite Z.add_0_r.
    rewrite Pos2Z.inj_mul.
    assert (Hen : enough (4 * (Z.pos mx * Z.pos mc)) (ex + ec)).
    { unfold enough, kshift. rewrite four_div.
      pose proof (Zdigits2_mul_lower (Z.pos mx) (Z.pos mc) ltac:(lia) ltac:(lia)) as Hd.
      cbn [Zdigits2] in Hd.
      pose proof emin_nonpos.
      unfold SpecFloat.fexp in *. lia. }
    assert (HR : 0 < 2 ^ (ex - (e0 - ec))) by (apply pow2_pos; lia).
    rewrite <- (round_pos_exact_shift (Z.pos mx * Z.pos mc) (ex + ec) e0)
      by (lia || exact Hen).
    rewrite key_result_of by (apply round_pos_nonneg; [|exact H0];
      assert (0 < 2 ^ (ex + ec - e0)) by (apply pow2_pos; lia); nia).
    replace (ex + ec - e0) with (ex - (e0 - ec)) by lia.
    cbn [sval]. rewrite cond_Zopp_mul.
    replace (Z.pos mx * Z.pos mc * 2 ^ (ex - (e0 - ec)))
      with (Z.pos mx * 2 ^ (ex - (e0 - ec)) * Z.pos mc) by lia.
    destruct sx; cbn [xorb cond_Zopp signed_key].
    + destruct (- (Z.pos mx * 2 ^ (ex - (e0 - ec)) * Z.pos mc)) as [|w|w] eqn:E; try nia.
      cbn [key_signed]. do 4 f_equal. lia.
    + destruct (Z.pos mx * 2 ^ (ex - (e0 - ec)) * Z.pos mc) as [|w|w] eqn:E; try nia.
      reflexivity.
Qed.

(** The order of the floats of the format is the order of their values. *)
Lemma value_le (m m' : positive) (e e' e0 : Z) (s s' : bool) :
  SpecFloat.valid_binary prec emax (S754_finite s m e) = true ->
  SpecFloat.valid_binary prec emax (S754_finite s' m' e') = true ->
  e0 <= e -> e0 <= e' ->
  e < e' \/ (e = e' /\ Z.pos m <= Z.pos m') ->
  Z.pos m * 2 ^ (e - e0) <= Z.pos m' * 2 ^ (e' - e0).
Proof.
  intros V V' He He' Hlex.
  destruct (valid_finite _ _ _ V) as [C _]. destruct (valid_finite _ _ _ V') as [C' _].
  destruct Hlex as [Hlt|[-> Hm]].
  - destruct (digits2_pos_bounds m) as [_ Hup].
    destruct (digits2_pos_bounds m') as [Hlo' _].
    assert (Hd : Z.pos (digits2_pos m) <= prec) by (unfold SpecFloat.fexp in C; lia).
    assert (Hd' : Z.pos (digits2_pos m') = prec) by (unfold SpecFloat.fexp in C, C'; lia).
    rewrite Hd' in Hlo'.
    assert (H1 : 2 ^ Z.pos (digits2_pos m) <= 2 ^ prec) by (apply Z.pow_le_mono_r; lia).
    assert (HR : 0 < 2 ^ (e - e0)) by (apply pow2_pos; lia).
    assert (HP : 0 < 2 ^ (prec - 1)) by (apply pow2_pos; lia).
    replace (e' - e0) with ((e - e0) + (e' - e)) by lia.
    rewrite pow2_split by lia.
    assert (H2 : 2 <= 2 ^ (e' - e)).
    { change 2 with (2 ^ 1) at 1. apply Z.pow_le_mono_r; lia. }
    pose proof pow2_prec.
    assert (H3 : Z.pos m <= Z.pos m' * 2 ^ (e' - e)) by nia.
    rewrite Z.mul_assoc, (Z.mul_comm (Z.pos m')), <- Z.mul_assoc.
    rewrite (Z.mul_comm (Z.pos m)).
    apply Z.mul_le_mono_nonneg_l; lia.
  - assert (HR : 0 < 2 ^ (e' - e0)) by (apply pow2_pos; lia). nia.
Qed.

Lemma sval_le (x y : spec_float) (e0 : Z) (kx ky : Z * Z * Z) :
  SpecFloat.valid_binary prec emax x = true ->
  SpecFloat.valid_binary prec emax y = true ->
  is_finite x = true -> is_finite y = true ->
  above e0 x -> above e0 y ->
  FloatOrder.key x = Some kx -> FloatOrder.key y = Some ky ->
  FloatOrder.lex_le kx ky ->
  sval e0 x <= sval e0 y.
Proof.
  intros Vx Vy Fx Fy Ax Ay Kx Ky Hle.
  destruct x as [sx|sx| |sx mx ex]; try discriminate;
    destruct y as [sy|sy| |sy my ey]; try discriminate;
    cbn [FloatOrder.key sval above] in *.
  - assert (HR : 0 < 2 ^ (ey - e0)) by (apply pow2_pos; lia).
    destruct sy; injection Kx as <-; injection Ky as <-;
      unfold FloatOrder.lex_le in Hle; cbn [cond_Zopp]; nia.
  - assert (HR : 0 < 2 ^ (ex - e0)) by (apply pow2_pos; lia).
    destruct sx; injection Kx as <-; injection Ky as <-;
      unfold FloatOrder.lex_le in Hle; cbn [cond_Zopp]; nia.
  - assert (HRx : 0 < 2 ^ (ex - e0)) by (apply pow2_pos; lia).
    assert (HRy : 0 < 2 ^ (ey - e0)) by (apply pow2_pos; lia).
    destruct sx, sy; injection Kx as <-; injection Ky as <-;
      unfold FloatOrder.lex_le in Hle; cbn [cond_Zopp].
    + pose proof (value_le my mx ey ex e0 true true Vy Vx Ay Ax ltac:(lia)). lia.
    + nia.
    + lia.
    + pose proof (value_le mx my ex ey e0 false false Vx Vy Ax Ay ltac:(lia)). lia.
Qed.

Lemma SFleb_key (x y : spec_float) :
  SFleb x y = true
  <-> exists k1 k2, FloatOrder.key x = Some k1 /\ FloatOrder.key y = Some k2
                    /\ FloatOrder.lex_le k1 k2.
Proof.
  unfold SFleb. rewrite FloatOrder.SFcompare_key.
  destruct (FloatOrder.key x) as [k1|], (FloatOrder.key y) as [k2|];
    try (split; [discriminate|intros (? & ? & ? & ? & ?); discriminate]).
  pose proof (FloatOrder.lex_spec k1 k2) as H.
  destruct k1 as [[a1 b1] c1], k2 as [[a2 b2] c2].
  split.
  - intros Hc. exists (a1, b1, c1), (a2, b2, c2). split; [reflexivity|].
    split; [reflexivity|]. unfold FloatOrder.lex_le.
    destruct (FloatOrder.lex (a1, b1, c1) (a2, b2, c2)); try discriminate.
    + injection H as -> -> ->. lia.
    + unfold FloatOrder.lex_lt in H. lia.
  - intros (k1 & k2 & [= <-] & [= <-] & Hle). unfold FloatOrder.lex_le in Hle.
    destruct (FloatOrder.lex (a1, b1, c1) (a2, b2, c2)); try reflexivity.
    unfold FloatOrder.lex_lt in H. lia.
Qed.

Definition key_min : Z * Z * Z := (-2, 0, 0).
Definition key_max : Z * Z * Z := (2, 0, 0).

(** A key function in the range of the keys of the floats. *)
Definition in_range (K : Z -> Z * Z * Z) : Prop :=
  forall v, FloatOrder.lex_le key_min (K v) /\ FloatOrder.lex_le (K v) key_max.

Lemma rkey_range (me : Z * Z) :
  0 <= fst me ->
  FloatOrder.lex_le key_min (rkey me) /\ FloatOrder.lex_le (rkey me) key_max
  /\ FloatOrder.lex_le key_min (opp_key (rkey me))
  /\ FloatOrder.lex_le (opp_key (rkey me)) key_max.
Proof.
  intros Hm. unfold rkey, opp_key, key_min, key_max.
  destruct (Z.eqb_spec (fst me) 0); [unfold FloatOrder.lex_le; lia|].
  destruct (snd me <=? emax - prec); unfold FloatOrder.lex_le; lia.
Qed.

Lemma key_signed_range (e0 : Z) (g : Z -> Z) :
  e0 <= emin -> in_range (fun v => key_signed (g v) e0).
Proof.
  intros H0 v. destruct (g v) as [|q|q]; cbn [key_signed].
  - unfold key_min, key_max, FloatOrder.lex_le. lia.
  - destruct (rkey_range (round_pos (4 * Z.pos q) e0)) as (H1 & H2 & _);
      [apply round_pos_nonneg; lia|]. split; assumption.
  - destruct (rkey_range (round_pos (4 * - Z.neg q) e0)) as (_ & _ & H3 & H4);
      [apply round_pos_nonneg; lia|]. split; assumption.
Qed.

Lemma key_finite_class (x : spec_float) (k : Z * Z * Z) :
  is_finite x = true -> FloatOrder.key x = Some k ->
  ~ FloatOrder.lex_le k key_min /\ ~ FloatOrder.lex_le key_max k.
Proof.
  destruct x as [s|s| |s m e]; try discriminate; intros _; cbn [FloatOrder.key].
  - intros [= <-]. unfold key_min, key_max, FloatOrder.lex_le. lia.
  - destruct s; intros [= <-]; unfold key_min, key_max, FloatOrder.lex_le; lia.
Qed.

(** An operation that sends the infinities to themselves and acts on the
    finite floats as a monotone function of their values is monotone. *)
Lemma mono_generic (f : spec_float -> spec_float) (K : Z -> Z * Z * Z) (e1 : Z)
  (x1 x2 : spec_float) :
  (forall s, f (S754_infinity s) = S754_infinity s) ->
  (forall v v', v <= v' -> FloatOrder.lex_le (K v) (K v')) ->
  in_range K ->
  (is_finite x1 = true -> FloatOrder.key (f x1) = Some (K (sval e1 x1))) ->
  (is_finite x2 = true -> FloatOrder.key (f x2) = Some (K (sval e1 x2))) ->
  SpecFloat.valid_binary prec emax x1 = true ->
  SpecFloat.valid_binary prec emax x2 = true ->
  above e1 x1 -> above e1 x2 ->
  SFleb x1 x2 = true -> SFleb (f x1) (f x2) = true.
Proof.
  intros Hinf Hmono Hrange K1 K2 V1 V2 A1 A2 Hle.
  apply SFleb_key in Hle. destruct Hle as (k1 & k2 & E1 & E2 & Hle).
  apply SFleb_key.
  destruct (is_finite x1) eqn:F1, (is_finite x2) eqn:F2.
  - exists (K (sval e1 x1)), (K (sval e1 x2)).
    split; [apply K1; reflexivity|]. split; [apply K2; reflexivity|].
    apply Hmono. eapply sval_le; eassumption.
  - destruct x2 as [s|s| |s m e]; try discriminate.
    rewrite Hinf. destruct s; cbn [FloatOrder.key] in E2; injection E2 as <-.
    + exfalso. exact (proj1 (key_finite_class x1 k1 F1 E1) Hle).
    + exists (K (sval e1 x1)), key_max. split; [apply K1; reflexivity|].
      split; [reflexivity|]. apply Hrange.
  - destruct x1 as [s|s| |s m e]; try discriminate.
    rewrite Hinf. destruct s; cbn [FloatOrder.key] in E1; injection E1 as <-.
    + exists key_min, (K (sval e1 x2)). split; [reflexivity|].
      split; [apply K2; reflexivity|]. apply Hrange.
    + exfalso. exact (proj2 (key_finite_class x2 k2 F2 E2) Hle).
  - destruct x1 as [s1|s1| |s1 m1 e1']; try discriminate;
      destruct x2 as [s2|s2| |s2 m2 e2']; try discriminate.
    rewrite !Hinf. cbn [FloatOrder.key] in *.
    destruct s1, s2; injection E1 as <-; injection E2 as <-;
      unfold FloatOrder.lex_le in Hle; try lia;
      eexists; eexists; (split; [reflexivity|]); (split; [reflexivity|]);
      unfold FloatOrder.lex_le; lia.
Qed.

(** The exponent of a finite float, for the choice of a base exponent. *)
Definition expo (x : spec_float) : Z :=
  match x with
  | S754_finite _ _ e => e
  | _ => 0
  end.

Lemma above_expo (e0 : Z) (x : spec_float) : e0 <= expo x -> above e0 x.
Proof. destruct x; cbn [expo above]; auto. Qed.

Lemma SFmul_mono (x1 x2 : spec_float) (mc : positive) (ec : Z) :
  SpecFloat.valid_binary prec emax x1 = true ->
  SpecFloat.valid_binary prec emax x2 = true ->
  SpecFloat.valid_binary prec emax (S754_finite false mc ec) = true ->
  SFleb x1 x2 = true ->
  SFleb (SFmul prec emax x1 (S754_finite false mc ec))
        (SFmul prec emax x2 (S754_finite false mc ec)) = true.
Proof.
  intros V1 V2 Vc Hle.
  set (e0 := Z.min emin (Z.min (expo x1) (expo x2) + ec)).
  apply (mono_generic (fun x => SFmul prec emax x (S754_finite false mc ec))
           (fun v => key_signed (v * Z.pos mc) e0) (e0 - ec));
    try assumption.
  - intros s. destruct s; reflexivity.
  - intros v v' Hv. apply key_signed_mono; [lia|nia].
  - apply (key_signed_range e0 (fun v => v * Z.pos mc)). lia.
  - intros F1. apply key_SFmul; try assumption; [apply above_expo|]; lia.
  - intros F2. apply key_SFmul; try assumption; [apply above_expo|]; lia.
  - apply above_expo. lia.
  - apply above_expo. lia.
Qed.

Lemma SFadd_mono_r (a x1 x2 : spec_float) :
  SpecFloat.valid_binary prec emax a = true -> is_finite a = true ->
  SpecFloat.valid_binary prec emax x1 = true ->
  SpecFloat.valid_binary prec emax x2 = true ->
  SFleb x1 x2 = true ->
  SFleb (SFadd prec emax a x1) (SFadd prec emax a x2) = true.
Proof.
  intros Va Fa V1 V2 Hle.
  set (e0 := Z.min emin (Z.min (expo a) (Z.min (expo x1) (expo x2)))).
  apply (mono_generic (fun x => SFadd prec emax a x)
           (fun v => key_signed (sval e0 a + v) e0) e0);
    try assumption.
  - intros s. destruct a as [sa|sa| |sa ma ea]; try discriminate; reflexivity.
  - intros v v' Hv. apply key_signed_mono; lia.
  - apply (key_signed_range e0 (fun v => sval e0 a + v)). lia.
  - intros F1. apply key_SFadd; try assumption; try (apply above_expo); lia.
  - intros F2. apply key_SFadd; try assumption; try (apply above_expo); lia.
  - apply above_expo. lia.
  - apply above_expo. lia.
Qed.

Lemma SFadd_mono_l (b x1 x2 : spec_float) :
  SpecFloat.valid_binary prec emax b = true -> is_finite b = true ->
  SpecFloat.valid_binary prec emax x1 = true ->
  SpecFloat.valid_binary prec emax x2 = true ->
  SFleb x1 x2 = true ->
  SFleb (SFadd prec emax x1 b) (SFadd prec emax x2 b) = true.
Proof.
  intros Vb Fb V1 V2 Hle.
  set (e0 := Z.min emin (Z.min (expo b) (Z.min (expo x1) (expo x2)))).
  apply (mono_generic (fun x => SFadd prec emax x b)
           (fun v => key_signed (v + sval e0 b) e0) e0);
    try assumption.
  - intros s. destruct b as [sb|sb| |sb mb eb]; try discriminate; reflexivity.
  - intros v v' Hv. apply key_signed_mono; lia.
  - apply (key_signed_range e0 (fun v => v + sval e0 b)). lia.
  - intros F1. apply key_SFadd; try assumption; try (apply above_expo); lia.
  - intros F2. apply key_SFadd; try assumption; try (apply above_expo); lia.
  - apply above_expo. lia.
  - apply above_expo. lia.
Qed.

(** *** The division of two integers *)

(** The place of the quotient [n / D] at the exponent [- S]. *)
Definition divpos (n D S : Z) : Z :=
  2 * (n * 2 ^ (S + 1) / D) + (if n * 2 ^ (S + 1) mod D =? 0 then 0 else 1).

Lemma double_divmod (D q r : Z) :
  0 < D -> 0 <= r < D ->
  let b := if D <=? 2 * r then 1 else 0 in
  2 * (D * q + r) / D = 2 * q + b /\ 2 * (D * q + r) mod D = 2 * r - b * D.
Proof.
  intros HD Hr b.
  assert (Hb : 0 <= 2 * r - b * D < D).
  { unfold b. destruct (Z.leb_spec D (2 * r)); lia. }
  split.
  - symmetry. apply (Z.div_unique _ _ _ (2 * r - b * D)); [left; exact Hb|lia].
  - symmetry. apply (Z.mod_unique _ _ (2 * q + b)); [left; exact Hb|lia].
Qed.

Lemma code_new_location (D q r : Z) :
  0 < D -> 0 <= r < D ->
  4 * q + code (new_location D r)
  = 2 * (2 * (D * q + r) / D) + (if 2 * (D * q + r) mod D =? 0 then 0 else 1).
Proof.
  intros HD Hr. destruct (double_divmod D q r HD Hr) as [-> ->].
  unfold new_location.
  destruct (Z.even D) eqn:Ev; unfold new_location_even, new_location_odd.
  - destruct (Z.eqb_spec r 0) as [E0|Hne].
    + cbn [code]. destruct (Z.leb_spec D (2 * r)); try lia.
      destruct (Z.eqb_spec (2 * r - 0 * D) 0); lia.
    + destruct (Z.compare_spec (2 * r) D) as [E|L|G]; cbn [code];
        destruct (Z.leb_spec D (2 * r)); try lia;
        match goal with |- context [?a =? 0] => destruct (Z.eqb_spec a 0) end; lia.
  - assert (Hodd : D <> 2 * r).
    { intros E. rewrite E in Ev. rewrite Z.even_mul in Ev. discriminate Ev. }
    destruct (Z.eqb_spec r 0) as [E0|Hne].
    + cbn [code]. destruct (Z.leb_spec D (2 * r)); try lia.
      destruct (Z.eqb_spec (2 * r - 0 * D) 0); lia.
    + destruct (Z.compare_spec (2 * r + 1) D) as [E|L|G]; cbn [code];
        destruct (Z.leb_spec D (2 * r)); try lia;
        match goal with |- context [?a =? 0] => destruct (Z.eqb_spec a 0) end; lia.
Qed.

Lemma divpos_div4 (n D S : Z) :
  0 <= n -> 0 < D -> 0 <= S -> divpos n D S / 4 = n * 2 ^ S / D.
Proof.
  intros Hn HD HS. unfold divpos.
  replace (n * 2 ^ (S + 1)) with (2 * (n * 2 ^ S))
    by (rewrite pow2_split by lia; change (2 ^ 1) with 2; lia).
  pose proof (Z.div_mod (n * 2 ^ S) D ltac:(lia)) as E.
  pose proof (Z.mod_pos_bound (n * 2 ^ S) D HD) as Hr.
  rewrite E at 1 2.
  destruct (double_divmod D (n * 2 ^ S / D) (n * 2 ^ S mod D) HD Hr) as [-> ->].
  destruct (D <=? 2 * (n * 2 ^ S mod D));
    match goal with |- context [?a =? 0] => destruct (a =? 0) end; zdiv.
Qed.

Lemma divpos_nonneg (n D S : Z) : 0 <= n -> 0 < D -> 0 <= S -> 0 <= divpos n D S.
Proof.
  intros Hn HD HS. unfold divpos.
  assert (0 < 2 ^ (S + 1)) by (apply pow2_pos; lia).
  assert (0 <= n * 2 ^ (S + 1) / D) by (apply Z.div_pos; nia).
  destruct (n * 2 ^ (S + 1) mod D =? 0); lia.
Qed.

Lemma divpos_mono (n n' D S : Z) :
  n <= n' -> 0 < D -> 0 <= S -> divpos n D S <= divpos n' D S.
Proof.
  intros Hn HD HS. unfold divpos.
  assert (HR : 0 < 2 ^ (S + 1)) by (apply pow2_pos; lia).
  assert (HT : n * 2 ^ (S + 1) <= n' * 2 ^ (S + 1)) by nia.
  set (T := n * 2 ^ (S + 1)) in *. set (T' := n' * 2 ^ (S + 1)) in *.
  pose proof (Z.div_mod T D ltac:(lia)). pose proof (Z.mod_pos_bound T D HD).
  pose proof (Z.div_mod T' D ltac:(lia)). pose proof (Z.mod_pos_bound T' D HD).
  destruct (Z.eqb_spec (T mod D) 0), (Z.eqb_spec (T' mod D) 0); nia.
Qed.

Lemma divpos_shift (n D s j : Z) :
  0 < D -> 0 <= s -> 0 <= j -> shk j (divpos n D (s + j)) = divpos n D s.
Proof.
  intros HD Hs Hj. unfold shk, divpos.
  set (U := n * 2 ^ (s + 1)).
  assert (HR : 0 < 2 ^ j) by (apply pow2_pos; lia).
  replace (n * 2 ^ (s + j + 1)) with (U * 2 ^ j)
    by (unfold U; replace (s + j + 1) with (s + 1 + j) by lia;
        rewrite (pow2_split (s + 1) j) by lia; lia).
  replace (2 ^ (j + 1)) with (2 * 2 ^ j)
    by (rewrite pow2_split by lia; change (2 ^ 1) with 2; lia).
  pose proof (Z.div_mod U D ltac:(lia)) as EU.
  pose proof (Z.mod_pos_bound U D HD) as HU.
  set (a := U / D) in *. set (r := U mod D) in *.
  pose proof (Z.div_mod (r * 2 ^ j) D ltac:(lia)) as Er.
  pose proof (Z.mod_pos_bound (r * 2 ^ j) D HD) as Hr.
  set (c := r * 2 ^ j / D) in *. set (t := r * 2 ^ j mod D) in *.
  assert (Hc : 0 <= c < 2 ^ j).
  { split; [apply Z.div_pos; nia|]. apply Z.div_lt_upper_bound; nia. }
  assert (E1 : U * 2 ^ j / D = a * 2 ^ j + c).
  { symmetry. apply (Z.div_unique _ _ _ t); [left; lia|nia]. }
  assert (E2 : U * 2 ^ j mod D = t).
  { symmetry. apply (Z.mod_unique _ _ (a * 2 ^ j + c)); [left; lia|nia]. }
  rewrite E1, E2.
  set (beta := if t =? 0 then 0 else 1).
  assert (Hbeta : 0 <= beta <= 1 /\ (beta = 0 <-> t = 0)).
  { unfold beta. destruct (Z.eqb_spec t 0); lia. }
  assert (E3 : (2 * (a * 2 ^ j + c) + beta) / (2 * 2 ^ j) = a).
  { symmetry. apply (Z.div_unique _ _ _ (2 * c + beta)); [left; lia|lia]. }
  assert (E4 : (2 * (a * 2 ^ j + c) + beta) mod (2 * 2 ^ j) = 2 * c + beta).
  { symmetry. apply (Z.mod_unique _ _ a); [left; lia|lia]. }
  rewrite E3, E4.
  assert (Hrt : r = 0 <-> (c = 0 /\ t = 0)) by nia.
  destruct (Z.eqb_spec (2 * c + beta) 0), (Z.eqb_spec r 0); lia.
Qed.

Lemma Zdigits2_ge (q x : Z) : 0 <= x -> 2 ^ x <= q -> x + 1 <= Zdigits2 q.
Proof.
  intros Hx Hq. assert (0 < 2 ^ x) by (apply pow2_pos; lia).
  destruct (Zdigits2_bounds q ltac:(lia)) as [Hd [_ Hup]].
  destruct (Z_le_gt_dec (x + 1) (Zdigits2 q)) as [H1|H1]; [exact H1|].
  assert (2 ^ Zdigits2 q <= 2 ^ x) by (apply Z.pow_le_mono_r; lia). lia.
Qed.

Lemma quotient_digits_lower (n D S : Z) :
  0 < n -> 0 < D -> 0 <= S -> 1 <= Zdigits2 n + S - Zdigits2 D ->
  Zdigits2 n + S - Zdigits2 D <= Zdigits2 (n * 2 ^ S / D).
Proof.
  intros Hn HD HS Hx.
  destruct (Zdigits2_bounds n Hn) as [Hd1 [Hlo _]].
  destruct (Zdigits2_bounds D HD) as [Hd2 [_ Hup]].
  set (x := Zdigits2 n - 1 + S - Zdigits2 D).
  replace (Zdigits2 n + S - Zdigits2 D) with (x + 1) by (unfold x; lia).
  apply Zdigits2_ge; [unfold x; lia|].
  assert (HX : 0 < 2 ^ x) by (apply pow2_pos; unfold x; lia).
  assert (HS' : 0 < 2 ^ S) by (apply pow2_pos; lia).
  apply Z.div_le_lower_bound; [exact HD|].
  assert (E : 2 ^ (Zdigits2 n - 1) * 2 ^ S = 2 ^ Zdigits2 D * 2 ^ x).
  { rewrite <- !pow2_split by (unfold x; lia). f_equal. unfold x. lia. }
  nia.
Qed.

Lemma quotient_digits_shift (n D s j : Z) :
  0 < n -> 0 < D -> 0 <= s -> 0 <= j -> 1 <= n * 2 ^ s / D ->
  Zdigits2 (n * 2 ^ (s + j) / D) = Zdigits2 (n * 2 ^ s / D) + j.
Proof.
  intros Hn HD Hs Hj Hq.
  assert (HR : 0 < 2 ^ j) by (apply pow2_pos; lia).
  rewrite pow2_split by lia.
  set (T := n * 2 ^ s) in *. replace (n * (2 ^ s * 2 ^ j)) with (T * 2 ^ j) by (unfold T; lia).
  pose proof (Z.div_mod T D ltac:(lia)) as ET.
  pose proof (Z.mod_pos_bound T D HD) as HT.
  set (a := T / D) in *. set (r := T mod D) in *.
  destruct (Zdigits2_bounds a ltac:(lia)) as [Hd [Hlo Hup]].
  assert (HA : 0 < 2 ^ (Zdigits2 a - 1)) by (apply pow2_pos; lia).
  assert (Hlow : a * 2 ^ j <= T * 2 ^ j / D) by (apply Z.div_le_lower_bound; nia).
  assert (Hupp : T * 2 ^ j / D < (a + 1) * 2 ^ j) by (apply Z.div_lt_upper_bound; nia).
  apply Zdigits2_unique; [lia|].
  replace (Zdigits2 a + j - 1) with (Zdigits2 a - 1 + j) by lia.
  rewrite !pow2_split by lia. nia.
Qed.

Lemma valid_result_of (sg : bool) (me : Z * Z) :
  canonical me -> SpecFloat.valid_binary prec emax (result_of sg me) = true.
Proof.
  destruct me as [m e]. unfold canonical, result_of. cbn [fst snd].
  intros (Hm & He & Hn). destruct m as [|q|q]; [reflexivity| |reflexivity].
  destruct (Z.leb_spec e (emax - prec)) as [Hb|Hb]; [|reflexivity].
  cbn [SpecFloat.valid_binary]. unfold bounded, canonical_mantissa.
  apply andb_true_iff. split; [|apply Z.leb_le; exact Hb].
  apply Z.eqb_eq.
  assert (HP : 0 < 2 ^ (prec - 1)) by (apply pow2_pos; lia).
  assert (Hd : Z.pos (digits2_pos q) <= prec).
  { change (Z.pos (digits2_pos q)) with (Zdigits2 (Z.pos q)). apply Zdigits2_le; lia. }
  destruct (Z.eq_dec e emin) as [->|Hne]; [unfold SpecFloat.fexp; lia|].
  assert (Hd' : prec <= Z.pos (digits2_pos q)).
  { change (Z.pos (digits2_pos q)) with (Zdigits2 (Z.pos q)).
    replace prec with (prec - 1 + 1) at 1 by lia. apply Zdigits2_ge; lia. }
  unfold SpecFloat.fexp. lia.
Qed.

(** The quotient of two positive integers, rounded: the place of the
    quotient at the exponent [- (prec + digits D)], rounded. *)
Lemma SFdiv_pos (sg : bool) (n D : positive) :
  Zdigits2 (Z.pos D) + prec + emin <= 1 ->
  let S := prec + Zdigits2 (Z.pos D) in
  SFdiv prec emax (S754_finite sg n 0) (S754_finite false D 0)
  = result_of sg (round_pos (divpos (Z.pos n) (Z.pos D) S) (- S))
  /\ enough (divpos (Z.pos n) (Z.pos D) S) (- S).
Proof.
  intros HD S. cbn [SFdiv]. unfold SFdiv_core_binary.
  set (d1 := Zdigits2 (Z.pos n)). set (d2 := Zdigits2 (Z.pos D)).
  assert (Hd1 : 1 <= d1) by (unfold d1; cbn [Zdigits2]; lia).
  assert (Hd2 : 1 <= d2) by (unfold d2; cbn [Zdigits2]; lia).
  rewrite !Z.add_0_r. change (0 - 0) with 0.
  assert (Hf : fexp (d1 - d2) = d1 - d2 - prec).
  { unfold SpecFloat.fexp. fold d2 in HD. lia. }
  rewrite Hf.
  set (e' := Z.min (d1 - d2 - prec) 0).
  set (s := - e').
  assert (Ee : e' = Z.min (d1 - d2 - prec) 0) by reflexivity.
  assert (Es : s = - e') by reflexivity.
  assert (Hs : 0 <= s) by lia.
  replace (0 - e') with s by (unfold s; lia).
  assert (Hm' : match s with
                | 0 => Z.pos n
                | Z.pos _ => Z.shiftl (Z.pos n) s
                | Z.neg _ => 0
                end = Z.pos n * 2 ^ s).
  { destruct s as [|p|p] eqn:Ez; [change (2 ^ 0) with 1; lia| |lia].
    apply Z.shiftl_mul_pow2. lia. }
  rewrite Hm'.
  assert (HR : 0 < 2 ^ s) by (apply pow2_pos; lia).
  destruct (Z.div_eucl (Z.pos n * 2 ^ s) (Z.pos D)) as [q r] eqn:Ediv.
  assert (Eq : q = Z.pos n * 2 ^ s / Z.pos D) by (unfold Z.div; rewrite Ediv; reflexivity).
  assert (Er : r = (Z.pos n * 2 ^ s) mod Z.pos D)
    by (unfold Z.modulo; rewrite Ediv; reflexivity).
  pose proof (Z.div_mod (Z.pos n * 2 ^ s) (Z.pos D) ltac:(lia)) as Edm.
  pose proof (Z.mod_pos_bound (Z.pos n * 2 ^ s) (Z.pos D) ltac:(lia)) as Hr.
  rewrite <- Eq, <- Er in Edm. rewrite <- Er in Hr.
  assert (Hq : 0 <= q) by (rewrite Eq; apply Z.div_pos; nia).
  rewrite binary_round_aux_pos by exact Hq.
  rewrite (code_new_location (Z.pos D) q r ltac:(lia) Hr).
  rewrite <- Edm.
  assert (Epos : 2 * (2 * (Z.pos n * 2 ^ s) / Z.pos D)
                 + (if 2 * (Z.pos n * 2 ^ s) mod Z.pos D =? 0 then 0 else 1)
                 = divpos (Z.pos n) (Z.pos D) s).
  { unfold divpos. rewrite (pow2_split s 1) by lia. change (2 ^ 1) with 2.
    replace (Z.pos n * (2 ^ s * 2)) with (2 * (Z.pos n * 2 ^ s)) by lia. reflexivity. }
  rewrite Epos.
  assert (Hdq : d1 + s - d2 <= Zdigits2 (Z.pos n * 2 ^ s / Z.pos D)).
  { apply quotient_digits_lower; fold d1; fold d2; lia. }
  assert (Hen : enough (divpos (Z.pos n) (Z.pos D) s) e').
  { unfold enough, kshift. rewrite divpos_div4 by lia.
    unfold SpecFloat.fexp. lia. }
  assert (Hq1 : 1 <= Z.pos n * 2 ^ s / Z.pos D).
  { rewrite <- Eq. destruct (Z.eq_dec q 0) as [E0|N0]; [|lia].
    exfalso. rewrite <- Eq, E0 in Hdq. cbn [Zdigits2] in Hdq. lia. }
  assert (HsS : s <= S) by (unfold S; fold d2; lia).
  pose proof (divpos_shift (Z.pos n) (Z.pos D) s (S - s) ltac:(lia) Hs ltac:(lia)) as Hsh.
  replace (s + (S - s)) with S in Hsh by lia.
  destruct (round_pos_shift (divpos (Z.pos n) (Z.pos D) S) (- S) (S - s)) as [Hen' E].
  - apply divpos_nonneg; unfold S; lia.
  - lia.
  - rewrite Hsh. replace (- S + (S - s)) with e' by lia. exact Hen.
  - rewrite Hsh. rewrite !divpos_div4 by (unfold S; lia).
    replace S with (s + (S - s)) at 1 by lia.
    apply quotient_digits_shift; lia.
  - split; [|exact Hen'].
    rewrite E, Hsh. replace (- S + (S - s)) with e' by lia.
    destruct sg; reflexivity.
Qed.

(** The nearest integer to a scaled float is the rounding of a place. *)
Lemma nearest_even_scaled_pos (m : positive) (e D e1 : Z) :
  e1 <= e -> e1 <= 0 -> 0 < D ->
  PyFloat.nearest_even_scaled m e D
  = rnd (shk (- e1) (4 * (Z.pos m * 2 ^ (e - e1) * D))).
Proof.
  intros He H1 HD.
  assert (HR : 0 < 2 ^ (e - e1)) by (apply pow2_pos; lia).
  unfold PyFloat.nearest_even_scaled. destruct e as [|k|k].
  - replace (4 * (Z.pos m * 2 ^ (0 - e1) * D))
      with (4 * (Z.pos m * 2 ^ 0 * D * 2 ^ (- e1)))
      by (replace (0 - e1) with (- e1) by lia; change (2 ^ 0) with 1; lia).
    rewrite shk_exact by lia. rewrite rnd_exact. reflexivity.
  - replace (4 * (Z.pos m * 2 ^ (Z.pos k - e1) * D))
      with (4 * (Z.pos m * 2 ^ Z.pos k * D * 2 ^ (- e1)))
      by (replace (Z.pos k - e1) with (Z.pos k + - e1) by lia;
          rewrite pow2_split by lia; lia).
    rewrite shk_exact by lia. rewrite rnd_exact. reflexivity.
  - set (N := Z.pos m * D). set (den := 2 ^ Z.pos k).
    assert (Hden : 0 < den) by (apply pow2_pos; lia).
    replace (4 * (Z.pos m * 2 ^ (Z.neg k - e1) * D))
      with (4 * (N * 2 ^ (Z.neg k - e1))) by (unfold N; lia).
    replace (- e1) with (Z.pos k + (Z.neg k - e1)) by lia.
    rewrite <- shk_shk by lia. rewrite shk_exact by lia.
    pose proof (Z.div_mod N den ltac:(lia)) as EN.
    pose proof (Z.mod_pos_bound N den Hden) as Hr.
    set (q := N / den) in *. set (r := N mod den) in *.
    unfold shk. replace (2 ^ (Z.pos k + 1)) with (2 * den)
      by (unfold den; rewrite pow2_split by lia; change (2 ^ 1) with 2; lia).
    set (b := if den <=? 2 * r then 1 else 0).
    assert (Hb : 0 <= 2 * r - b * den < den /\ 0 <= b <= 1).
    { unfold b. destruct (Z.leb_spec den (2 * r)); lia. }
    assert (E1 : 4 * N / (2 * den) = 2 * q + b).
    { symmetry. apply (Z.div_unique _ _ _ (2 * (2 * r - b * den))); [left; lia|lia]. }
    assert (E2 : 4 * N mod (2 * den) = 2 * (2 * r - b * den)).
    { symmetry. apply (Z.mod_unique _ _ (2 * q + b)); [left; lia|lia]. }
    rewrite E1, E2.
    set (c := 2 * b + (if 2 * (2 * r - b * den) =? 0 then 0 else 1)).
    replace (2 * (2 * q + b) + (if 2 * (2 * r - b * den) =? 0 then 0 else 1))
      with (4 * q + c) by (unfold c; lia).
    assert (Hc : 0 <= c < 4).
    { unfold c. destruct (2 * (2 * r - b * den) =? 0); lia. }
    rewrite rnd_spec by exact Hc.
    unfold c, b.
    destruct (Z.compare_spec (2 * r) den) as [E|L|G];
      destruct (Z.leb_spec den (2 * r)); try lia;
      match goal with |- context [?a =? 0] => destruct (Z.eqb_spec a 0) end; try lia;
      repeat match goal with |- context [?a =? ?b] =>
        destruct (Z.eqb_spec a b); try lia end;
      destruct (Z.even q); lia.
Qed.

(** The key of a signed result from the key of its magnitude. *)
Definition signed_key' (s : bool) (k : Z * Z * Z) : Z * Z * Z :=
  if s then opp_key k else k.

(** *** The rounding to a number of decimal places *)

(** [round(x, ndigits)] on the floats of the specification; [D] is the
    power of ten. *)
Definition round_sf (D : positive) (x : spec_float) : spec_float :=
  match x with
  | S754_finite s m e =>
      match PyFloat.nearest_even_scaled m e (Z.pos D) with
      | Z.pos n => SFdiv prec emax (S754_finite s n 0) (S754_finite false D 0)
      | _ => S754_zero s
      end
  | _ => x
  end.

Section Decimal.

Variable D : positive.
Hypothesis HD : Zdigits2 (Z.pos D) + prec + emin <= 1.

Let S := prec + Zdigits2 (Z.pos D).

Definition nearest (e1 v : Z) : Z := rnd (shk (- e1) (4 * (v * Z.pos D))).

Definition quotient_key (n : Z) : Z * Z * Z :=
  if n =? 0 then (0, 0, 0) else rkey (round_pos (divpos n (Z.pos D) S) (- S)).

Definition round_key (e1 v : Z) : Z * Z * Z :=
  match v with
  | Z0 => (0, 0, 0)
  | Z.pos _ => quotient_key (nearest e1 v)
  | Z.neg _ => opp_key (quotient_key (nearest e1 (- v)))
  end.

Lemma nearest_nonneg (e1 v : Z) : e1 <= 0 -> 0 <= v -> 0 <= nearest e1 v.
Proof.
  intros H1 Hv. unfold nearest. apply rnd_nonneg, shk_nonneg; nia.
Qed.

Lemma nearest_mono (e1 v v' : Z) : e1 <= 0 -> v <= v' -> nearest e1 v <= nearest e1 v'.
Proof.
  intros H1 Hv. unfold nearest. apply rnd_mono, shk_mono; nia.
Qed.

Lemma S_nonneg : 0 <= S.
Proof. unfold S. pose proof (Zdigits2_nonneg (Z.pos D)). lia. Qed.

Lemma quotient_enough (n : positive) : enough (divpos (Z.pos n) (Z.pos D) S) (- S).
Proof. exact (proj2 (SFdiv_pos false n D HD)). Qed.

Lemma quotient_key_class (n : Z) :
  0 <= n ->
  FloatOrder.lex_le (0, 0, 0) (quotient_key n)
  /\ FloatOrder.lex_le (opp_key (quotient_key n)) (0, 0, 0)
  /\ FloatOrder.lex_le key_min (quotient_key n)
  /\ FloatOrder.lex_le (quotient_key n) key_max
  /\ FloatOrder.lex_le key_min (opp_key (quotient_key n))
  /\ FloatOrder.lex_le (opp_key (quotient_key n)) key_max.
Proof.
  intros Hn. unfold quotient_key. destruct (Z.eqb_spec n 0) as [E|N].
  - unfold opp_key, key_min, key_max, FloatOrder.lex_le. lia.
  - destruct n as [|q|q]; try lia.
    pose proof (round_pos_canonical _ _
      (divpos_nonneg (Z.pos q) (Z.pos D) S ltac:(lia) ltac:(lia) S_nonneg)
      (quotient_enough q)) as Hc.
    assert (Hf : 0 <= fst (round_pos (divpos (Z.pos q) (Z.pos D) S) (- S)))
      by (unfold canonical in Hc; lia).
    destruct (rkey_class _ Hf) as [H1 H2].
    destruct (rkey_range _ Hf) as (H3 & H4 & H5 & H6).
    repeat split; assumption.
Qed.

Lemma quotient_key_mono (n n' : Z) :
  0 <= n <= n' -> FloatOrder.lex_le (quotient_key n) (quotient_key n').
Proof.
  intros Hn. destruct (Z.eq_dec n 0) as [->|N].
  - change (quotient_key 0) with (0, 0, 0). apply quotient_key_class. lia.
  - unfold quotient_key.
    destruct (Z.eqb_spec n 0) as [E|_]; [lia|].
    destruct (Z.eqb_spec n' 0) as [E|_]; [lia|].
    destruct n as [|q|q], n' as [|q'|q']; try lia.
    pose proof S_nonneg as HS.
    apply rkey_mono.
    + apply round_pos_canonical; [apply divpos_nonneg; lia|apply quotient_enough].
    + apply round_pos_canonical; [apply divpos_nonneg; lia|apply quotient_enough].
    + apply round_pos_mono; [|apply quotient_enough..].
      split; [apply divpos_nonneg; lia|apply divpos_mono; lia].
Qed.

Lemma round_key_mono (e1 v v' : Z) :
  e1 <= 0 -> v <= v' -> FloatOrder.lex_le (round_key e1 v) (round_key e1 v').
Proof.
  intros H1 Hv.
  assert (Hc : forall q, 0 <= nearest e1 (Z.pos q)) by (intros q; apply nearest_nonneg; lia).
  destruct v as [|q|q], v' as [|q'|q']; cbn [round_key]; try lia.
  - unfold FloatOrder.lex_le. lia.
  - apply quotient_key_class, Hc.
  - apply quotient_key_mono. split; [apply Hc|apply nearest_mono; lia].
  - change (- Z.neg q) with (Z.pos q). apply quotient_key_class, Hc.
  - change (- Z.neg q) with (Z.pos q).
    destruct (quotient_key_class _ (Hc q)) as (_ & Hq & _).
    destruct (quotient_key_class _ (Hc q')) as (Hq' & _).
    exact (lex_le_trans _ _ _ Hq Hq').
  - change (- Z.neg q) with (Z.pos q). change (- Z.neg q') with (Z.pos q').
    apply lex_le_opp, quotient_key_mono. split; [apply Hc|apply nearest_mono; lia].
Qed.

Lemma round_key_range (e1 : Z) : e1 <= 0 -> in_range (round_key e1).
Proof.
  intros H1 v.
  assert (Hc : forall q, 0 <= nearest e1 (Z.pos q)) by (intros q; apply nearest_nonneg; lia).
  destruct v as [|q|q]; cbn [round_key].
  - unfold key_min, key_max, FloatOrder.lex_le. lia.
  - destruct (quotient_key_class _ (Hc q)) as (_ & _ & H3 & H4 & _). split; assumption.
  - change (- Z.neg q) with (Z.pos q).
    destruct (quotient_key_class _ (Hc q)) as (_ & _ & _ & _ & H5 & H6). split; assumption.
Qed.

Lemma key_round_sf (x : spec_float) (e1 : Z) :
  is_finite x = true -> above e1 x -> e1 <= 0 ->
  FloatOrder.key (round_sf D x) = Some (round_key e1 (sval e1 x)).
Proof.
  destruct x as [s|s| |s m e]; try discriminate; intros _ Ha H1.
  - reflexivity.
  - cbn [above] in Ha. cbn [round_sf sval].
    assert (HR : 0 < 2 ^ (e - e1)) by (apply pow2_pos; lia).
    rewrite (nearest_even_scaled_pos m e (Z.pos D) e1 Ha H1 ltac:(lia)).
    fold (nearest e1 (Z.pos m * 2 ^ (e - e1))).
    pose proof (nearest_nonneg e1 (Z.pos m * 2 ^ (e - e1)) H1 ltac:(nia)) as Hn.
    assert (Hk : FloatOrder.key
                   match nearest e1 (Z.pos m * 2 ^ (e - e1)) with
                   | Z.pos n => SFdiv prec emax (S754_finite s n 0) (S754_finite false D 0)
                   | _ => S754_zero s
                   end
                 = Some (signed_key' s (quotient_key (nearest e1 (Z.pos m * 2 ^ (e - e1)))))).
    { destruct (nearest e1 (Z.pos m * 2 ^ (e - e1))) as [|n|n]; try lia.
      - destruct s; reflexivity.
      - rewrite (proj1 (SFdiv_pos s n D HD)). fold S.
        rewrite key_result_of.
        + unfold quotient_key. change (Z.pos n =? 0) with false. cbv iota.
          destruct s; reflexivity.
        + pose proof (round_pos_canonical _ _
            (divpos_nonneg (Z.pos n) (Z.pos D) S ltac:(lia) ltac:(lia) S_nonneg)
            (quotient_enough n)) as Hc.
          unfold canonical in Hc. lia. }
    rewrite Hk. destruct s; cbn [cond_Zopp signed_key'].
    + destruct (- (Z.pos m * 2 ^ (e - e1))) as [|w|w] eqn:E; try nia.
      cbn [round_key]. replace (- Z.neg w) with (Z.pos m * 2 ^ (e - e1)) by lia.
      reflexivity.
    + destruct (Z.pos m * 2 ^ (e - e1)) as [|w|w] eqn:E; try nia. reflexivity.
Qed.

Lemma round_sf_mono (x1 x2 : spec_float) :
  SpecFloat.valid_binary prec emax x1 = true ->
  SpecFloat.valid_binary prec emax x2 = true ->
  SFleb x1 x2 = true -> SFleb (round_sf D x1) (round_sf D x2) = true.
Proof.
  intros V1 V2 Hle.
  set (e1 := Z.min 0 (Z.min (expo x1) (expo x2))).
  apply (mono_generic (round_sf D) (round_key e1) e1); try assumption.
  - intros s. reflexivity.
  - intros v v' Hv. apply round_key_mono; lia.
  - apply round_key_range. lia.
  - intros F1. apply key_round_sf; [exact F1|apply above_expo; lia|lia].
  - intros F2. apply key_round_sf; [exact F2|apply above_expo; lia|lia].
  - apply above_expo. lia.
  - apply above_expo. lia.
Qed.

Lemma valid_SFdiv_pos (sg : bool) (n : positive) :
  SpecFloat.valid_binary prec emax
    (SFdiv prec emax (S754_finite sg n 0) (S754_finite false D 0)) = true.
Proof.
  rewrite (proj1 (SFdiv_pos sg n D HD)). apply valid_result_of.
  apply round_pos_canonical; [|apply quotient_enough].
  apply divpos_nonneg; [lia|lia|apply S_nonneg].
Qed.

Lemma valid_round_sf (x : spec_float) :
  SpecFloat.valid_binary prec emax x = true ->
  SpecFloat.valid_binary prec emax (round_sf D x) = true.
Proof.
  intros V. destruct x as [s|s| |s m e]; try exact V. cbn [round_sf].
  destruct (PyFloat.nearest_even_scaled m e (Z.pos D)); try reflexivity.
  apply valid_SFdiv_pos.
Qed.

End Decimal.

End Format.

End Rounding.

(** ** The order of Python's floats and their operations *)

Module FloatMono.

Import Rounding.

Lemma prec_pos : 0 < FloatOps.prec.
Proof. reflexivity. Qed.

Lemma prec_emax : FloatOps.prec < FloatOps.emax.
Proof. reflexivity. Qed.

Definition finite (x : float) : bool := is_finite (Prim2SF x).

Lemma le_not_nan (x y : float) :
  PyFloat.le x y = true -> PyFloat.is_nan x = false /\ PyFloat.is_nan y = false.
Proof.
  unfold PyFloat.le. rewrite FloatOrder.leb_key, !FloatOrder.is_nan_key.
  intros (k1 & k2 & E1 & E2 & _). split; eauto.
Qed.

Lemma mul_mono (x1 x2 c : float) (mc : positive) (ec : Z) :
  Prim2SF c = S754_finite false mc ec ->
  PyFloat.le x1 x2 = true -> PyFloat.le (x1 * c) (x2 * c) = true.
Proof.
  unfold PyFloat.le. rewrite !FloatAxioms.leb_spec, !FloatAxioms.mul_spec. intros Hc H. rewrite Hc.
  apply (SFmul_mono _ _ prec_pos prec_emax); try apply Prim2SF_valid; [|exact H].
  rewrite <- Hc. apply Prim2SF_valid.
Qed.

Lemma add_mono_r (a x1 x2 : float) :
  finite a = true ->
  PyFloat.le x1 x2 = true -> PyFloat.le (a + x1) (a + x2) = true.
Proof.
  unfold PyFloat.le. rewrite !FloatAxioms.leb_spec, !FloatAxioms.add_spec. intros Ha H.
  apply (SFadd_mono_r _ _ prec_pos); try apply Prim2SF_valid; assumption.
Qed.

Lemma add_mono_l (b x1 x2 : float) :
  finite b = true ->
  PyFloat.le x1 x2 = true -> PyFloat.le (x1 + b) (x2 + b) = true.
Proof.
  unfold PyFloat.le. rewrite !FloatAxioms.leb_spec, !FloatAxioms.add_spec. intros Hb H.
  apply (SFadd_mono_l _ _ prec_pos); try apply Prim2SF_valid; assumption.
Qed.

(** Adding a greater finite float to a float that is a number gives no
    less. *)
Lemma add_mono_number (x c1 c2 : float) :
  PyFloat.is_nan x = false -> finite c1 = true -> finite c2 = true ->
  PyFloat.le c1 c2 = true -> PyFloat.le (x + c1) (x + c2) = true.
Proof.
  intros Hx F1 F2 H.
  destruct (finite x) eqn:Fx; [apply add_mono_r; assumption|].
  revert Hx Fx F1 F2. clear H.
  unfold PyFloat.le, PyFloat.is_nan, finite.
  rewrite FloatAxioms.leb_spec, !FloatAxioms.add_spec, FloatAxioms.eqb_spec.
  destruct (Prim2SF x) as [[]|[]| |[] m e]; try discriminate; intros _ _;
    destruct (Prim2SF c1) as [[]|[]| |[] m1 e1]; try discriminate;
    destruct (Prim2SF c2) as [[]|[]| |[] m2 e2]; try discriminate; reflexivity.
Qed.

Lemma hundred_fits :
  Zdigits2 (Z.pos 100) + FloatOps.prec + SpecFloat.emin FloatOps.prec FloatOps.emax <= 1.
Proof. vm_compute. discriminate. Qed.

Lemma round_spec (x : float) :
  Prim2SF (PyFloat.round x 2) = round_sf FloatOps.prec FloatOps.emax 100 (Prim2SF x).
Proof.
  unfold PyFloat.round.
  destruct (Prim2SF x) as [s|s| |s m e] eqn:E; try (rewrite E; reflexivity).
  cbn [round_sf]. change (10 ^ Z.of_N 2) with 100.
  destruct (PyFloat.nearest_even_scaled m e 100) as [|n|n].
  - apply Prim2SF_SF2Prim. reflexivity.
  - apply Prim2SF_SF2Prim.
    apply (valid_SFdiv_pos _ _ prec_pos 100%positive hundred_fits).
  - apply Prim2SF_SF2Prim. reflexivity.
Qed.

Lemma round_mono (x1 x2 : float) :
  PyFloat.le x1 x2 = true -> PyFloat.le (PyFloat.round x1 2) (PyFloat.round x2 2) = true.
Proof.
  unfold PyFloat.le. rewrite !FloatAxioms.leb_spec, !round_spec. intros H.
  apply (round_sf_mono _ _ prec_pos 100%positive hundred_fits);
    try apply Prim2SF_valid; exact H.
Qed.

(** The order of the floats that are numbers. *)
Lemma le_trans (x y z : float) :
  PyFloat.le x y = true -> PyFloat.le y z = true -> PyFloat.le x z = true.
Proof. apply FloatOrder.leb_trans. Qed.

Lemma le_lt_trans (x y z : float) :
  PyFloat.le x y = true -> PyFloat.lt y z = true -> PyFloat.lt x z = true.
Proof.
  unfold PyFloat.le, PyFloat.lt. rewrite FloatOrder.leb_key, !FloatOrder.ltb_key.
  intros (k1 & k2 & E1 & E2 & H) (k2' & k3 & E2' & E3 & H').
  rewrite E2 in E2'. injection E2' as <-.
  exists k1, k3. repeat split; try assumption.
  destruct k1 as [[a1 b1] c1], k2 as [[a2 b2] c2], k3 as [[a3 b3] c3].
  unfold FloatOrder.lex_le, FloatOrder.lex_lt in *. lia.
Qed.

Lemma lt_le_trans (x y z : float) :
  PyFloat.lt x y = true -> PyFloat.le y z = true -> PyFloat.lt x z = true.
Proof.
  unfold PyFloat.le, PyFloat.lt. rewrite FloatOrder.leb_key, !FloatOrder.ltb_key.
  intros (k1 & k2 & E1 & E2 & H) (k2' & k3 & E2' & E3 & H').
  rewrite E2 in E2'. injection E2' as <-.
  exists k1, k3. repeat split; try assumption.
  destruct k1 as [[a1 b1] c1], k2 as [[a2 b2] c2], k3 as [[a3 b3] c3].
  unfold FloatOrder.lex_le, FloatOrder.lex_lt in *. lia.
Qed.

(** A float between two finite floats is finite. *)
Lemma between_finite (lo x hi : float) :
  finite lo = true -> finite hi = true ->
  PyFloat.le lo x = true -> PyFloat.le x hi = true -> finite x = true.
Proof.
  unfold finite, PyFloat.le. rewrite !FloatAxioms.leb_spec.
  destruct (Prim2SF x) as [[]|[]| |[] m e]; try reflexivity;
    destruct (Prim2SF lo) as [[]|[]| |[] m1 e1]; try discriminate;
    destruct (Prim2SF hi) as [[]|[]| |[] m2 e2]; try discriminate.
Qed.

(** Both sides of a sum. *)
Lemma add_mono (a a' b b' : float) :
  finite a' = true -> finite b = true ->
  PyFloat.le a a' = true -> PyFloat.le b b' = true ->
  PyFloat.le (a + b) (a' + b') = true.
Proof.
  intros Fa Fb Ha Hb.
  apply (le_trans _ (a' + b)%float); [apply add_mono_l|apply add_mono_r]; assumption.
Qed.

Lemma le_total (x y : float) :
  PyFloat.is_nan x = false -> PyFloat.is_nan y = false ->
  PyFloat.le x y = true \/ PyFloat.le y x = true.
Proof.
  intros Hx Hy. destruct (PrimFloat.ltb x y) eqn:E.
  - left. apply FloatOrder.ltb_leb, E.
  - right. apply FloatOrder.leb_total; assumption.
Qed.

Lemma digits_shift_nonneg (b : positive) : 0 <= FloatOps.prec + Zdigits2 (Z.pos b).
Proof. pose proof (Zdigits2_nonneg (Z.pos b)). pose proof prec_pos. lia. Qed.

(** The quotient of an integer by a positive integer that is not too
    large: a float of the same sign, finite unless the division
    overflows. *)
Lemma int_true_div_finite (a : Z) (b : positive) (q : float) :
  Zdigits2 (Z.pos b) + FloatOps.prec + SpecFloat.emin FloatOps.prec FloatOps.emax <= 1 ->
  PyFloat.int_true_div a (Z.pos b) = Some q ->
  finite q = true /\ (0 <= a -> PyFloat.le 0 q = true).
Proof.
  intros Hb. unfold PyFloat.int_true_div, PyFloat.nearest_quotient, finite, PyFloat.le.
  change (Z.pos b =? 0) with false. cbv iota. rewrite FloatAxioms.leb_spec.
  change (PyFloat.SF_of_Z (Z.pos b)) with (S754_finite false b 0).
  assert (Hq : forall sg n,
    (if PyFloat.is_infinity (SF64div (S754_finite sg n 0) (S754_finite false b 0))
     then None
     else Some (SF2Prim (SF64div (S754_finite sg n 0) (S754_finite false b 0)))) = Some q ->
    is_finite (Prim2SF q) = true
    /\ (sg = false -> SFleb (Prim2SF 0) (Prim2SF q) = true)).
  { intros sg n.
    pose proof (valid_SFdiv_pos _ _ prec_pos b Hb sg n) as V.
    destruct (SFdiv_pos _ _ prec_pos sg n b Hb) as [E K].
    pose proof (round_pos_canonical _ _ prec_pos _ _
      (divpos_nonneg (Z.pos n) (Z.pos b) _ ltac:(lia) ltac:(lia) (digits_shift_nonneg b)) K)
      as C.
    unfold SF64div. revert V. rewrite E. clear E.
    generalize (round_pos FloatOps.prec FloatOps.emax
                  (divpos (Z.pos n) (Z.pos b) (FloatOps.prec + Zdigits2 (Z.pos b)))
                  (- (FloatOps.prec + Zdigits2 (Z.pos b)))) C.
    intros [m e] [[C' _] _]. unfold result_of. cbn [fst snd] in *.
    assert (Hr : forall y,
      SpecFloat.valid_binary FloatOps.prec FloatOps.emax y = true ->
      is_finite y = true -> (sg = false -> SFleb (S754_zero false) y = true) ->
      (if PyFloat.is_infinity y then None else Some (SF2Prim y)) = Some q ->
      is_finite (Prim2SF q) = true /\ (sg = false -> SFleb (Prim2SF 0) (Prim2SF q) = true)).
    { intros y V F L. destruct (PyFloat.is_infinity y); [discriminate|].
      intros Hy. assert (Eq : q = SF2Prim y) by congruence.
      rewrite Eq, (Prim2SF_SF2Prim _ V). split; assumption. }
    destruct m as [|m|m]; try lia.
    - intros V. apply Hr; [exact V|reflexivity|intros _; reflexivity].
    - destruct (e <=? FloatOps.emax - FloatOps.prec); [|discriminate].
      intros V. apply Hr; [exact V|reflexivity|intros ->; reflexivity]. }
  destruct a as [|n|n]; cbn [PyFloat.SF_of_Z].
  - intros Hz. cbn in Hz. injection Hz as <-. split; [reflexivity|intros _; reflexivity].
  - intros Hn. destruct (Hq false n Hn) as [F L]. auto.
  - intros Hn. destruct (Hq true n Hn) as [F L]. split; [exact F|lia].
Qed.

(** [g] stays strictly below [h] between the points of a grid. *)
Fixpoint strict_on (g h : float -> float) (lo : float) (grid : list float) : bool :=
  match grid with
  | [] => PyFloat.lt (g lo) (h lo)
  | b :: rest => PyFloat.le b b && PyFloat.lt (g b) (h lo) && strict_on g h b rest
  end.

Fixpoint last_point (lo : float) (grid : list float) : float :=
  match grid with
  | [] => lo
  | b :: rest => last_point b rest
  end.

Lemma strict_between (g h : float -> float) :
  (forall x y, PyFloat.le x y = true -> PyFloat.le (g x) (g y) = true) ->
  (forall x y, PyFloat.le x y = true -> PyFloat.le (h x) (h y) = true) ->
  forall grid lo x,
    strict_on g h lo grid = true ->
    PyFloat.le lo x = true -> PyFloat.le x (last_point lo grid) = true ->
    PyFloat.lt (g x) (h x) = true.
Proof.
  intros Hg Hh grid. induction grid as [|b rest IH]; intros lo x Hs Hlo Hhi.
  - cbn in Hs, Hhi.
    apply (le_lt_trans _ (g lo)); [apply Hg, Hhi|].
    apply (lt_le_trans _ (h lo)); [exact Hs|apply Hh, Hlo].
  - cbn [strict_on] in Hs. apply andb_true_iff in Hs. destruct Hs as [Hs Hr].
    apply andb_true_iff in Hs. destruct Hs as [Hb Hs].
    destruct (le_total x b) as [Hx|Hx].
    + apply (le_not_nan lo x Hlo).
    + apply (le_not_nan b b Hb).
    + apply (le_lt_trans _ (g b)); [apply Hg, Hx|].
      apply (lt_le_trans _ (h lo)); [exact Hs|apply Hh, Hlo].
    + apply (IH b x Hr Hx).
      exact Hhi.
Qed.

End FloatMono.

(** ** The decision tree *)

Module DecisionAgentFacts.
Import DecisionAgent.

(** The algorithm of [advance] in the words of the specification: a
    terminal node is returned unchanged; otherwise the edges are read in
    the order of their declaration and the [next] of the first one whose
    threshold is at most the rating is returned, the node itself when there
    is none. *)
Definition edges_of (tree : Tree) (node : string) : list Answer :=
  match tree !! node with
  | Some nd => default [] (map snd <$> answers nd)
  | None => []
  end.

Definition is_terminal (tree : Tree) (node : string) : bool :=
  match edges_of tree node with [] => true | _ => false end.

Definition advance_spec (tree : Tree) (node : string) (rating : float) : string :=
  if is_terminal tree node then node
  else
    match List.find (fun e => PrimFloat.leb (threshold e) rating) (edges_of tree node) with
    | Some e => next e
    | None => node
    end.

Lemma first_answer_find (items : list (string * Answer)) (rating : float) :
  first_answer items rating
  = next <$> List.find (fun e => PrimFloat.leb (threshold e) rating) (map snd items).
Proof.
  induction items as [|[key a] rest IH]; simpl; [reflexivity|].
  unfold PyFloat.ge. destruct (PrimFloat.leb (threshold a) rating); simpl; auto.
Qed.

(** The first edge that matches wins, whatever follows it. *)
Lemma first_answer_app (pre post : list (string * Answer)) key a rating :
  Forall (fun x => PrimFloat.leb (threshold x.2) rating = false) pre ->
  PrimFloat.leb (threshold a) rating = true ->
  first_answer (pre ++ (key, a) :: post) rating = Some (next a).
Proof.
  intros Hpre Ha. induction Hpre as [|[k x] pre Hx _ IH]; simpl.
  - unfold PyFloat.ge. rewrite Ha. reflexivity.
  - unfold PyFloat.ge. simpl in Hx. rewrite Hx. exact IH.
Qed.

Lemma first_answer_none (items : list (string * Answer)) rating :
  Forall (fun x => PrimFloat.leb (threshold x.2) rating = false) items ->
  first_answer items rating = None.
Proof.
  induction 1 as [|[k x] items Hx _ IH]; simpl; [reflexivity|].
  unfold PyFloat.ge. simpl in Hx. rewrite Hx. exact IH.
Qed.

(** C2. [navigate_tree] is the algorithm of the specification, for every
    tree, node and rating (in particular for the ratings of [0.0, 1.0]): a
    node that is not in the tree is returned unchanged; otherwise the edges
    are read in declaration order, the first whose threshold is at most the
    rating gives the result even when a later edge has a higher threshold
    that is also reached, and the node is returned unchanged when no edge
    matches. On the default tree the three steps of the scenario are
    Math -> Math_High -> HighProg -> Data Scientist. *)
Theorem navigate_tree_first_match :
  (forall (tree : Tree) (node : string) (rating : float),
      navigate_tree tree node rating = advance_spec tree node rating)
  /\ (forall (tree : Tree) (node : string) (rating : float),
      tree !! node = None -> navigate_tree tree node rating = node)
  /\ (forall (tree : Tree) (node : string) (rating : float) nd pre key a post,
      tree !! node = Some nd ->
      answers nd = Some (pre ++ (key, a) :: post) ->
      Forall (fun x => PrimFloat.leb (threshold x.2) rating = false) pre ->
      PrimFloat.leb (threshold a) rating = true ->
      navigate_tree tree node rating = next a)
  /\ (forall (tree : Tree) (node : string) (rating : float) nd items,
      tree !! node = Some nd ->
      answers nd = Some items ->
      Forall (fun x => PrimFloat.leb (threshold x.2) rating = false) items ->
      navigate_tree tree node rating = node)
  /\ navigate_tree get_default_tree "Math" 0.8 = "Math_High"
  /\ navigate_tree get_default_tree "Math_High" 0.9 = "HighProg"
  /\ navigate_tree get_default_tree "HighProg" 0.7 = "Data Scientist"
  /\ navigate_tree get_default_tree "Data Scientist" 0.7 = "Data Scientist".
Proof.
  split; [|split; [|split; [|split]]].
  - intros tree node rating.
    unfold navigate_tree, advance_spec, is_terminal, edges_of.
    destruct (tree !! node) as [nd|]; [|reflexivity].
    destruct (answers nd) as [items|]; [|reflexivity].
    rewrite first_answer_find. simpl.
    destruct items as [|[k a] rest]; [reflexivity|].
    simpl. destruct (PrimFloat.leb (threshold a) rating); [reflexivity|].
    destruct (List.find _ (map snd rest)); reflexivity.
  - intros tree node rating Hnone. unfold navigate_tree. rewrite Hnone. reflexivity.
  - intros tree node rating nd pre key a post Hnd Hans Hpre Ha.
    unfold navigate_tree. rewrite Hnd, Hans.
    rewrite (first_answer_app pre post key a rating Hpre Ha). reflexivity.
  - intros tree node rating nd items Hnd Hans Hall.
    unfold navigate_tree. rewrite Hnd, Hans.
    rewrite (first_answer_none items rating Hall). reflexivity.
  - repeat split; vm_compute; reflexivity.
Qed.

(** The order of declaration decides, not the height of the threshold: with
    the catch-all edge declared first it wins over a higher threshold that
    the rating reaches too. *)
Example declaration_order_decides :
  navigate_tree
    (list_to_map [("Q", mk_node "?" [edge "low" 0.0 "A"; edge "high" 0.7 "B"])])
    "Q" 0.9 = "A".
Proof. vm_compute. reflexivity. Qed.

End DecisionAgentFacts.

(** ** The answer handler *)

Module AppFacts.
Import DecisionAgent App.

(** C3, as the claim states it, fails: [navigate_tree] makes no range test,
    and on the default tree the rating 1.5, which is outside [0.0, 1.0],
    moves the assessment from Math to Math_High. *)
Lemma navigate_tree_out_of_range :
  rating_in_range 1.5 = false
  /\ navigate_tree get_default_tree "Math" 1.5 = "Math_High"
  /\ ~ (forall (node : string) (rating : float),
          rating_in_range rating = false ->
          navigate_tree get_default_tree node rating = node).
Proof.
  assert (H1 : rating_in_range 1.5 = false) by (vm_compute; reflexivity).
  assert (H2 : navigate_tree get_default_tree "Math" 1.5 = "Math_High")
    by (vm_compute; reflexivity).
  split; [exact H1|]. split; [exact H2|].
  intros H. specialize (H "Math" 1.5%float H1). rewrite H2 in H. discriminate H.
Qed.

(** C3, amended. The range test is made by the answer handler: on a rating
    outside [0.0, 1.0] (a NaN included) [process_answer] shows the error
    Invalid Input and leaves the whole state, the current node included,
    as it was; it does not navigate. *)
Theorem process_answer_out_of_range (tree : Tree) (st : AppState) (rating : float) :
  rating_in_range rating = false ->
  process_answer tree st (Some rating)
  = (st, ShowError "Invalid Input" "Please enter a valid number between 0.0 and 1.0").
Proof.
  intros Hr. unfold process_answer. rewrite Hr. reflexivity.
Qed.

Lemma process_answer_out_of_range_witness :
  rating_in_range 1.5 = false
  /\ process_answer get_default_tree
       {| current_node := "Math"; user_skills := ∅; recommended_career := None |}
       (Some 1.5%float)
     = ({| current_node := "Math"; user_skills := ∅; recommended_career := None |},
        ShowError "Invalid Input" "Please enter a valid number between 0.0 and 1.0").
Proof.
  split; [vm_compute; reflexivity|].
  apply (process_answer_out_of_range get_default_tree). vm_compute; reflexivity.
Defined.

(** A rating in range does navigate. *)
Lemma process_answer_in_range (tree : Tree) (st : AppState) (rating : float) :
  rating_in_range rating = true ->
  current_node (process_answer tree st (Some rating)).1
  = navigate_tree tree (current_node st) rating.
Proof.
  intros Hr. unfold process_answer, show_question. rewrite Hr. simpl.
  destruct (tree !! navigate_tree tree (current_node st) rating); reflexivity.
Qed.

End AppFacts.

(** ** Title cleaning *)

Module CleanTitleFacts.
Import PyStr CourseSearch.

(** *** The characters of a text *)

(** The bytes after the first byte of a character continue it. *)
Definition continues (k : string) : bool := forallb is_continuation (chars k).

Definition whole (c : string) : Prop :=
  match c with
  | String _ k => continues k = true
  | EmptyString => False
  end.

(** A character that may follow another one in a text: its first byte
    does not continue the character before it. *)
Definition begins (c : string) : Prop :=
  match c with
  | String b k => is_continuation b = false /\ continues k = true
  | EmptyString => False
  end.

(** The lists of characters of the texts: the first character of a text
    that is cut in the middle of a character may lack its first byte. *)
Definition well_formed (l : list string) : Prop :=
  match l with
  | [] => True
  | c :: r => whole c /\ Forall begins r
  end.

Lemma begins_whole (c : string) : begins c -> whole c.
Proof. destruct c; [auto|]. intros [_ H]. exact H. Qed.

Lemma Forall_begins_well_formed (l : list string) : Forall begins l -> well_formed l.
Proof.
  destruct 1 as [|c r Hc Hr]; [exact I|]. split; [apply begins_whole, Hc|exact Hr].
Qed.

Lemma characters_well_formed (s : string) : well_formed (characters s).
Proof.
  induction s as [|b r IH]; [exact I|]. cbn [characters].
  destruct (characters r) as [|[|c k] rest].
  - split; [reflexivity|constructor].
  - destruct IH as [[] _].
  - destruct IH as [Hk Hrest]. destruct (is_continuation c) eqn:Ec.
    + split; [|exact Hrest]. cbn. unfold continues in *. cbn. rewrite Ec. exact Hk.
    + split; [reflexivity|]. constructor; [|exact Hrest]. split; assumption.
Qed.

Lemma characters_continued (k : string) :
  continues k = true -> k <> "" -> characters k = [k].
Proof.
  induction k as [|c k IH]; [congruence|]. intros Hk _.
  unfold continues in Hk. cbn in Hk. apply andb_true_iff in Hk. destruct Hk as [Hc Hk].
  cbn [characters]. destruct k as [|d k'].
  - reflexivity.
  - rewrite (IH Hk ltac:(discriminate)).
    cbn in Hk. apply andb_true_iff in Hk. destruct Hk as [Hd _]. rewrite Hd. reflexivity.
Qed.

Lemma characters_whole (c : string) : whole c -> characters c = [c].
Proof.
  destruct c as [|b k]; [intros []|]. cbn [whole]. intros Hk.
  cbn [characters]. destruct k as [|d k'].
  - reflexivity.
  - rewrite (characters_continued _ Hk ltac:(discriminate)).
    unfold continues in Hk. cbn in Hk. apply andb_true_iff in Hk. destruct Hk as [Hd _].
    rewrite Hd. reflexivity.
Qed.

(** The first byte of a text does not continue a character. *)
Definition starts_plain (s : string) : Prop :=
  match s with
  | String b _ => is_continuation b = false
  | EmptyString => True
  end.

Lemma characters_nil (s : string) : characters s = [] -> s = "".
Proof.
  destruct s as [|b r]; [reflexivity|]. cbn [characters].
  destruct (characters r) as [|[|c k] rest]; [discriminate..|].
  destruct (is_continuation c); discriminate.
Qed.

Lemma characters_head (s : string) :
  starts_plain s -> Forall begins (characters s).
Proof.
  intros Hs. pose proof (characters_well_formed s) as Hw.
  destruct s as [|b r]; [constructor|]. cbn [starts_plain] in Hs.
  cbn [characters] in *.
  destruct (characters r) as [|[|c k] rest].
  - constructor; [split; [exact Hs|reflexivity]|constructor].
  - destruct Hw as [_ Hw]. apply Forall_cons_1 in Hw. destruct Hw as [[] _].
  - destruct (is_continuation c) eqn:Ec; destruct Hw as [Hk Hrest].
    + constructor; [split; [exact Hs|exact Hk]|exact Hrest].
    + constructor; [split; [exact Hs|reflexivity]|exact Hrest].
Qed.

Lemma characters_append (a b : string) :
  starts_plain b -> characters (a +:+ b) = characters a ++ characters b.
Proof.
  intros Hb. induction a as [|x a IH]; [reflexivity|].
  change (String x a +:+ b) with (String x (a +:+ b)). cbn [characters]. rewrite IH.
  destruct (characters a) as [|[|c k] rest] eqn:Ea.
  - cbn [app]. pose proof (characters_head b Hb) as Hh.
    destruct (characters b) as [|[|c k] rest]; [reflexivity| |].
    + apply Forall_cons_1 in Hh. destruct Hh as [[] _].
    + apply Forall_cons_1 in Hh. destruct Hh as [[Hc _] _]. rewrite Hc. reflexivity.
  - reflexivity.
  - cbn [app]. destruct (is_continuation c); reflexivity.
Qed.

Lemma of_characters_starts_plain (l : list string) :
  Forall begins l -> starts_plain (of_characters l).
Proof.
  destruct 1 as [|[|b k] r Hc Hr]; [exact I|destruct Hc|]. exact (proj1 Hc).
Qed.

(** A list of characters is the list of the characters of its text. *)
Lemma characters_of_characters (l : list string) :
  well_formed l -> characters (of_characters l) = l.
Proof.
  assert (Hb : forall r, Forall begins r -> characters (of_characters r) = r).
  { induction 1 as [|c r Hc Hr IH]; [reflexivity|].
    cbn [of_characters foldr]. fold (of_characters r).
    rewrite (characters_append c _ (of_characters_starts_plain r Hr)), IH.
    rewrite (characters_whole c (begins_whole c Hc)). reflexivity. }
  destruct l as [|c r]; [reflexivity|]. intros [Hc Hr].
  cbn [of_characters foldr]. fold (of_characters r).
  rewrite (characters_append c _ (of_characters_starts_plain r Hr)), (Hb r Hr).
  rewrite (characters_whole c Hc). reflexivity.
Qed.

Lemma of_characters_characters (s : string) : of_characters (characters s) = s.
Proof.
  induction s as [|b r IH]; [reflexivity|]. cbn [characters].
  destruct (characters r) as [|[|c k] rest].
  - cbn in *. subst r. reflexivity.
  - cbn in *. subst r. reflexivity.
  - destruct (is_continuation c); cbn in *; subst r; reflexivity.
Qed.

Lemma append_assoc (a b c : string) : a +:+ b +:+ c = (a +:+ b) +:+ c.
Proof.
  induction a as [|x a IH]; [reflexivity|].
  change (String x (a +:+ b +:+ c) = String x ((a +:+ b) +:+ c)). rewrite IH. reflexivity.
Qed.

Lemma of_characters_app (l k : list string) :
  of_characters (l ++ k) = of_characters l +:+ of_characters k.
Proof.
  unfold of_characters. induction l as [|c l IH]; [reflexivity|].
  cbn [app foldr]. rewrite IH. apply append_assoc.
Qed.

Section Clean.

Context `{python : Interpreter}.

(** A character that the cleaning keeps as it is: a word character that
    is not whitespace. *)
Definition kept (c : string) : bool := is_word c && negb (isspace c).

(** No two neighbours of the list are both whitespace. *)
Fixpoint single_spaced (l : list string) : bool :=
  match l with
  | a :: (b :: _) as r => negb (isspace a && isspace b) && single_spaced r
  | _ => true
  end.

(** The first character, if any, is not whitespace. *)
Definition starts_clean (l : list string) : bool :=
  match l with
  | c :: _ => negb (isspace c)
  | [] => true
  end.

(** The last character, if any, is not whitespace. *)
Definition ends_clean (l : list string) : bool := starts_clean (rev l).

(** The maximal runs of kept characters; [cur] is the run being read, in
    reverse. *)
Fixpoint runs_from (cur : list string) (l : list string) : list (list string) :=
  match l with
  | [] => match cur with [] => [] | _ => [rev cur] end
  | c :: r =>
      if kept c then runs_from (c :: cur) r
      else
        match cur with
        | [] => runs_from [] r
        | _ => rev cur :: runs_from [] r
        end
  end.

(** The words of a title: its maximal runs of kept characters. *)
Definition words_of (title : string) : list string :=
  map of_characters (runs_from [] (characters title)).

Lemma isspace_space : isspace " " = true.
Proof. reflexivity. Qed.

Lemma begins_space : begins " ".
Proof. split; reflexivity. Qed.

Lemma sub_non_word_space (c : string) : isspace (sub_non_word c) = negb (kept c).
Proof.
  unfold sub_non_word, kept. destruct (is_word c), (isspace c) eqn:Es; cbn; auto.
Qed.

Lemma sub_non_word_kept (c : string) : kept c = true -> sub_non_word c = c.
Proof.
  unfold sub_non_word, kept. destruct (is_word c); [reflexivity|discriminate].
Qed.

Lemma sub_non_word_class (c : string) :
  kept (sub_non_word c) = true \/ isspace (sub_non_word c) = true.
Proof.
  rewrite sub_non_word_space. destruct (kept c) eqn:Ek; [left|right; reflexivity].
  rewrite (sub_non_word_kept c Ek). exact Ek.
Qed.

Lemma sub_non_word_begins (c : string) : begins c -> begins (sub_non_word c).
Proof. unfold sub_non_word. destruct (_ || _); [auto|intros _; apply begins_space]. Qed.

Lemma sub_non_word_whole (c : string) : whole c -> whole (sub_non_word c).
Proof. unfold sub_non_word. destruct (_ || _); [auto|intros _; reflexivity]. Qed.

Lemma split_from_sub_non_word (cur l : list string) :
  split_from cur (map sub_non_word l) = runs_from cur l.
Proof.
  revert cur. induction l as [|c r IH]; intros cur; [reflexivity|].
  cbn [map split_from runs_from]. rewrite sub_non_word_space.
  destruct (kept c) eqn:Ek; cbn [negb].
  - rewrite (sub_non_word_kept c Ek). apply IH.
  - rewrite IH. reflexivity.
Qed.

(** *** The collapse of the whitespace runs *)

Lemma collapse_from_chars (b : bool) (l : list string) :
  Forall (fun c => kept c = true \/ isspace c = true) l ->
  Forall (fun c => kept c = true \/ c = " ") (collapse_from b l).
Proof.
  intros Hl. revert b. induction Hl as [|c r Hc _ IH]; intros b; simpl; [constructor|].
  destruct (isspace c) eqn:Hs.
  - destruct b; [apply IH|]. constructor; [right; reflexivity|apply IH].
  - constructor; [|apply IH]. destruct Hc as [Hc|Hc]; [left; exact Hc|congruence].
Qed.

Lemma collapse_from_begins (b : bool) (l : list string) :
  Forall begins l -> Forall begins (collapse_from b l).
Proof.
  intros Hl. revert b. induction Hl as [|c r Hc _ IH]; intros b; simpl; [constructor|].
  destruct (isspace c); [destruct b; [apply IH|]|]; constructor;
    try apply IH; [apply begins_space|exact Hc].
Qed.

Lemma collapse_from_true_starts_clean (l : list string) :
  starts_clean (collapse_from true l) = true.
Proof.
  induction l as [|c r IH]; simpl; [reflexivity|].
  destruct (isspace c) eqn:Hs; [exact IH|]. simpl. rewrite Hs. reflexivity.
Qed.

Lemma single_spaced_cons (c : string) (l : list string) :
  single_spaced l = true ->
  (isspace c = true -> starts_clean l = true) ->
  single_spaced (c :: l) = true.
Proof.
  intros Hl Hc. destruct l as [|d r]; [reflexivity|].
  change (negb (isspace c && isspace d) && single_spaced (d :: r) = true).
  rewrite Hl, andb_true_r. destruct (isspace c); [|reflexivity].
  specialize (Hc eq_refl). simpl in Hc. simpl. exact Hc.
Qed.

Lemma collapse_from_single_spaced (b : bool) (l : list string) :
  single_spaced (collapse_from b l) = true.
Proof.
  revert b. induction l as [|c r IH]; intros b; [reflexivity|].
  simpl. destruct (isspace c) eqn:Hs.
  - destruct b; [apply IH|].
    apply single_spaced_cons; [apply IH|].
    intros _. apply collapse_from_true_starts_clean.
  - apply single_spaced_cons; [apply IH|]. rewrite Hs. discriminate.
Qed.

Lemma split_from_collapse (cur : list string) (b : bool) (l : list string) :
  (b = true -> cur = []) ->
  split_from cur (collapse_from b l) = split_from cur l.
Proof.
  revert cur b. induction l as [|c r IH]; intros cur b Hb; [reflexivity|].
  simpl. destruct (isspace c) eqn:Hs.
  - destruct b.
    + rewrite (Hb eq_refl). apply IH. reflexivity.
    + simpl. rewrite (IH [] true (fun _ => eq_refl)). reflexivity.
  - simpl. rewrite Hs. apply IH. discriminate.
Qed.

(** *** The strip *)

Lemma lstrip_chars_starts_clean (l : list string) : starts_clean (lstrip_chars l) = true.
Proof.
  induction l as [|c r IH]; simpl; [reflexivity|].
  destruct (isspace c) eqn:Hs; [exact IH|]. simpl. rewrite Hs. reflexivity.
Qed.

Lemma lstrip_chars_Forall (P : string -> Prop) (l : list string) :
  Forall P l -> Forall P (lstrip_chars l).
Proof.
  induction 1 as [|c r Hc Hr IH]; simpl; [constructor|].
  destruct (isspace c); [exact IH|constructor; assumption].
Qed.

Lemma single_spaced_tail (c : string) (l : list string) :
  single_spaced (c :: l) = true -> single_spaced l = true.
Proof.
  destruct l as [|d r]; [reflexivity|].
  intros Hs. change (negb (isspace c && isspace d) && single_spaced (d :: r) = true) in Hs.
  apply andb_true_iff in Hs. apply Hs.
Qed.

Lemma lstrip_chars_single_spaced (l : list string) :
  single_spaced l = true -> single_spaced (lstrip_chars l) = true.
Proof.
  induction l as [|c r IH]; intros Hs; [reflexivity|].
  simpl. destruct (isspace c); [|exact Hs].
  apply IH. exact (single_spaced_tail c r Hs).
Qed.

Lemma split_from_lstrip (l : list string) :
  split_from [] (lstrip_chars l) = split_from [] l.
Proof.
  induction l as [|c r IH]; [reflexivity|].
  simpl. destruct (isspace c) eqn:Hs; [exact IH|]. simpl. rewrite Hs. reflexivity.
Qed.

Lemma rstrip_chars_Forall (P : string -> Prop) (l : list string) :
  Forall P l -> Forall P (rstrip_chars l).
Proof.
  induction 1 as [|c r Hc Hr IH]; simpl; [constructor|].
  destruct (rstrip_chars r) as [|d r'].
  - destruct (isspace c); [constructor|constructor; [exact Hc|constructor]].
  - constructor; assumption.
Qed.

Lemma rstrip_chars_starts_clean (l : list string) :
  starts_clean l = true -> starts_clean (rstrip_chars l) = true.
Proof.
  destruct l as [|c r]; [reflexivity|]. simpl. intros Hc.
  destruct (rstrip_chars r); [|exact Hc].
  destruct (isspace c) eqn:Hs; [reflexivity|]. simpl. rewrite Hs. reflexivity.
Qed.

Lemma ends_clean_cons (c d : string) (l : list string) :
  ends_clean (d :: l) = true -> ends_clean (c :: d :: l) = true.
Proof.
  unfold ends_clean. simpl. destruct (rev l ++ [d]) as [|x y] eqn:E.
  - destruct (rev l); discriminate E.
  - simpl. auto.
Qed.

Lemma rstrip_chars_ends_clean (l : list string) : ends_clean (rstrip_chars l) = true.
Proof.
  induction l as [|c r IH]; [reflexivity|]. simpl.
  destruct (rstrip_chars r) as [|d r'].
  - destruct (isspace c) eqn:Hs; [reflexivity|].
    unfold ends_clean. simpl. rewrite Hs. reflexivity.
  - apply ends_clean_cons. exact IH.
Qed.

Lemma rstrip_chars_single_spaced (l : list string) :
  single_spaced l = true -> single_spaced (rstrip_chars l) = true.
Proof.
  induction l as [|c r IH]; intros Hs; [reflexivity|]. simpl.
  pose proof (single_spaced_tail c r Hs) as Hr. specialize (IH Hr).
  destruct (rstrip_chars r) as [|d r'] eqn:E.
  - destruct (isspace c); reflexivity.
  - apply single_spaced_cons; [exact IH|].
    intros Hc. destruct r as [|d0 r0]; [discriminate E|].
    assert (d = d0) as ->.
    { simpl in E. destruct (rstrip_chars r0); [destruct (isspace d0)|]; congruence. }
    change (negb (isspace c && isspace d0) && single_spaced (d0 :: r0) = true) in Hs.
    apply andb_true_iff in Hs. destruct Hs as [Hs _]. rewrite Hc in Hs. exact Hs.
Qed.

Lemma split_from_rstrip (cur l : list string) :
  split_from cur (rstrip_chars l) = split_from cur l.
Proof.
  revert cur. induction l as [|c r IH]; intros cur; [reflexivity|]. simpl.
  destruct (rstrip_chars r) as [|d r'] eqn:E.
  - destruct (isspace c) eqn:Hs.
    + rewrite <- (IH []). simpl. destruct cur; reflexivity.
    + simpl. rewrite Hs. rewrite <- (IH (c :: cur)). reflexivity.
  - simpl. destruct (isspace c) eqn:Hs.
    + destruct cur; rewrite <- (IH []); reflexivity.
    + rewrite <- (IH (c :: cur)). reflexivity.
Qed.

(** *** The cleaned title *)

(** The characters of a cleaned title. *)
Definition cleaned_chars (title : string) : list string :=
  strip_chars (collapse_from false (map sub_non_word (characters title))).

Lemma cleaned_chars_well_formed (title : string) : well_formed (cleaned_chars title).
Proof.
  unfold cleaned_chars, strip_chars.
  pose proof (characters_well_formed title) as Hw.
  destruct (characters title) as [|c r]; [exact I|]. destruct Hw as [Hc Hr].
  assert (Hr' : Forall begins (map sub_non_word r)).
  { apply Forall_map. eapply Forall_impl; [exact Hr|]. apply sub_non_word_begins. }
  assert (Hb : forall b, Forall begins (collapse_from b (map sub_non_word r)))
    by (intros b; apply collapse_from_begins, Hr').
  cbn [map collapse_from].
  destruct (isspace (sub_non_word c)) eqn:Es.
  - apply Forall_begins_well_formed, rstrip_chars_Forall, lstrip_chars_Forall.
    constructor; [apply begins_space|apply Hb].
  - cbn [lstrip_chars]. rewrite Es. cbn [rstrip_chars].
    pose proof (rstrip_chars_Forall begins _ (Hb false)) as Hs.
    destruct (rstrip_chars (collapse_from false (map sub_non_word r))) as [|d r'].
    + rewrite Es. split; [apply sub_non_word_whole, Hc|constructor].
    + split; [apply sub_non_word_whole, Hc|exact Hs].
Qed.

Lemma clean_title_chars (title : string) :
  characters (_clean_title title) = cleaned_chars title.
Proof.
  unfold _clean_title. apply characters_of_characters, cleaned_chars_well_formed.
Qed.

Lemma cleaned_chars_normal (title : string) :
  Forall (fun c => kept c = true \/ c = " ") (cleaned_chars title)
  /\ single_spaced (cleaned_chars title) = true
  /\ starts_clean (cleaned_chars title) = true
  /\ ends_clean (cleaned_chars title) = true.
Proof.
  unfold cleaned_chars, strip_chars.
  set (l := map sub_non_word (characters title)).
  assert (Hl : Forall (fun c => kept c = true \/ isspace c = true) l).
  { subst l. apply Forall_map. apply Forall_forall. intros c _. apply sub_non_word_class. }
  split; [|split; [|split]].
  - apply rstrip_chars_Forall, lstrip_chars_Forall, collapse_from_chars, Hl.
  - apply rstrip_chars_single_spaced, lstrip_chars_single_spaced,
      collapse_from_single_spaced.
  - apply rstrip_chars_starts_clean, lstrip_chars_starts_clean.
  - apply rstrip_chars_ends_clean.
Qed.

(** *** The cleaned title from the words of the title *)

(** The words with one space between two of them. *)
Fixpoint joined (ws : list (list string)) : list string :=
  match ws with
  | [] => []
  | [w] => w
  | w :: ws' => w ++ " " :: joined ws'
  end.

Lemma of_characters_joined (ws : list (list string)) :
  of_characters (joined ws) = join_spaces (map of_characters ws).
Proof.
  induction ws as [|w ws IH]; [reflexivity|].
  destruct ws as [|w2 ws']; [reflexivity|].
  change (joined (w :: w2 :: ws')) with (w ++ " " :: joined (w2 :: ws')).
  rewrite of_characters_app.
  change (of_characters (" " :: joined (w2 :: ws')))
    with (" " +:+ of_characters (joined (w2 :: ws'))).
  rewrite IH. reflexivity.
Qed.

Lemma split_from_words (cur l : list string) :
  Forall (fun w => w <> []) (split_from cur l).
Proof.
  revert cur. induction l as [|c r IH]; intros cur; cbn [split_from].
  - destruct cur as [|x cur']; [constructor|].
    constructor; [|constructor]. cbn [rev]. destruct (rev cur'); discriminate.
  - destruct (isspace c); [|apply IH].
    destruct cur as [|x cur']; [apply IH|].
    constructor; [|apply IH]. cbn [rev]. destruct (rev cur'); discriminate.
Qed.

Lemma joined_nil (ws : list (list string)) :
  Forall (fun w => w <> []) ws -> joined ws = [] -> ws = [].
Proof.
  destruct 1 as [|w ws Hw Hws]; [reflexivity|]. cbn [joined].
  destruct ws; [congruence|]. destruct w; [congruence|discriminate].
Qed.

Lemma lstrip_collapse (b : bool) (l : list string) :
  lstrip_chars (collapse_from b l) = collapse_from true l.
Proof.
  revert b. induction l as [|c r IH]; intros b; [reflexivity|].
  cbn [collapse_from]. destruct (isspace c) eqn:Es.
  - destruct b; [apply IH|]. cbn [lstrip_chars]. rewrite isspace_space. apply IH.
  - cbn [lstrip_chars]. rewrite Es. reflexivity.
Qed.

Lemma rstrip_chars_words (l : list string) :
  Forall (fun c => isspace c = false) l -> rstrip_chars l = l.
Proof.
  induction 1 as [|c r Hc _ IH]; [reflexivity|]. cbn [rstrip_chars]. rewrite IH.
  destruct r; [rewrite Hc|]; reflexivity.
Qed.

Lemma rstrip_chars_after_space (a x : list string) :
  rstrip_chars (a ++ " " :: x)
  = match rstrip_chars x with
    | [] => rstrip_chars a
    | y => a ++ " " :: y
    end.
Proof.
  induction a as [|c a IH].
  - cbn [app rstrip_chars]. rewrite isspace_space. destruct (rstrip_chars x); reflexivity.
  - cbn [app rstrip_chars]. rewrite IH.
    destruct (rstrip_chars x) as [|y0 y]; [reflexivity|].
    destruct a; reflexivity.
Qed.

Lemma rstrip_collapse (cur l : list string) :
  Forall (fun c => isspace c = false) cur ->
  rstrip_chars (rev cur ++ collapse_from (match cur with [] => true | _ => false end) l)
  = joined (split_from cur l).
Proof.
  revert cur. induction l as [|c r IH]; intros cur Hcur.
  - cbn [collapse_from split_from]. rewrite app_nil_r.
    rewrite rstrip_chars_words by (apply Forall_rev, Hcur).
    destruct cur; reflexivity.
  - cbn [split_from]. destruct (isspace c) eqn:Es.
    + destruct cur as [|x cur'].
      * cbn [collapse_from]. rewrite Es. exact (IH [] Hcur).
      * cbn [collapse_from]. rewrite Es.
        rewrite rstrip_chars_after_space.
        pose proof (IH [] ltac:(constructor)) as IH0. cbn [rev app] in IH0.
        rewrite IH0.
        pose proof (split_from_words [] r) as Hw.
        destruct (split_from [] r) as [|w ws] eqn:Ew.
        -- cbn [joined]. apply rstrip_chars_words, Forall_rev, Hcur.
        -- destruct (joined (w :: ws)) as [|y0 y] eqn:Ej.
           ++ apply joined_nil in Ej; [discriminate Ej|exact Hw].
           ++ change (joined (rev (x :: cur') :: w :: ws))
                with (rev (x :: cur') ++ " " :: joined (w :: ws)).
              rewrite Ej. reflexivity.
    + assert (Ec : collapse_from (match cur with [] => true | _ => false end) (c :: r)
                   = c :: collapse_from false r).
      { cbn [collapse_from]. rewrite Es. reflexivity. }
      rewrite Ec. rewrite <- (IH (c :: cur)) by (constructor; assumption).
      cbn [rev]. rewrite <- app_assoc. reflexivity.
Qed.

Lemma strip_collapse (l : list string) :
  strip_chars (collapse_from false l) = joined (split_from [] l).
Proof.
  unfold strip_chars. rewrite lstrip_collapse.
  exact (rstrip_collapse [] l ltac:(constructor)).
Qed.

Lemma clean_title_words (title : string) :
  _clean_title title = join_spaces (words_of title).
Proof.
  unfold _clean_title, words_of.
  rewrite strip_collapse, split_from_sub_non_word. apply of_characters_joined.
Qed.

Lemma split_clean_title (title : string) : split (_clean_title title) = words_of title.
Proof.
  unfold split, words_of. rewrite clean_title_chars. unfold cleaned_chars, strip_chars.
  rewrite split_from_rstrip, split_from_lstrip.
  rewrite split_from_collapse by discriminate.
  rewrite split_from_sub_non_word. reflexivity.
Qed.

(** C8, amended. For every title, [_clean_title] returns the words of the
    title with one space between two of them, a word being a maximal run of
    characters that are word characters (alphanumeric or the underscore)
    and not whitespace: every other character is a separator, as whitespace
    or replaced by a space. So every character of the result is a word
    character or the space, no two spaces are neighbours, neither end is a
    space, and the words of the result are those of the title. *)
Theorem clean_title_normal_form (title : string) :
  _clean_title title = join_spaces (words_of title)
  /\ Forall (fun c => (is_word c = true /\ isspace c = false) \/ c = " ")
       (characters (_clean_title title))
  /\ single_spaced (characters (_clean_title title)) = true
  /\ starts_clean (characters (_clean_title title)) = true
  /\ ends_clean (characters (_clean_title title)) = true
  /\ split (_clean_title title) = words_of title.
Proof.
  split; [apply clean_title_words|].
  rewrite clean_title_chars.
  destruct (cleaned_chars_normal title) as (Hw & Hs & Hb & He).
  split; [|split; [exact Hs|split; [exact Hb|split; [exact He|apply split_clean_title]]]].
  eapply Forall_impl; [exact Hw|]. intros c [Hc|Hc]; [left|right; exact Hc].
  unfold kept in Hc. apply andb_true_iff in Hc. destruct Hc as [H1 H2].
  split; [exact H1|]. destruct (isspace c); [discriminate H2|reflexivity].
Qed.

End Clean.

Section Examples.

#[local] Existing Instance ascii_interpreter.

(** C8, as the claim states it, fails: the class [\w] of the pattern holds
    the underscore besides the alphanumeric characters, so an underscore,
    which is neither alphanumeric nor whitespace, survives the cleaning. *)
Lemma clean_title_keeps_underscore :
  _clean_title "a_b" = "a_b"
  /\ isalnum "_" = false /\ isspace "_" = false
  /\ ~ (forall (python : Interpreter) (title : string),
          Forall (fun c => isalnum c = true \/ isspace c = true)
            (characters (_clean_title title))).
Proof.
  split; [vm_compute; reflexivity|]. split; [reflexivity|]. split; [reflexivity|].
  intros Hall. specialize (Hall ascii_interpreter "a_b"). vm_compute in Hall.
  apply Forall_cons_1 in Hall. destruct Hall as [_ Hall].
  apply Forall_cons_1 in Hall. destruct Hall as [[Hu|Hu] _]; discriminate Hu.
Qed.

(** An interpreter that knows two accented letters, and a title with them,
    a symbol and a dash: the letters stay, the symbol and the dash go. *)
Definition accented_interpreter : Interpreter :=
  {| unicode_isalnum := fun c => String.eqb c "é" || String.eqb c "ï";
     unicode_isspace := fun _ => false;
     unicode_lower := fun s => s;
     unicode_title := fun s => s;
     sorted_unordered := fun _ _ l => l;
     sorted_unordered_permutation := fun _ _ l => Permutation_refl l |}.

Lemma clean_title_accented :
  @_clean_title accented_interpreter "Café ☕ course – naïve" = "Café course naïve"
  /\ characters "naïve" = ["n"; "a"; "ï"; "v"; "e"].
Proof. split; vm_compute; reflexivity. Qed.

End Examples.

End CleanTitleFacts.

(** ** Search terms *)

Module SearchTermsFacts.
Import CourseSearch.

(** What the language promises of [list(set(l))]: the elements of [l], each
    once, in an order that the interpreter chooses. *)
Definition set_order_law (set_order : list string -> list string) : Prop :=
  forall l, NoDup (set_order l) /\ forall x, x ∈ set_order l <-> x ∈ l.

(** Two orders a set may be listed in: the order of first insertion, and its
    reverse. *)
Definition insertion_order (l : list string) : list string := remove_dups l.
Definition reverse_order (l : list string) : list string := reverse (remove_dups l).

Lemma insertion_order_law : set_order_law insertion_order.
Proof.
  intros l. split; [apply NoDup_remove_dups|]. intros x. apply elem_of_remove_dups.
Qed.

Lemma reverse_order_law : set_order_law reverse_order.
Proof.
  intros l. unfold reverse_order. split.
  - rewrite (reverse_Permutation (remove_dups l)). apply NoDup_remove_dups.
  - intros x. rewrite elem_of_reverse. apply elem_of_remove_dups.
Qed.

Lemma dict_get_unknown {A} (d : list (string * A)) (key : string) (dflt : A) :
  key ∉ map fst d -> dict_get d key dflt = dflt.
Proof.
  induction d as [|[k v] rest IH]; simpl; [reflexivity|]. intros Hk.
  destruct (String.eqb_spec k key) as [->|Hne].
  - exfalso. apply Hk. left.
  - apply IH. intros Hin. apply Hk. right. exact Hin.
Qed.

Section Terms.

Context `{python : Interpreter}.

(** C7, amended. Whatever order the interpreter lists a set in,
    [_get_search_terms] returns a list without duplicates whose elements are
    exactly the combined terms; two invocations with the same career and
    level return the same elements (one list is a permutation of the other),
    and the same list when the set is listed in the same order; for a career
    that is not in the table the only base term is the lower-cased career
    label; for a level that is not in the table the queries are the base
    terms alone. *)
Theorem search_terms_same_elements (o1 o2 : list string -> list string)
  (career level : string) :
  set_order_law o1 -> set_order_law o2 ->
  NoDup (_get_search_terms o1 career level)
  /\ (forall q, q ∈ _get_search_terms o1 career level <-> q ∈ combined_terms career level)
  /\ _get_search_terms o1 career level ≡ₚ _get_search_terms o2 career level
  /\ ((forall l, o1 l = o2 l) ->
      _get_search_terms o1 career level = _get_search_terms o2 career level)
  /\ (career ∉ map fst career_keywords ->
      forall q, q ∈ _get_search_terms o1 career level <->
        q = PyStr.lower career
        \/ exists level_term,
             head (dict_get level_keywords level []) = Some level_term
             /\ q = PyStr.lower career +:+ " " +:+ level_term)
  /\ (level ∉ map fst level_keywords ->
      forall q, q ∈ _get_search_terms o1 career level <->
        q ∈ take 2 (dict_get career_keywords career [PyStr.lower career])).
Proof.
  intros L1 L2. unfold _get_search_terms.
  destruct (L1 (combined_terms career level)) as [N1 E1].
  destruct (L2 (combined_terms career level)) as [N2 E2].
  split; [exact N1|]. split; [exact E1|]. split.
  { apply NoDup_Permutation; [exact N1|exact N2|]. intros x. rewrite E1, E2. tauto. }
  split; [intros Heq; apply Heq|]. split.
  - intros Hc q. rewrite E1. unfold combined_terms.
    rewrite (dict_get_unknown career_keywords career _ Hc).
    generalize (dict_get level_keywords level []). intros lts. simpl.
    rewrite app_nil_r. rewrite elem_of_app, list_elem_of_singleton.
    destruct lts as [|t ts]; simpl.
    + split.
      * intros [Hq|Hq]; [inversion Hq|left; exact Hq].
      * intros [Hq|[t [Ht _]]]; [right; exact Hq|discriminate Ht].
    + rewrite list_elem_of_singleton. split.
      * intros [Hq|Hq]; [right; exists t; split; [reflexivity|exact Hq]|left; exact Hq].
      * intros [Hq|[t' [Ht Hq]]]; [right; exact Hq|left].
        injection Ht as <-. exact Hq.
  - intros Hl q. rewrite E1. unfold combined_terms.
    rewrite (dict_get_unknown level_keywords level _ Hl).
    generalize (dict_get career_keywords career [PyStr.lower career]).
    intros bases. simpl.
    induction (take 2 bases)
      as [|b bs IH]; simpl; [reflexivity|].
    rewrite !elem_of_cons, IH. reflexivity.
Qed.

End Terms.

Section Examples.

#[local] Existing Instance ascii_interpreter.

(** C7, as the claim states it, fails: the queries are listed in the
    iteration order of a set of strings, which follows the string hashes of
    the interpreter and changes from one run to the next; two orders that a
    set may take give two different lists for the same career and level. *)
Lemma search_terms_order_not_fixed :
  set_order_law insertion_order /\ set_order_law reverse_order
  /\ _get_search_terms insertion_order "Data Scientist" "beginner"
     = ["data science beginner"; "data science";
        "machine learning beginner"; "machine learning"]
  /\ _get_search_terms reverse_order "Data Scientist" "beginner"
     = ["machine learning"; "machine learning beginner";
        "data science"; "data science beginner"]
  /\ ~ (forall (python : Interpreter) (o1 o2 : list string -> list string),
          set_order_law o1 -> set_order_law o2 ->
          forall career level : string,
            _get_search_terms o1 career level = _get_search_terms o2 career level).
Proof.
  split; [exact insertion_order_law|]. split; [exact reverse_order_law|].
  assert (H1 : _get_search_terms insertion_order "Data Scientist" "beginner"
     = ["data science beginner"; "data science";
        "machine learning beginner"; "machine learning"]) by (vm_compute; reflexivity).
  assert (H2 : _get_search_terms reverse_order "Data Scientist" "beginner"
     = ["machine learning"; "machine learning beginner";
        "data science"; "data science beginner"]) by (vm_compute; reflexivity).
  split; [exact H1|]. split; [exact H2|].
  intros Hall.
  specialize (Hall ascii_interpreter _ _ insertion_order_law reverse_order_law
                "Data Scientist" "beginner").
  rewrite H1, H2 in Hall. discriminate Hall.
Qed.

(** The theorem at a career and a level of the tables, with the four
    queries listed in two orders, and at a career and a level that are in
    no table. *)
Lemma search_terms_same_elements_witness :
  (NoDup (_get_search_terms insertion_order "Data Scientist" "beginner")
   /\ _get_search_terms insertion_order "Data Scientist" "beginner"
      ≡ₚ _get_search_terms reverse_order "Data Scientist" "beginner"
   /\ length (_get_search_terms insertion_order "Data Scientist" "beginner") = 4%nat)
  /\ (forall q, q ∈ _get_search_terms reverse_order "Zoo Keeper" "expert"
                <-> q ∈ ["zoo keeper"]).
Proof.
  split.
  - destruct (search_terms_same_elements insertion_order reverse_order
                "Data Scientist" "beginner" insertion_order_law reverse_order_law)
      as (H1 & _ & H3 & _).
    split; [exact H1|]. split; [exact H3|reflexivity].
  - destruct (search_terms_same_elements reverse_order insertion_order
                "Zoo Keeper" "expert" reverse_order_law insertion_order_law)
      as (_ & _ & _ & _ & _ & H6).
    apply H6. vm_compute. intros Hin.
    repeat (apply elem_of_cons in Hin; destruct Hin as [Hin|Hin]; [discriminate Hin|]).
    inversion Hin.
Defined.

End Examples.

End SearchTermsFacts.

(** ** The parsers *)

Module ParserFacts.
Import CourseSearch.

Section Parsers.

Context `{python : Interpreter}.

Variable findall_video findall_repo : string -> list (string * string).
Variable random_uniform : nat -> float -> float -> float.
Variable random_randint : nat -> Z -> Z -> Z.

(** What a kept video match becomes. *)
Definition from_video (search_term : string) (c : Course) (m : string * string) : Prop :=
  title c = Some (_clean_title m.2)
  /\ url c = "https://www.youtube.com/watch?v=" +:+ m.1
  /\ provider c = "YouTube" /\ searched_for c = search_term.

(** What a kept repository match becomes. *)
Definition from_repo (search_term : string) (c : Course) (m : string * string) : Prop :=
  title c = Some ("GitHub: " +:+ m.2)
  /\ url c = "https://github.com" +:+ m.1
  /\ provider c = "GitHub" /\ searched_for c = search_term.

Lemma youtube_matches_filter (matches : list (string * string)) (search_term : string)
  (k : nat) :
  Forall2 (from_video search_term)
    (youtube_matches random_uniform random_randint matches search_term k).1
    (List.filter (fun m => youtube_keeps m.2) matches).
Proof.
  revert k. induction matches as [|[video_id t] rest IH]; intros k; simpl.
  - constructor.
  - destruct (youtube_keeps t) eqn:Hk.
    + specialize (IH (k + 3)%nat).
      destruct (youtube_matches random_uniform random_randint rest search_term (k + 3))
        as [courses k'].
      simpl in *. constructor; [|exact IH]. repeat split.
    + apply IH.
Qed.

Lemma github_matches_filter (matches : list (string * string)) (search_term : string)
  (k : nat) :
  Forall2 (from_repo search_term)
    (github_matches random_uniform random_randint matches search_term k).1
    (List.filter (fun m => github_keeps m.2) matches).
Proof.
  revert k. induction matches as [|[repo_path t] rest IH]; intros k; simpl.
  - constructor.
  - destruct (github_keeps t) eqn:Hk.
    + specialize (IH (k + 2)%nat).
      destruct (github_matches random_uniform random_randint rest search_term (k + 2))
        as [courses k'].
      simpl in *. constructor; [|exact IH]. repeat split.
    + apply IH.
Qed.

Lemma has_keyword_spec (keywords : list string) (t : string) :
  has_keyword keywords t = true
  <-> exists keyword, In keyword keywords
        /\ PyStr.contains keyword (PyStr.lower t) = true.
Proof. unfold has_keyword. apply existsb_exists. Qed.

(** C6, amended. The video parser keeps a match, among the first three, if
    and only if its title is longer than 15 characters and holds, lower-cased,
    one of the keywords tutorial, course, learn, guide, introduction. The
    repository parser keeps a match, among the first two, if and only if its
    title holds, lower-cased, one of the keywords learn, tutorial, course,
    guide, examples: it makes no test on the length of the title. The matches
    that are kept become the courses, in their order. *)
Theorem parsers_relevance_filter (html_content search_term : string) (k : nat) :
  Forall2 (from_video search_term)
    (_parse_youtube_results findall_video random_uniform random_randint
       html_content search_term k).1
    (List.filter (fun m => youtube_keeps m.2) (take 3 (findall_video html_content)))
  /\ Forall2 (from_repo search_term)
       (_parse_github_results findall_repo random_uniform random_randint
          html_content search_term k).1
       (List.filter (fun m => github_keeps m.2) (take 2 (findall_repo html_content)))
  /\ (forall t : string,
        youtube_keeps t = true
        <-> 15 < PyStr.len t
            /\ exists keyword,
                 In keyword ["tutorial"; "course"; "learn"; "guide"; "introduction"]
                 /\ PyStr.contains keyword (PyStr.lower t) = true)
  /\ (forall t : string,
        github_keeps t = true
        <-> exists keyword,
              In keyword ["learn"; "tutorial"; "course"; "guide"; "examples"]
              /\ PyStr.contains keyword (PyStr.lower t) = true).
Proof.
  split; [apply youtube_matches_filter|]. split; [apply github_matches_filter|].
  split.
  - intros t. unfold youtube_keeps. rewrite andb_true_iff, Z.ltb_lt.
    rewrite has_keyword_spec. reflexivity.
  - intros t. unfold github_keeps. apply has_keyword_spec.
Qed.

End Parsers.

Section Examples.

#[local] Existing Instance ascii_interpreter.

(** C6, as the claim states it, fails for the repository parser: it keeps
    the match whose title is "learn", five characters long, which the minimum
    of the video parser (a title longer than 15 characters) would discard. *)
Lemma github_parser_has_no_length_test :
  map title
    (_parse_github_results (fun _ => [("/octo/learn", "learn")])
       (fun _ _ _ => 4.5%float) (fun _ _ _ => 100) "<html>" "python" 0).1
  = [Some "GitHub: learn"]
  /\ PyStr.len "learn" = 5
  /\ ~ (forall (python : Interpreter)
          (findall_repo : string -> list (string * string))
          (random_uniform : nat -> float -> float -> float)
          (random_randint : nat -> Z -> Z -> Z)
          (html_content search_term : string) (k : nat),
          Forall2 (from_repo search_term)
            (_parse_github_results findall_repo random_uniform random_randint
               html_content search_term k).1
            (List.filter (fun m => (15 <? PyStr.len m.2) && github_keeps m.2)
               (take 2 (findall_repo html_content)))).
Proof.
  split; [vm_compute; reflexivity|]. split; [reflexivity|].
  intros H.
  specialize (H ascii_interpreter (fun _ => [("/octo/learn", "learn")])
                (fun _ _ _ => 4.5%float) (fun _ _ _ => 100) "<html>" "python" 0%nat).
  apply Forall2_length in H. vm_compute in H. discriminate H.
Qed.

(** The length of a title is counted in characters, not in bytes: a title
    of 15 characters is not longer than 15 characters. *)
Lemma youtube_length_in_characters :
  PyStr.len "Learn café ñand" = 15
  /\ String.length "Learn café ñand" = 17%nat
  /\ (15 <? PyStr.len "Learn café ñand") = false.
Proof. repeat split; vm_compute; reflexivity. Qed.

End Examples.

End ParserFacts.

(** ** The cache and the search *)

Module SearchFacts.
Import CourseSearch.

(** The look-up that [search_courses] starts with: the entry of the key is
    deleted when it is too old, and its courses are the result when it is
    still valid. [now_old] and [now_valid] are the two readings of the clock.
    The second component is the cache after the look-up. *)
Definition cache_get (course_cache : Cache) (cache_key : string) (now_old now_valid : Z)
  : option (list Course) * Cache :=
  let cache := evict_if_too_old course_cache cache_key now_old in
  (if _is_cache_valid cache cache_key now_valid
   then courses <$> cache !! cache_key else None,
   cache).

Section Scores.

Context `{python : Interpreter}.

(** A course of the pool with its score stored. *)
Definition scored_from (career : string) (f c : Course) : Prop :=
  exists s, raw_score f career = Some s /\ c = set_score f (PyFloat.round s 2).

Lemma too_old_after_put (cache : Cache) (key : string) (v : list Course) (t now : Z) :
  _is_cache_too_old (cache_put cache key v t) key now = (one_week <? now - t).
Proof.
  unfold _is_cache_too_old, cache_put. rewrite lookup_insert_eq. reflexivity.
Qed.

Lemma valid_after_put (cache : Cache) (key : string) (v : list Course) (t now : Z) :
  _is_cache_valid (cache_put cache key v t) key now = (now - t <? one_week).
Proof.
  unfold _is_cache_valid, cache_put. rewrite lookup_insert_eq. reflexivity.
Qed.

Lemma evict_absent (cache : Cache) (key : string) (now : Z) :
  cache !! key = None -> evict_if_too_old cache key now = cache.
Proof.
  intros H. unfold evict_if_too_old, _is_cache_too_old. rewrite H. reflexivity.
Qed.

Lemma valid_absent (cache : Cache) (key : string) (now : Z) :
  cache !! key = None -> _is_cache_valid cache key now = false.
Proof.
  intros H. unfold _is_cache_valid. rewrite H. reflexivity.
Qed.

Lemma relevance_values (c : Course) (career : string) :
  _calculate_relevance_score c career = 2.0%float
  \/ _calculate_relevance_score c career = 1.5%float
  \/ _calculate_relevance_score c career = 0.5%float.
Proof.
  unfold _calculate_relevance_score.
  destruct (PyStr.contains _ _); [left; reflexivity|].
  destruct (existsb _ _); [right; left; reflexivity|right; right; reflexivity].
Qed.

(** The ranking of the two fallback courses: it does not raise, and it
    returns the two courses, scored, the greater score first. *)
Lemma rank_fallback (career level : string) :
  exists a b f g,
    _rank_courses (_get_fallback_courses career level) level career = Some [a; b]
    /\ [f; g] ≡ₚ _get_fallback_courses career level
    /\ scored_from career f a /\ scored_from career g b
    /\ PyFloat.ge (score a) (score b) = true.
Proof.
  unfold _get_fallback_courses.
  set (f1 := {| title := Some ("Introduction to " +:+ _); provider := "Career Guidance" |}).
  set (f2 := {| title := Some (career +:+ _); provider := "Skills Academy" |}).
  assert (R1 : exists r, _calculate_relevance_score f1 career = r
                 /\ (r = 2.0 \/ r = 1.5 \/ r = 0.5)%float)
    by (eexists; split; [reflexivity|apply relevance_values]).
  assert (R2 : exists r, _calculate_relevance_score f2 career = r
                 /\ (r = 2.0 \/ r = 1.5 \/ r = 0.5)%float)
    by (eexists; split; [reflexivity|apply relevance_values]).
  destruct R1 as (r1 & E1 & V1). destruct R2 as (r2 & E2 & V2).
  assert (S1 : raw_score f1 career = Some (0 + 0.8 + 4.5 * 1.5 + 0.2 + 2.0 + r1)%float).
  { unfold raw_score. rewrite E1. reflexivity. }
  assert (S2 : raw_score f2 career = Some (0 + 0.8 + 4.3 * 1.5 + 0.3 + 2.0 + r2)%float).
  { unfold raw_score. rewrite E2. reflexivity. }
  unfold _rank_courses. cbn [mapM]. unfold score_course.
  rewrite S1, S2. cbn [mbind option_bind mret option_ret].
  unfold sorted_desc, stable_desc, all_numbers.
  cbn [forallb foldr insert_desc score set_score].
  destruct V1 as [ -> | [ -> | -> ] ]; destruct V2 as [ -> | [ -> | -> ] ];
    repeat lazymatch goal with
    | |- context [PyFloat.is_nan ?x] =>
        let v := eval vm_compute in (PyFloat.is_nan x) in
        change (PyFloat.is_nan x) with v
    end;
    cbn [negb andb];
    lazymatch goal with
    | |- context [PyFloat.lt ?x ?y] =>
        let v := eval vm_compute in (PyFloat.lt x y) in
        change (PyFloat.lt x y) with v
    end;
    cbv iota; do 2 eexists;
    first
      [ exists f1, f2;
        split; [reflexivity|]; split; [reflexivity|];
        split; [eexists; split; [exact S1|reflexivity]|];
        split; [eexists; split; [exact S2|reflexivity]|];
        vm_compute; reflexivity
      | exists f2, f1;
        split; [reflexivity|]; split; [apply perm_swap|];
        split; [eexists; split; [exact S2|reflexivity]|];
        split; [eexists; split; [exact S1|reflexivity]|];
        vm_compute; reflexivity ].
Qed.

End Scores.

Section Search.

Context `{python : Interpreter}.

Variable set_order : list string -> list string.
Variable findall_video findall_repo : string -> list (string * string).
Variable urlopen_youtube urlopen_github : string -> option string.
Variable random_uniform : nat -> float -> float -> float.
Variable random_randint : nat -> Z -> Z -> Z.

Local Abbreviation search :=
  (search_courses set_order findall_video findall_repo urlopen_youtube
     urlopen_github random_uniform random_randint).
Local Abbreviation gathered :=
  (gather set_order findall_video findall_repo urlopen_youtube
     urlopen_github random_uniform random_randint).
Local Abbreviation youtube :=
  (_search_youtube set_order findall_video urlopen_youtube random_uniform
     random_randint).
Local Abbreviation github :=
  (_search_github set_order findall_repo urlopen_github random_uniform
     random_randint).

(** *** The size of the pool *)

Lemma youtube_matches_length (matches : list (string * string)) (term : string) (k : nat) :
  (length (youtube_matches random_uniform random_randint matches term k).1
   <= length matches)%nat.
Proof.
  revert k. induction matches as [|[v t] rest IH]; intros k; simpl; [lia|].
  destruct (youtube_keeps t).
  - specialize (IH (k + 3)%nat).
    destruct (youtube_matches random_uniform random_randint rest term (k + 3)).
    simpl in *. lia.
  - specialize (IH k). lia.
Qed.

Lemma github_matches_length (matches : list (string * string)) (term : string) (k : nat) :
  (length (github_matches random_uniform random_randint matches term k).1
   <= length matches)%nat.
Proof.
  revert k. induction matches as [|[v t] rest IH]; intros k; simpl; [lia|].
  destruct (github_keeps t).
  - specialize (IH (k + 2)%nat).
    destruct (github_matches random_uniform random_randint rest term (k + 2)).
    simpl in *. lia.
  - specialize (IH k). lia.
Qed.

Lemma search_terms_loop_length (urlopen : string -> option string)
  (parse : string -> string -> nat -> list Course * nat) (n : nat)
  (terms : list string) (k : nat) :
  (forall html term k, (length (parse html term k).1 <= n)%nat) ->
  (length (search_terms_loop urlopen parse terms k).1 <= n * length terms)%nat.
Proof.
  intros Hparse. revert k. induction terms as [|term rest IH]; intros k; simpl; [lia|].
  destruct (urlopen term) as [html|].
  - specialize (Hparse html term k). destruct (parse html term k) as [found k1].
    specialize (IH k1). destruct (search_terms_loop urlopen parse rest k1) as [cs k2].
    simpl in *. rewrite length_app. lia.
  - specialize (IH k). lia.
Qed.

(** The providers never bring 20 courses: at most three for each of two
    video queries and two for one repository query. *)
Lemma pool_below_minimum (career level : string) (k k' : nat) :
  (length ((youtube career level k).1 ++ (github career level k').1) <= 8)%nat.
Proof.
  rewrite length_app.
  assert (Hy : (length (youtube career level k).1 <= 3 * 2)%nat).
  { unfold _search_youtube.
    etransitivity; [apply (search_terms_loop_length _ _ 3)|].
    - intros html term j. unfold _parse_youtube_results.
      etransitivity; [apply youtube_matches_length|]. rewrite length_take. lia.
    - rewrite length_take. lia. }
  assert (Hg : (length (github career level k').1 <= 2 * 1)%nat).
  { unfold _search_github.
    etransitivity; [apply (search_terms_loop_length _ _ 2)|].
    - intros html term j. unfold _parse_github_results.
      etransitivity; [apply github_matches_length|]. rewrite length_take. lia.
    - rewrite length_take. lia. }
  lia.
Qed.

Lemma gather_adds_fallback (career level : string) (k : nat) :
  (gathered career level k).1
  = ((youtube career level k).1 ++ (github career level (youtube career level k).2).1)
      ++ _get_fallback_courses career level.
Proof.
  unfold gather.
  pose proof (pool_below_minimum career level k (youtube career level k).2) as Hlen.
  destruct (youtube career level k) as [ys k1]. simpl in *.
  destruct (github career level k1) as [gs k2]. simpl in *.
  destruct (Z.ltb_spec (Z.of_nat (length (ys ++ gs))) 20) as [_|Hge]; [reflexivity|lia].
Qed.

(** *** The cache round trip *)

(** C4. For every key (career, level) and every ranked list [v] put in the
    cache at time [t]: a look-up made while the age of the entry is under one
    week, at both readings of the clock, returns exactly [v] and leaves the
    cache as it is, and so does [search_courses]; a look-up made when the age
    exceeds one week deletes the entry from the store and misses, a later
    look-up of the key misses too, and [search_courses] runs as if the entry
    had never been stored, so the expired list is never returned. *)
Theorem cache_round_trip (cache : Cache) (career level : string)
  (v : list Course) (t now_old now_valid now_store : Z) (k : nat) :
  let key := cache_key_of career level in
  let stored := cache_put cache key v t in
  (now_old - t < one_week -> now_valid - t < one_week ->
   cache_get stored key now_old now_valid = (Some v, stored)
   /\ search {| course_cache := stored; random_calls := k |}
        career level now_old now_valid now_store
      = Some (v, {| course_cache := stored; random_calls := k |}))
  /\ (one_week < now_old - t ->
      cache_get stored key now_old now_valid = (None, delete key cache)
      /\ delete key cache !! key = None
      /\ (forall n1 n2, cache_get (delete key cache) key n1 n2 = (None, delete key cache))
      /\ search {| course_cache := stored; random_calls := k |}
           career level now_old now_valid now_store
         = search {| course_cache := delete key cache; random_calls := k |}
             career level now_old now_valid now_store).
Proof.
  intros key stored. split.
  - intros Hold Hvalid.
    assert (He : evict_if_too_old stored key now_old = stored).
    { unfold evict_if_too_old. subst stored. rewrite too_old_after_put.
      destruct (Z.ltb_spec one_week (now_old - t)); [lia|reflexivity]. }
    assert (Hv : _is_cache_valid stored key now_valid = true).
    { subst stored. rewrite valid_after_put. apply Z.ltb_lt. exact Hvalid. }
    assert (Hl : stored !! key = Some {| courses := v; timestamp := t |}).
    { subst stored. unfold cache_put. apply lookup_insert_eq. }
    split.
    + unfold cache_get. rewrite He, Hv, Hl. reflexivity.
    + unfold search_courses. cbn [course_cache random_calls]. fold key.
      rewrite He, Hv, Hl. reflexivity.
  - intros Hold.
    assert (He : evict_if_too_old stored key now_old = delete key cache).
    { unfold evict_if_too_old. subst stored. rewrite too_old_after_put.
      destruct (Z.ltb_spec one_week (now_old - t)); [|lia].
      unfold cache_put. apply delete_insert_eq. }
    assert (Hd : delete key cache !! key = None) by apply lookup_delete_eq.
    assert (Hg : forall n1 n2,
               cache_get (delete key cache) key n1 n2 = (None, delete key cache)).
    { intros n1 n2. unfold cache_get.
      rewrite (evict_absent _ _ _ Hd), (valid_absent _ _ _ Hd). reflexivity. }
    split; [|split; [exact Hd|split; [exact Hg|]]].
    + unfold cache_get. rewrite He, (valid_absent _ _ _ Hd). reflexivity.
    + unfold search_courses. cbn [course_cache random_calls]. fold key.
      rewrite He, (evict_absent _ _ _ Hd). reflexivity.
Qed.

(** A fresh search puts its result in the cache, with the time of the
    store. *)
Lemma fresh_search_puts (agent : Agent) (career level : string)
  (now_old now_valid now_store : Z) (top : list Course) (agent' : Agent) :
  let key := cache_key_of career level in
  let cache := evict_if_too_old (course_cache agent) key now_old in
  _is_cache_valid cache key now_valid = false ->
  search agent career level now_old now_valid now_store = Some (top, agent') ->
  course_cache agent' = cache_put cache key top now_store.
Proof.
  intros key cache Hv. unfold search_courses. fold key. fold cache. rewrite Hv.
  destruct (gathered career level (random_calls agent)) as [pool k'].
  destruct (_rank_courses pool level career) as [ranked|]; simpl; [|discriminate].
  intros [= <- <-]. reflexivity.
Qed.

(** *** The fallback *)

(** C5. The fallback courses are added whenever the providers bring fewer
    than 20 courses, which is always the case. When the cache holds no valid
    entry and both providers bring nothing, [search_courses] does not raise:
    it returns exactly two courses, the two fallback courses with their
    scores stored, the greater score first, and stores them in the cache. *)
Theorem fallback_guarantee (agent : Agent) (career level : string)
  (now_old now_valid now_store : Z) :
  let key := cache_key_of career level in
  let cache := evict_if_too_old (course_cache agent) key now_old in
  let k := random_calls agent in
  (forall j,
     Z.of_nat (length ((youtube career level j).1
                       ++ (github career level (youtube career level j).2).1)) < 20
     /\ (gathered career level j).1
        = ((youtube career level j).1 ++ (github career level (youtube career level j).2).1)
            ++ _get_fallback_courses career level)
  /\ (_is_cache_valid cache key now_valid = false ->
      (youtube career level k).1 = [] ->
      (github career level (youtube career level k).2).1 = [] ->
      exists a b f g agent',
        search agent career level now_old now_valid now_store = Some ([a; b], agent')
        /\ [f; g] ≡ₚ _get_fallback_courses career level
        /\ scored_from career f a /\ scored_from career g b
        /\ PyFloat.ge (score a) (score b) = true
        /\ course_cache agent' = cache_put cache key [a; b] now_store).
Proof.
  intros key cache k. split.
  - intros j. split; [|apply gather_adds_fallback].
    pose proof (pool_below_minimum career level j (youtube career level j).2). lia.
  - intros Hv Hy Hg.
    destruct (rank_fallback career level) as (a & b & f & g & Hr & Hp & Ha & Hb & Hab).
    pose proof (gather_adds_fallback career level k) as Hpool.
    rewrite Hy, Hg in Hpool. simpl in Hpool.
    unfold search_courses. fold key. fold cache. rewrite Hv. fold k.
    destruct (gathered career level k) as [pool k']. simpl in Hpool. subst pool.
    rewrite Hr. simpl.
    exists a, b, f, g. eexists. split; [reflexivity|].
    repeat (split; [assumption|]). reflexivity.
Qed.

End Search.

(** Providers that always fail, and a generator that always draws the same
    values. *)
Definition no_response (term : string) : option string := None.
Definition no_match (html : string) : list (string * string) := [].
Definition fixed_uniform (k : nat) (a b : float) : float := a.
Definition fixed_randint (k : nat) (a b : Z) : Z := a.

Section Examples.

#[local] Existing Instance ascii_interpreter.

Lemma cache_round_trip_witness :
  search_courses remove_dups no_match no_match no_response no_response
    fixed_uniform fixed_randint
    {| course_cache :=
         cache_put ∅ (cache_key_of "Engineer" "beginner")
           (_get_fallback_courses "Engineer" "beginner") 1000;
       random_calls := 0 |}
    "Engineer" "beginner" 2000 3000 4000
  = Some (_get_fallback_courses "Engineer" "beginner",
          {| course_cache :=
               cache_put ∅ (cache_key_of "Engineer" "beginner")
                 (_get_fallback_courses "Engineer" "beginner") 1000;
             random_calls := 0 |})
  /\ cache_get
       (cache_put ∅ (cache_key_of "Engineer" "beginner")
          (_get_fallback_courses "Engineer" "beginner") 1000)
       (cache_key_of "Engineer" "beginner") (1001 + one_week) (1001 + one_week)
     = (None, delete (cache_key_of "Engineer" "beginner") ∅).
Proof.
  split.
  - apply (cache_round_trip remove_dups no_match no_match no_response no_response
             fixed_uniform fixed_randint ∅ "Engineer" "beginner"
             (_get_fallback_courses "Engineer" "beginner") 1000 2000 3000 4000 0).
    + unfold one_week. lia.
    + unfold one_week. lia.
  - apply (cache_round_trip remove_dups no_match no_match no_response no_response
             fixed_uniform fixed_randint ∅ "Engineer" "beginner"
             (_get_fallback_courses "Engineer" "beginner") 1000
             (1001 + one_week) (1001 + one_week) 0 0).
    unfold one_week. lia.
Defined.

Lemma fallback_guarantee_witness :
  exists a b f g agent',
    search_courses remove_dups no_match no_match no_response no_response
      fixed_uniform fixed_randint
      {| course_cache := ∅; random_calls := 0 |} "Engineer" "beginner" 10 20 30
    = Some ([a; b], agent')
    /\ [f; g] ≡ₚ _get_fallback_courses "Engineer" "beginner"
    /\ scored_from "Engineer" f a /\ scored_from "Engineer" g b
    /\ PyFloat.ge (score a) (score b) = true
    /\ course_cache agent'
       = cache_put
           (evict_if_too_old ∅ (cache_key_of "Engineer" "beginner") 10)
           (cache_key_of "Engineer" "beginner") [a; b] 30.
Proof.
  apply (fallback_guarantee remove_dups no_match no_match no_response no_response
           fixed_uniform fixed_randint
           {| course_cache := ∅; random_calls := 0 |} "Engineer" "beginner" 10 20 30).
  - reflexivity.
  - reflexivity.
  - reflexivity.
Defined.

End Examples.

End SearchFacts.

(** ** The score as a function of the rating and of the price *)

Module ScoreFacts.
Import CourseSearch FloatMono Rounding.

(** The course with another rating, and with another price; a price of
    [None] is an absent key. *)
Definition with_rating (c : Course) (r : float) : Course :=
  {| title := title c; url := url c; provider := provider c;
     level := level c; rating := Some r; duration := duration c;
     instructors := instructors c;
     enrollment_count := enrollment_count c; price := price c;
     language := language c; score := score c;
     searched_for := searched_for c |}.

Definition with_price (c : Course) (p : option string) : Course :=
  {| title := title c; url := url c; provider := provider c;
     level := level c; rating := rating c; duration := duration c;
     instructors := instructors c;
     enrollment_count := enrollment_count c; price := p;
     language := language c; score := score c;
     searched_for := searched_for c |}.

(** The score before rounding, from the rating term [t], the enrollment
    term [e], the price term [p] and the relevance term [v] of a course
    of provider term [a]. *)
Definition total (a t e p v : float) : float := (0 + a + t + e + p + v)%float.

(** *** The rounded total in hundredths *)

(** The decimal with two places nearest to a float, counted in
    hundredths, and the float nearest to a number of hundredths. *)
Definition hundredths (x : float) : Z :=
  match Prim2SF x with
  | S754_finite s m e => cond_Zopp s (PyFloat.nearest_even_scaled m e 100)
  | _ => 0
  end.

Definition of_hundredths (n : Z) : float := SF2Prim (PyFloat.nearest_quotient n 100).

Lemma positive_between (x : float) :
  PyFloat.le 1.5 x = true -> PyFloat.le x 15 = true ->
  exists m e, Prim2SF x = S754_finite false m e.
Proof.
  unfold PyFloat.le. rewrite !FloatAxioms.leb_spec.
  destruct (Prim2SF x) as [s|s| |s m e]; intros Hlo Hhi.
  - vm_compute in Hlo. discriminate Hlo.
  - destruct s; [vm_compute in Hlo; discriminate Hlo|vm_compute in Hhi; discriminate Hhi].
  - vm_compute in Hlo. discriminate Hlo.
  - destruct s; [vm_compute in Hlo; discriminate Hlo|eauto].
Qed.

Lemma hundredths_mono (x y : float) (mx my : positive) (ex ey : Z) :
  Prim2SF x = S754_finite false mx ex -> Prim2SF y = S754_finite false my ey ->
  PyFloat.le x y = true -> hundredths x <= hundredths y.
Proof.
  intros Ex Ey Hle. unfold hundredths. rewrite Ex, Ey. cbn [cond_Zopp].
  set (e0 := Z.min 0 (Z.min ex ey)).
  rewrite (nearest_even_scaled_pos mx ex 100 e0) by lia.
  rewrite (nearest_even_scaled_pos my ey 100 e0) by lia.
  change (nearest 100 e0 (sval e0 (S754_finite false mx ex))
          <= nearest 100 e0 (sval e0 (S754_finite false my ey))).
  apply (nearest_mono 0); [lia|].
  unfold PyFloat.le in Hle. apply FloatOrder.leb_key in Hle.
  destruct Hle as (kx & ky & Kx & Ky & Hk).
  rewrite <- Ex, <- Ey.
  apply (sval_le FloatOps.prec FloatOps.emax prec_pos _ _ e0 kx ky);
    try apply Prim2SF_valid; try assumption.
  - rewrite Ex. reflexivity.
  - rewrite Ey. reflexivity.
  - rewrite Ex. cbn [above]. lia.
  - rewrite Ey. cbn [above]. lia.
Qed.

Lemma hundredths_between (x y : float) :
  PyFloat.le 1.5 x = true -> PyFloat.le x y = true -> PyFloat.le y 15 = true ->
  150 <= hundredths x <= hundredths y.
Proof.
  intros Hlo Hxy Hhi.
  destruct (positive_between x Hlo (le_trans _ _ _ Hxy Hhi)) as (mx & ex & Ex).
  destruct (positive_between y (le_trans _ _ _ Hlo Hxy) Hhi) as (my & ey & Ey).
  split; [|exact (hundredths_mono x y mx my ex ey Ex Ey Hxy)].
  change 150 with (hundredths 1.5).
  eapply (hundredths_mono 1.5 x); [vm_compute; reflexivity|exact Ex|exact Hlo].
Qed.

(** A rounded score is the float nearest to its hundredths. *)
Lemma round_of_hundredths (x : float) :
  PyFloat.le 1.5 x = true -> PyFloat.le x 15 = true ->
  PyFloat.round x 2 = of_hundredths (hundredths x).
Proof.
  intros Hlo Hhi.
  assert (Hx : PyFloat.le x x = true).
  { apply FloatOrder.leb_refl. apply (le_not_nan x 15 Hhi). }
  destruct (hundredths_between x x Hlo Hx Hhi) as [Hn _].
  destruct (positive_between x Hlo Hhi) as (m & e & E).
  revert Hn. unfold PyFloat.round, hundredths. rewrite E. cbn [cond_Zopp].
  change (10 ^ Z.of_N 2) with 100.
  destruct (PyFloat.nearest_even_scaled m e 100) as [|n|n]; try lia.
  intros _. reflexivity.
Qed.

(** The hundredths of the float nearest to a number of hundredths are
    that number, from 1.50 to 15.00. *)
Lemma hundredths_of_hundredths (n : Z) :
  150 <= n <= 1500 -> hundredths (of_hundredths n) = n.
Proof.
  intros Hn.
  assert (Hall : forallb (fun k => hundredths (of_hundredths k) =? k) (seqZ 150 1351) = true)
    by (vm_compute; reflexivity).
  rewrite forallb_forall in Hall. apply Z.eqb_eq, Hall.
  apply list_elem_of_In, elem_of_seqZ. lia.
Qed.

(** [h - g] stays within one of [d] between the points of a grid, for
    two functions that do not decrease between [L] and [U]. *)
Section Near.

Variables (g h : float -> Z) (L U : float) (d : Z).

Hypothesis Hg : forall x y,
  PyFloat.le L x = true -> PyFloat.le x y = true -> PyFloat.le y U = true -> g x <= g y.
Hypothesis Hh : forall x y,
  PyFloat.le L x = true -> PyFloat.le x y = true -> PyFloat.le y U = true -> h x <= h y.

Fixpoint near_on (lo : float) (grid : list float) : bool :=
  match grid with
  | [] => PyFloat.le lo lo && (d - 1 <=? h lo - g lo) && (h lo - g lo <=? d + 1)
  | b :: rest =>
      PyFloat.le lo b && (h b - g lo <=? d + 1) && (d - 1 <=? h lo - g b)
      && near_on b rest
  end.

Lemma near_on_chain (grid : list float) (lo : float) :
  near_on lo grid = true -> PyFloat.le lo (last_point lo grid) = true.
Proof.
  revert lo. induction grid as [|b rest IH]; intros lo Hn; cbn [near_on last_point] in *.
  - apply andb_true_iff in Hn. destruct Hn as [Hn _].
    apply andb_true_iff in Hn. apply Hn.
  - apply andb_true_iff in Hn. destruct Hn as [Hn Hr].
    apply andb_true_iff in Hn. destruct Hn as [Hn _].
    apply andb_true_iff in Hn. destruct Hn as [Hb _].
    exact (le_trans _ _ _ Hb (IH b Hr)).
Qed.

Lemma near_between (grid : list float) (lo x : float) :
  near_on lo grid = true ->
  PyFloat.le L lo = true -> PyFloat.le (last_point lo grid) U = true ->
  PyFloat.le lo x = true -> PyFloat.le x (last_point lo grid) = true ->
  d - 1 <= h x - g x <= d + 1.
Proof.
  revert lo. induction grid as [|b rest IH]; intros lo Hn HL HU Hlo Hhi;
    cbn [near_on last_point] in *.
  - apply andb_true_iff in Hn. destruct Hn as [Hn H2].
    apply andb_true_iff in Hn. destruct Hn as [_ H1].
    apply Z.leb_le in H1, H2.
    pose proof (Hg lo x HL Hlo (le_trans _ _ _ Hhi HU)).
    pose proof (Hg x lo (le_trans _ _ _ HL Hlo) Hhi HU).
    pose proof (Hh lo x HL Hlo (le_trans _ _ _ Hhi HU)).
    pose proof (Hh x lo (le_trans _ _ _ HL Hlo) Hhi HU).
    lia.
  - apply andb_true_iff in Hn. destruct Hn as [Hn Hr].
    apply andb_true_iff in Hn. destruct Hn as [Hn H2].
    apply andb_true_iff in Hn. destruct Hn as [Hb H1].
    apply Z.leb_le in H1, H2.
    pose proof (near_on_chain rest b Hr) as Hchain.
    assert (HbU : PyFloat.le b U = true) by exact (le_trans _ _ _ Hchain HU).
    destruct (le_total x b) as [Hx|Hx].
    + apply (le_not_nan lo x Hlo).
    + apply (le_not_nan lo b Hb).
    + pose proof (Hg lo x HL Hlo (le_trans _ _ _ Hx HbU)).
      pose proof (Hg x b (le_trans _ _ _ HL Hlo) Hx HbU).
      pose proof (Hh lo x HL Hlo (le_trans _ _ _ Hx HbU)).
      pose proof (Hh x b (le_trans _ _ _ HL Hlo) Hx HbU).
      lia.
    + apply (IH b Hr (le_trans _ _ _ HL Hb) HU Hx Hhi).
Qed.

End Near.

(** The hundredths of the rounded total with the price term 0.5 and with
    the price term 2.0, from the sum [x] of the terms before the price and
    the relevance [v]. *)
Definition paid_hundredths (v x : float) : Z := hundredths (x + 0.5 + v).
Definition free_hundredths (v x : float) : Z := hundredths (x + 2.0 + v).

(** The sums at which a rounded total passes from one decimal to the next
    lie near the odd multiples of 0.005: the grid holds a point on each side
    of every one of them between 0.5 and 11. *)
Definition tie_near (j : Z) : float :=
  (PrimFloat.of_uint63 (Uint63.of_Z (2 * j + 1)) / 200)%float.
Definition gain_grid : list float :=
  (flat_map (fun j => [tie_near j - 0.000000001; tie_near j + 0.000000001]%float)
     (seqZ 50 1050) ++ [11.0%float])%list.

Lemma gain_within (v x : float) :
  v = 2.0%float \/ v = 1.5%float \/ v = 0.5%float ->
  PyFloat.le 0.5 x = true -> PyFloat.le x 11.0 = true ->
  149 <= free_hundredths v x - paid_hundredths v x <= 151.
Proof.
  intros Hv Hlo Hhi.
  assert (Fv : finite v = true) by (destruct Hv as [ -> | [ -> | -> ] ]; reflexivity).
  assert (Hmono : forall c : float,
            c = 0.5%float \/ c = 2.0%float ->
            forall a b : float,
              PyFloat.le 0.5 a = true -> PyFloat.le a b = true -> PyFloat.le b 11.0 = true ->
              hundredths (a + c + v) <= hundredths (b + c + v)).
  { intros c Hc a b Ha Hab Hb.
    assert (Fc : finite c = true) by (destruct Hc as [ -> | -> ]; reflexivity).
    apply hundredths_between.
    - apply (le_trans _ (0.5 + c + v)%float).
      + destruct Hc as [ -> | -> ]; destruct Hv as [ -> | [ -> | -> ] ];
          vm_compute; reflexivity.
      + apply add_mono_l; [exact Fv|]. apply add_mono_l; [exact Fc|exact Ha].
    - apply add_mono_l; [exact Fv|]. apply add_mono_l; [exact Fc|exact Hab].
    - apply (le_trans _ (11.0 + c + v)%float).
      + apply add_mono_l; [exact Fv|]. apply add_mono_l; [exact Fc|exact Hb].
      + destruct Hc as [ -> | -> ]; destruct Hv as [ -> | [ -> | -> ] ];
          vm_compute; reflexivity. }
  change 149 with (150 - 1). change 151 with (150 + 1).
  apply (near_between (paid_hundredths v) (free_hundredths v) 0.5 11.0 150
           (Hmono 0.5%float (or_introl eq_refl)) (Hmono 2.0%float (or_intror eq_refl))
           gain_grid 0.5%float x); try assumption.
  - destruct Hv as [ -> | [ -> | -> ] ]; vm_compute; reflexivity.
  - reflexivity.
  - vm_compute. reflexivity.
Qed.

(** *** The terms of the score *)

Section Scores.

Context `{python : Interpreter}.

Lemma provider_score_bounds (provider : string) :
  finite (0 + _get_provider_score provider) = true
  /\ PyFloat.le 0.5 (0 + _get_provider_score provider) = true
  /\ PyFloat.le (0 + _get_provider_score provider) 1.5 = true.
Proof.
  unfold _get_provider_score. cbn [dict_get].
  repeat match goal with |- context [String.eqb ?a ?b] => destruct (String.eqb a b) end;
    repeat split; reflexivity.
Qed.

Lemma relevance_cases (c : Course) (career : string) :
  _calculate_relevance_score c career = 2.0%float
  \/ _calculate_relevance_score c career = 1.5%float
  \/ _calculate_relevance_score c career = 0.5%float.
Proof.
  unfold _calculate_relevance_score.
  destruct (PyStr.contains _ _); [auto|]. destruct (existsb _ _); auto.
Qed.

Lemma relevance_finite (c : Course) (career : string) :
  finite (_calculate_relevance_score c career) = true.
Proof.
  destruct (relevance_cases c career) as [ -> | [ -> | -> ] ]; reflexivity.
Qed.

Lemma price_cases (c : Course) :
  price_score c = if decide (price c = Some "Free") then 2.0%float else 0.5%float.
Proof.
  unfold price_score. destruct (price c) as [p|].
  - destruct (String.eqb_spec p "Free") as [->|Hne].
    + rewrite decide_True; reflexivity.
    + rewrite decide_False; [reflexivity|congruence].
  - rewrite decide_False; [reflexivity|congruence].
Qed.

Lemma price_finite (c : Course) : finite (price_score c) = true.
Proof. rewrite price_cases. destruct (decide _); reflexivity. Qed.

Lemma fifty_thousand_fits :
  Zdigits2 50000 + FloatOps.prec + SpecFloat.emin FloatOps.prec FloatOps.emax <= 1.
Proof. vm_compute. discriminate. Qed.

Lemma min_two (q : float) :
  finite q = true ->
  finite (PyFloat.min q 2.0) = true
  /\ PyFloat.le (PyFloat.min q 2.0) 2.0 = true
  /\ (PyFloat.le 0 q = true -> PyFloat.le 0 (PyFloat.min q 2.0) = true).
Proof.
  intros Fq. unfold PyFloat.min, PyFloat.lt. destruct (PrimFloat.ltb 2.0 q) eqn:E.
  - repeat split; reflexivity.
  - repeat split; [exact Fq| |auto].
    apply FloatOrder.leb_total; [reflexivity| |exact E].
    unfold finite in Fq. unfold PyFloat.is_nan. rewrite FloatAxioms.eqb_spec.
    destruct (Prim2SF q) as [[]|[]| |[] m e]; try discriminate; cbn;
      rewrite ?Z.compare_refl, ?Pos.compare_cont_refl; reflexivity.
Qed.

Lemma enrollment_score_bounds (c : Course) (e : float) :
  enrollment_score c = Some e ->
  finite e = true /\ PyFloat.le e 2.0 = true
  /\ (0 <= default 0 (enrollment_count c) -> PyFloat.le 0 e = true).
Proof.
  unfold enrollment_score.
  destruct (PyFloat.int_true_div (default 0 (enrollment_count c)) 50000) as [q|] eqn:E;
    [|discriminate].
  cbn. intros [= <-].
  destruct (int_true_div_finite _ 50000%positive q fifty_thousand_fits E) as [Fq Hq].
  destruct (min_two q Fq) as (H1 & H2 & H3). auto.
Qed.

Lemma score_course_of_total (career : string) (c : Course) (e : float) :
  enrollment_score c = Some e ->
  score_course career c
  = Some (set_score c (PyFloat.round
       (total (_get_provider_score (provider c)) (rating_score c) e (price_score c)
          (_calculate_relevance_score c career)) 2)).
Proof.
  intros E. unfold score_course, raw_score. rewrite E. reflexivity.
Qed.

(** The rounded total does not decrease with the rating term. *)
Lemma total_mono_rating (a t1 t2 e p v : float) :
  finite (0 + a) = true -> finite e = true -> finite p = true -> finite v = true ->
  PyFloat.le t1 t2 = true ->
  PyFloat.le (PyFloat.round (total a t1 e p v) 2) (PyFloat.round (total a t2 e p v) 2) = true.
Proof.
  intros Fa Fe Fp Fv H. unfold total.
  apply round_mono. do 3 (apply add_mono_l; [assumption|]).
  apply add_mono_r; assumption.
Qed.

Lemma total_mono_price (a t e p1 p2 v : float) :
  finite (0 + a) = true -> finite e = true -> finite v = true ->
  finite p1 = true -> finite p2 = true ->
  PyFloat.is_nan t = false -> PyFloat.le p1 p2 = true ->
  PyFloat.le (PyFloat.round (total a t e p1 v) 2) (PyFloat.round (total a t e p2 v) 2) = true.
Proof.
  intros Fa Fe Fv F1 F2 Ht H. unfold total.
  apply round_mono. apply add_mono_l; [assumption|].
  apply add_mono_number; try assumption.
  apply (le_not_nan (0 + a + t + e) (0 + a + t + e)).
  apply add_mono_l; [assumption|]. apply add_mono_r; [assumption|].
  apply FloatOrder.leb_refl, Ht.
Qed.

(** Between 0.5 and 11 the rounded total with the price term 2.0 is
    strictly above the one with the price term 0.5. *)
Definition paid_from (v x : float) : float := PyFloat.round (x + 0.5 + v) 2.
Definition free_from (v x : float) : float := PyFloat.round (x + 2.0 + v) 2.

Definition grid : list float :=
  [1.5; 2.5; 3.5; 4.5; 5.5; 6.5; 7.5; 8.5; 9.5; 10.5; 11.0]%float.

Lemma free_above_paid (v x : float) :
  v = 2.0%float \/ v = 1.5%float \/ v = 0.5%float ->
  PyFloat.le 0.5 x = true -> PyFloat.le x 11.0 = true ->
  PyFloat.lt (paid_from v x) (free_from v x) = true.
Proof.
  intros Hv Hlo Hhi.
  assert (Fv : finite v = true) by (destruct Hv as [ -> | [ -> | -> ] ]; reflexivity).
  apply (strict_between (paid_from v) (free_from v)) with (grid := grid) (lo := 0.5%float);
    try assumption.
  - intros a b Hab. unfold paid_from. apply round_mono.
    apply add_mono_l; [exact Fv|]. apply add_mono_l; [reflexivity|exact Hab].
  - intros a b Hab. unfold free_from. apply round_mono.
    apply add_mono_l; [exact Fv|]. apply add_mono_l; [reflexivity|exact Hab].
  - destruct Hv as [ -> | [ -> | -> ] ]; vm_compute; reflexivity.
Qed.

Lemma total_bounds (a t e : float) :
  finite (0 + a) = true ->
  PyFloat.le 0.5 (0 + a) = true -> PyFloat.le (0 + a) 1.5 = true ->
  PyFloat.le 0 t = true -> PyFloat.le t 7.5 = true ->
  PyFloat.le 0 e = true -> PyFloat.le e 2.0 = true ->
  PyFloat.le 0.5 (0 + a + t + e) = true /\ PyFloat.le (0 + a + t + e) 11.0 = true.
Proof.
  intros Fa La Ha Lt Ht Le He.
  assert (Ft : finite t = true) by (apply (between_finite 0 t 7.5); auto).
  assert (Fe : finite e = true) by (apply (between_finite 0 e 2.0); auto).
  assert (L1 : PyFloat.le 0.5 (0 + a + t) = true)
    by (change 0.5%float with (0.5 + 0)%float; apply add_mono; auto).
  assert (H1 : PyFloat.le (0 + a + t) 9.0 = true)
    by (change 9.0%float with (1.5 + 7.5)%float; apply add_mono; auto).
  assert (F1 : finite (0 + a + t) = true) by (apply (between_finite 0.5 _ 9.0); auto).
  split.
  - change 0.5%float with (0.5 + 0)%float. apply add_mono; auto.
  - change 11.0%float with (9.0 + 2.0)%float. apply add_mono; auto.
Qed.

(** The stored score of a course whose rating is a number is a number. *)
Lemma score_course_number (career : string) (c c' : Course) :
  score_course career c = Some c' ->
  PyFloat.is_nan (default 4.0%float (rating c)) = false ->
  PyFloat.is_nan (score c') = false.
Proof.
  intros Hc Hr. destruct (enrollment_score c) as [e|] eqn:He.
  - rewrite (score_course_of_total career c e He) in Hc. injection Hc as <-.
    cbn [score set_score].
    destruct (enrollment_score_bounds c e He) as (Fe & _ & _).
    destruct (provider_score_bounds (provider c)) as (Fa & _ & _).
    match goal with |- PyFloat.is_nan ?x = false => apply (le_not_nan x x) end.
    apply total_mono_rating; try assumption;
      [apply price_finite|apply relevance_finite|].
    unfold rating_score. eapply mul_mono; [vm_compute; reflexivity|].
    apply FloatOrder.leb_refl, Hr.
  - unfold score_course, raw_score in Hc. rewrite He in Hc. discriminate Hc.
Qed.

Lemma rating_score_bounds (r : float) :
  PyFloat.le 0 r = true -> PyFloat.le r 5 = true ->
  PyFloat.le 0 (r * 1.5) = true /\ PyFloat.le (r * 1.5) 7.5 = true.
Proof.
  intros Hlo Hhi. split.
  - change 0%float with (0 * 1.5)%float at 1.
    eapply mul_mono; [vm_compute; reflexivity|exact Hlo].
  - change 7.5%float with (5 * 1.5)%float.
    eapply mul_mono; [vm_compute; reflexivity|exact Hhi].
Qed.

(** The sum before the rounding, with either price term, lies between
    1.5 and 15. *)
Lemma priced_between (v c x : float) :
  v = 2.0%float \/ v = 1.5%float \/ v = 0.5%float ->
  c = 0.5%float \/ c = 2.0%float ->
  PyFloat.le 0.5 x = true -> PyFloat.le x 11.0 = true ->
  PyFloat.le 1.5 (x + c + v) = true /\ PyFloat.le (x + c + v) 15 = true.
Proof.
  intros Hv Hc Hlo Hhi.
  assert (Fv : finite v = true) by (destruct Hv as [ -> | [ -> | -> ] ]; reflexivity).
  assert (Fc : finite c = true) by (destruct Hc as [ -> | -> ]; reflexivity).
  split.
  - apply (le_trans _ (0.5 + c + v)%float).
    + destruct Hc as [ -> | -> ]; destruct Hv as [ -> | [ -> | -> ] ];
        vm_compute; reflexivity.
    + apply add_mono_l; [exact Fv|]. apply add_mono_l; [exact Fc|exact Hlo].
  - apply (le_trans _ (11.0 + c + v)%float).
    + apply add_mono_l; [exact Fv|]. apply add_mono_l; [exact Fc|exact Hhi].
    + destruct Hc as [ -> | -> ]; destruct Hv as [ -> | [ -> | -> ] ];
        vm_compute; reflexivity.
Qed.

(** C9 (amended). When the enrollment term of a course can be computed
    (the division of the count by 50000 does not overflow): (1) of two
    ratings the greater, in the order of the floats, gives a score that is
    no smaller, every other key of the course being the same; (2) when the
    rating is a number, the price Free gives a score that is no smaller
    than any other price or an absent price; and when moreover the rating
    lies between 0 and 5 and the enrollment count is not negative, the
    score with the price Free is strictly greater, and the two scores,
    read as decimals with two places, differ by 1.49, 1.50 or 1.51: their
    hundredths differ by 149 to 151, and each score is the float nearest
    to its hundredths. The gain is within one hundredth of 1.5, and not
    always 1.5. *)
Theorem score_monotone (c : Course) (career : string) :
  is_Some (enrollment_score c) ->
  (forall r1 r2 : float,
      PyFloat.le r1 r2 = true ->
      exists c1 c2,
        score_course career (with_rating c r1) = Some c1
        /\ score_course career (with_rating c r2) = Some c2
        /\ PyFloat.le (score c1) (score c2) = true)
  /\ (forall p : option string,
      p <> Some "Free" ->
      PyFloat.is_nan (default 4.0%float (rating c)) = false ->
      exists c1 c2,
        score_course career (with_price c p) = Some c1
        /\ score_course career (with_price c (Some "Free")) = Some c2
        /\ PyFloat.le (score c1) (score c2) = true
        /\ (PyFloat.le 0 (default 4.0%float (rating c)) = true ->
            PyFloat.le (default 4.0%float (rating c)) 5 = true ->
            0 <= default 0 (enrollment_count c) ->
            PyFloat.lt (score c1) (score c2) = true
            /\ 149 <= hundredths (score c2) - hundredths (score c1) <= 151
            /\ score c1 = of_hundredths (hundredths (score c1))
            /\ score c2 = of_hundredths (hundredths (score c2)))).
Proof.
  intros [e He].
  destruct (enrollment_score_bounds c e He) as (Fe & He2 & He0).
  destruct (provider_score_bounds (provider c)) as (Fa & La & Ha).
  pose proof (relevance_finite c career) as Fv.
  split.
  - intros r1 r2 Hr.
    exists (set_score (with_rating c r1)
              (PyFloat.round (total (_get_provider_score (provider c)) (r1 * 1.5) e
                                (price_score c) (_calculate_relevance_score c career)) 2)),
           (set_score (with_rating c r2)
              (PyFloat.round (total (_get_provider_score (provider c)) (r2 * 1.5) e
                                (price_score c) (_calculate_relevance_score c career)) 2)).
    split; [exact (score_course_of_total career (with_rating c r1) e He)|].
    split; [exact (score_course_of_total career (with_rating c r2) e He)|].
    cbn [score set_score].
    apply total_mono_rating; try assumption; [apply price_finite|].
    eapply mul_mono; [vm_compute; reflexivity|exact Hr].
  - intros p Hp Hr.
    assert (Hpaid : price_score (with_price c p) = 0.5%float).
    { rewrite price_cases. cbn [price with_price]. rewrite decide_False; auto. }
    exists (set_score (with_price c p)
              (PyFloat.round (total (_get_provider_score (provider c)) (rating_score c) e
                                0.5 (_calculate_relevance_score c career)) 2)),
           (set_score (with_price c (Some "Free"))
              (PyFloat.round (total (_get_provider_score (provider c)) (rating_score c) e
                                2.0 (_calculate_relevance_score c career)) 2)).
    split.
    { rewrite (score_course_of_total career (with_price c p) e He), Hpaid. reflexivity. }
    split; [exact (score_course_of_total career (with_price c (Some "Free")) e He)|].
    cbn [score set_score].
    assert (Ht : PyFloat.is_nan (rating_score c) = false).
    { unfold rating_score.
      apply (le_not_nan (default 4.0%float (rating c) * 1.5)
                        (default 4.0%float (rating c) * 1.5)).
      eapply mul_mono; [vm_compute; reflexivity|]. apply FloatOrder.leb_refl, Hr. }
    split.
    + apply total_mono_price; try assumption; reflexivity.
    + intros Hlo Hhi Hn.
      destruct (rating_score_bounds _ Hlo Hhi) as [Lt Ut].
      destruct (total_bounds (_get_provider_score (provider c)) (rating_score c) e
                  Fa La Ha Lt Ut (He0 Hn) He2) as [Lx Ux].
      pose proof (relevance_cases c career) as Hv.
      split.
      * exact (free_above_paid (_calculate_relevance_score c career) _ Hv Lx Ux).
      * unfold total.
        destruct (priced_between _ 0.5%float _ Hv (or_introl eq_refl) Lx Ux) as [P1 P2].
        destruct (priced_between _ 2.0%float _ Hv (or_intror eq_refl) Lx Ux) as [F1 F2].
        pose proof (gain_within _ _ Hv Lx Ux) as Hgain.
        unfold free_hundredths, paid_hundredths in Hgain.
        assert (Hback : forall y : float,
                  PyFloat.le 1.5 y = true -> PyFloat.le y 15 = true ->
                  hundredths (PyFloat.round y 2) = hundredths y).
        { intros y Y1 Y2. rewrite (round_of_hundredths y Y1 Y2).
          apply hundredths_of_hundredths.
          destruct (hundredths_between y 15 Y1 Y2 ltac:(reflexivity)) as [Hy1 Hy2].
          change (hundredths 15) with 1500 in Hy2. lia. }
        rewrite (Hback _ P1 P2), (Hback _ F1 F2).
        split; [exact Hgain|].
        split; [apply (round_of_hundredths _ P1 P2)|apply (round_of_hundredths _ F1 F2)].
Qed.

End Scores.

(** A course of the fallback list: no rating is stored with it in this
    example, so that the default of 4.0 counts. *)
Definition sample_course : Course :=
  {| title := Some "Complete Guide"; url := "https://example.com/course";
     provider := "Skills Academy"; level := "Beginner"; rating := None;
     duration := "Self-paced"; instructors := ["Industry Experts"];
     enrollment_count := Some 1250; price := Some "Paid";
     language := "English"; score := 0; searched_for := "python" |}.

Section Examples.

#[local] Existing Instance ascii_interpreter.

(** C9, as the claim states it, fails: with the provider Skills Academy,
    the default rating, 1250 enrollments and a title that does not match
    the career, the paid course scores 7.83 and the free one 9.32; the
    gain is 1.49 and not 1.5, whether it is read as a sum or as a
    difference of floats. The sums before rounding are the floats nearest
    to 7.825 and to 9.325: the first lies just above the tie and rounds up,
    the second lies just below and rounds down. *)
Lemma free_gain_not_always_1_5 :
  (exists c1 c2,
     score_course "Data Scientist" (with_price sample_course (Some "Paid")) = Some c1
     /\ score_course "Data Scientist" (with_price sample_course (Some "Free")) = Some c2
     /\ score c1 = 7.83%float /\ score c2 = 9.32%float)
  /\ hundredths 7.83 = 783 /\ hundredths 9.32 = 932
  /\ PrimFloat.eqb (7.83 + 1.5) 9.32 = false
  /\ PrimFloat.eqb (9.32 - 7.83) 1.5 = false
  /\ ~ (forall (python : Interpreter) (c : Course) (career : string)
          (p : option string) (c1 c2 : Course),
          p <> Some "Free" ->
          score_course career (with_price c p) = Some c1 ->
          score_course career (with_price c (Some "Free")) = Some c2 ->
          PrimFloat.eqb (score c1 + 1.5) (score c2) = true).
Proof.
  assert (H1 : score_course "Data Scientist" (with_price sample_course (Some "Paid"))
               = Some (set_score (with_price sample_course (Some "Paid")) 7.83))
    by (vm_compute; reflexivity).
  assert (H2 : score_course "Data Scientist" (with_price sample_course (Some "Free"))
               = Some (set_score (with_price sample_course (Some "Free")) 9.32))
    by (vm_compute; reflexivity).
  split; [do 2 eexists; split; [exact H1|]; split; [exact H2|]; split; reflexivity|].
  split; [vm_compute; reflexivity|]. split; [vm_compute; reflexivity|].
  split; [vm_compute; reflexivity|]. split; [vm_compute; reflexivity|].
  intros Hall. specialize (Hall ascii_interpreter sample_course "Data Scientist"
                             (Some "Paid") _ _ ltac:(discriminate) H1 H2).
  vm_compute in Hall. discriminate Hall.
Qed.

(** The theorem at the example: the rating 4.5 gives no less than the
    rating 4.0, and the price Free gives strictly more than the price Paid,
    a gain of 1.49, 1.50 or 1.51. *)
Lemma score_monotone_witness :
  (exists c1 c2,
     score_course "Data Scientist" (with_rating sample_course 4.0) = Some c1
     /\ score_course "Data Scientist" (with_rating sample_course 4.5) = Some c2
     /\ PyFloat.le (score c1) (score c2) = true)
  /\ (exists c1 c2,
     score_course "Data Scientist" (with_price sample_course (Some "Paid")) = Some c1
     /\ score_course "Data Scientist" (with_price sample_course (Some "Free")) = Some c2
     /\ PyFloat.le (score c1) (score c2) = true
     /\ PyFloat.lt (score c1) (score c2) = true
     /\ 149 <= hundredths (score c2) - hundredths (score c1) <= 151
     /\ score c1 = of_hundredths (hundredths (score c1))
     /\ score c2 = of_hundredths (hundredths (score c2))).
Proof.
  assert (He : is_Some (enrollment_score sample_course))
    by (vm_compute; eexists; reflexivity).
  destruct (score_monotone sample_course "Data Scientist" He) as [Hrating Hprice].
  split.
  - apply (Hrating 4.0%float 4.5%float). reflexivity.
  - destruct (Hprice (Some "Paid")) as (c1 & c2 & E1 & E2 & Hle & Hgain);
      [discriminate|reflexivity|].
    exists c1, c2. split; [exact E1|]. split; [exact E2|]. split; [exact Hle|].
    apply Hgain; [reflexivity|reflexivity|vm_compute; discriminate].
Defined.

End Examples.

End ScoreFacts.

(** ** The ranking *)

Module RankFacts.
Import CourseSearch.

(** [a] is ranked before [b]: its score is at least that of [b]. *)
Definition desc (a b : Course) : Prop := PyFloat.ge (score a) (score b) = true.

(** All the keys of the two courses agree, the score apart. *)
Definition same_but_score (c c' : Course) : Prop :=
  title c' = title c /\ url c' = url c /\ provider c' = provider c
  /\ level c' = level c /\ rating c' = rating c /\ duration c' = duration c
  /\ instructors c' = instructors c /\ enrollment_count c' = enrollment_count c
  /\ price c' = price c /\ language c' = language c
  /\ searched_for c' = searched_for c.

(** The provider credibility of the specification: a fixed table, and 0.5
    for a provider that is not in it. *)
Definition credibility_spec (provider : string) : float :=
  if decide (provider = "YouTube") then 1.5
  else if decide (provider = "GitHub") then 1.2
  else if decide (provider = "Career Guidance") then 0.8
  else if decide (provider = "Skills Academy") then 0.8
  else 0.5.

Lemma provider_score_spec (provider : string) :
  (0 + _get_provider_score provider)%float = credibility_spec provider.
Proof.
  unfold _get_provider_score, credibility_spec. cbn [dict_get].
  repeat match goal with
         | |- context [String.eqb ?a ?b] =>
             destruct (String.eqb_spec a b) as [<-|]
         end;
    repeat (rewrite decide_False by congruence);
    try (rewrite decide_True by reflexivity); reflexivity.
Qed.

Lemma set_score_same (c : Course) (v : float) : same_but_score c (set_score c v).
Proof. repeat split. Qed.

(** *** The sort *)

Lemma insert_desc_perm (c : Course) (l : list Course) : insert_desc c l ≡ₚ c :: l.
Proof.
  induction l as [|d l IH]; simpl; [reflexivity|].
  destruct (PyFloat.lt (score c) (score d)); [|reflexivity].
  rewrite IH. apply perm_swap.
Qed.

Lemma stable_desc_perm (l : list Course) : stable_desc l ≡ₚ l.
Proof.
  induction l as [|c l IH]; simpl; [reflexivity|].
  rewrite insert_desc_perm. rewrite IH. reflexivity.
Qed.

Lemma insert_desc_sorted (c : Course) (l : list Course) :
  PyFloat.is_nan (score c) = false ->
  Forall (fun d => PyFloat.is_nan (score d) = false) l ->
  StronglySorted desc l -> StronglySorted desc (insert_desc c l).
Proof.
  intros Hc Hl Hs. induction Hs as [|d l Hs IH Hd]; simpl.
  - constructor; constructor.
  - apply Forall_cons_1 in Hl. destruct Hl as [Hdn Hl].
    destruct (PyFloat.lt (score c) (score d)) eqn:Hlt.
    + constructor; [apply IH; exact Hl|].
      rewrite insert_desc_perm. constructor; [|exact Hd].
      unfold desc, PyFloat.ge. apply FloatOrder.ltb_leb. exact Hlt.
    + assert (Hcd : desc c d).
      { unfold desc, PyFloat.ge. apply FloatOrder.leb_total; assumption. }
      constructor; [constructor; assumption|].
      constructor; [exact Hcd|].
      eapply Forall_impl; [exact Hd|]. intros x Hx. unfold desc, PyFloat.ge in *.
      eapply FloatOrder.leb_trans; eassumption.
Qed.

Lemma stable_desc_sorted (l : list Course) :
  Forall (fun d => PyFloat.is_nan (score d) = false) l ->
  StronglySorted desc (stable_desc l).
Proof.
  induction 1 as [|c l Hc Hl IH]; simpl; [constructor|].
  apply insert_desc_sorted; [exact Hc| |exact IH].
  rewrite stable_desc_perm. exact Hl.
Qed.

Lemma all_numbers_Forall (l : list Course) :
  all_numbers l = true <-> Forall (fun d => PyFloat.is_nan (score d) = false) l.
Proof.
  unfold all_numbers. rewrite forallb_forall, Forall_forall. split.
  - intros Hl d Hd. apply list_elem_of_In in Hd. specialize (Hl d Hd).
    destruct (PyFloat.is_nan (score d)); [discriminate Hl|reflexivity].
  - intros Hl d Hd. apply list_elem_of_In in Hd. rewrite (Hl d Hd). reflexivity.
Qed.

Section Ranking.

Context `{python : Interpreter}.

(** The score in the words of the specification: the sum of the five
    sub-scores, rounded to two decimal places. *)
Definition score_spec (c : Course) (career : string) : option float :=
  match PyFloat.int_true_div (default 0 (enrollment_count c)) 50000 with
  | None => None
  | Some popularity_ratio =>
      let credibility := credibility_spec (provider c) in
      let rating_term := (match rating c with Some r => r | None => 4.0 end * 1.5)%float in
      let popularity := PyFloat.min popularity_ratio 2.0 in
      let price_term :=
        if decide (price c = Some "Free") then 2.0%float else 0.5%float in
      let lowered_title := PyStr.lower (match title c with Some t => t | None => "" end) in
      let relevance :=
        if PyStr.contains (PyStr.lower career) lowered_title then 2.0%float
        else if existsb (fun token => PyStr.contains token lowered_title)
                  (PyStr.split (PyStr.lower career))
        then 1.5%float else 0.5%float in
      Some (PyFloat.round
              (credibility + rating_term + popularity + price_term + relevance) 2)
  end.

Lemma score_course_spec (career : string) (c c' : Course) :
  score_course career c = Some c' ->
  c' = set_score c (score c') /\ score_spec c career = Some (score c').
Proof.
  unfold score_course, raw_score, enrollment_score, score_spec.
  destruct (PyFloat.int_true_div (default 0 (enrollment_count c)) 50000) as [q|];
    simpl; [|discriminate].
  intros [= <-]. simpl. split; [reflexivity|].
  rewrite provider_score_spec, ScoreFacts.price_cases.
  unfold rating_score, _calculate_relevance_score.
  destruct (rating c), (title c); reflexivity.
Qed.

Lemma score_course_total (career : string) (c : Course) :
  is_Some (enrollment_score c) -> is_Some (score_course career c).
Proof.
  intros [e He]. unfold score_course, raw_score. rewrite He. simpl. eexists; reflexivity.
Qed.

(** The sort of scores that are numbers is the stable sort. *)
Lemma sorted_desc_numbers (l : list Course) :
  Forall (fun d => PyFloat.is_nan (score d) = false) l ->
  sorted_desc l = stable_desc l.
Proof.
  intros Hl. unfold sorted_desc. rewrite (proj2 (all_numbers_Forall l) Hl). reflexivity.
Qed.

Lemma sorted_desc_perm (l : list Course) : sorted_desc l ≡ₚ l.
Proof.
  unfold sorted_desc. destruct (all_numbers l);
    [apply stable_desc_perm|apply sorted_unordered_permutation].
Qed.

Lemma sorted_desc_sorted (l : list Course) :
  Forall (fun d => PyFloat.is_nan (score d) = false) l ->
  StronglySorted desc (sorted_desc l).
Proof.
  intros Hl. rewrite (sorted_desc_numbers l Hl). apply stable_desc_sorted, Hl.
Qed.

(** *** The ranking as a whole *)

Lemma rank_courses_scored (courses : list Course) (level career : string)
  (ranked : list Course) :
  _rank_courses courses level career = Some ranked ->
  exists scored,
    Forall2 (fun c c' => score_course career c = Some c') courses scored
    /\ ranked = sorted_desc scored.
Proof.
  unfold _rank_courses. destruct courses as [|c0 rest].
  - intros [= <-]. exists []. split; [constructor|reflexivity].
  - destruct (mapM (score_course career) (c0 :: rest)) as [scored|] eqn:Hm;
      simpl; [|discriminate].
    intros [= <-]. exists scored. split; [|reflexivity].
    apply mapM_Some. exact Hm.
Qed.

Lemma rank_courses_total (courses : list Course) (level career : string) :
  Forall (fun c => is_Some (enrollment_score c)) courses ->
  is_Some (_rank_courses courses level career).
Proof.
  intros Hall. unfold _rank_courses. destruct courses as [|c0 rest]; [eexists; reflexivity|].
  assert (Hm : is_Some (mapM (score_course career) (c0 :: rest))).
  { apply mapM_is_Some. eapply Forall_impl; [exact Hall|].
    intros c Hc. apply score_course_total. exact Hc. }
  destruct Hm as [scored Hm]. rewrite Hm. simpl. eexists; reflexivity.
Qed.

(** The scores that the ranking stores are numbers when the ratings are. *)
Lemma scored_numbers (career : string) (courses scored : list Course) :
  Forall2 (fun c c' => score_course career c = Some c') courses scored ->
  Forall (fun c => PyFloat.is_nan (default 4.0%float (rating c)) = false) courses ->
  Forall (fun d => PyFloat.is_nan (score d) = false) scored.
Proof.
  induction 1 as [|c c' l l' Hc Hl IH]; intros Hn; [constructor|].
  apply Forall_cons_1 in Hn. destruct Hn as [Hn Hrest].
  constructor; [|exact (IH Hrest)].
  exact (ScoreFacts.score_course_number career c c' Hc Hn).
Qed.

End Ranking.

End RankFacts.

(** ** The division of two integers *)

Module QuotientFacts.
Import Rounding FloatMono.

Local Abbreviation fits D :=
  (Zdigits2 (Z.pos D) + FloatOps.prec + SpecFloat.emin FloatOps.prec FloatOps.emax <= 1).

(** The key of the quotient of [a] by [D]. *)
Definition div_key (D : positive) (a : Z) : Z * Z * Z :=
  match a with
  | Z0 => (0, 0, 0)
  | Z.pos n => signed_key' false (quotient_key FloatOps.prec FloatOps.emax D (Z.pos n))
  | Z.neg n => signed_key' true (quotient_key FloatOps.prec FloatOps.emax D (Z.pos n))
  end.

Section Generic.

Variables prec emax : Z.
Hypothesis Hprec : 0 < prec.
Variable D : positive.
Hypothesis HD : Zdigits2 (Z.pos D) + prec + SpecFloat.emin prec emax <= 1.

Lemma key_SFdiv_pos (sg : bool) (n : positive) :
  FloatOrder.key (SFdiv prec emax (S754_finite sg n 0) (S754_finite false D 0))
  = Some (signed_key' sg (quotient_key prec emax D (Z.pos n))).
Proof.
  rewrite (proj1 (SFdiv_pos prec emax Hprec sg n D HD)).
  rewrite key_result_of.
  - unfold quotient_key, signed_key, signed_key'. change (Z.pos n =? 0) with false.
    cbv iota. reflexivity.
  - pose proof (round_pos_canonical prec emax Hprec _ _
      (divpos_nonneg (Z.pos n) (Z.pos D) _ ltac:(lia) ltac:(lia) (S_nonneg prec Hprec D))
      (quotient_enough prec emax Hprec D HD n)) as C.
    unfold canonical in C. lia.
Qed.

End Generic.

Lemma key_quotient_pos (D : positive) (sg : bool) (n : positive) :
  fits D ->
  FloatOrder.key (SF64div (S754_finite sg n 0) (S754_finite false D 0))
  = Some (signed_key' sg (quotient_key FloatOps.prec FloatOps.emax D (Z.pos n))).
Proof. intros HD. exact (key_SFdiv_pos _ _ prec_pos D HD sg n). Qed.

Lemma key_nearest_quotient (D : positive) (a : Z) :
  fits D ->
  FloatOrder.key (PyFloat.nearest_quotient a (Z.pos D)) = Some (div_key D a).
Proof.
  intros HD. unfold PyFloat.nearest_quotient.
  change (PyFloat.SF_of_Z (Z.pos D)) with (S754_finite false D 0).
  destruct a as [|n|n]; cbn [PyFloat.SF_of_Z div_key].
  - reflexivity.
  - exact (key_quotient_pos D false n HD).
  - exact (key_quotient_pos D true n HD).
Qed.

Lemma div_key_mono (D : positive) (a a' : Z) :
  fits D -> a <= a' -> FloatOrder.lex_le (div_key D a) (div_key D a').
Proof.
  intros HD Ha.
  assert (Hc : forall n : positive,
    FloatOrder.lex_le (0, 0, 0) (quotient_key FloatOps.prec FloatOps.emax D (Z.pos n))
    /\ FloatOrder.lex_le (opp_key (quotient_key FloatOps.prec FloatOps.emax D (Z.pos n)))
         (0, 0, 0)).
  { intros n.
    destruct (quotient_key_class _ _ prec_pos D HD (Z.pos n) ltac:(lia)) as (H1 & H2 & _).
    split; assumption. }
  pose proof (fun n n' Hn => quotient_key_mono _ _ prec_pos D HD n n' Hn) as Hm.
  destruct a as [|q|q], a' as [|q'|q']; cbn [div_key signed_key']; try lia.
  - unfold FloatOrder.lex_le. lia.
  - exact (proj1 (Hc q')).
  - apply Hm. lia.
  - exact (proj2 (Hc q)).
  - exact (lex_le_trans _ _ _ (proj2 (Hc q)) (proj1 (Hc q'))).
  - apply lex_le_opp, Hm. lia.
Qed.

(** The quotient does not decrease with the dividend. *)
Lemma nearest_quotient_mono (D : positive) (a a' : Z) :
  fits D -> a <= a' ->
  SFleb (PyFloat.nearest_quotient a (Z.pos D)) (PyFloat.nearest_quotient a' (Z.pos D)) = true.
Proof.
  intros HD Ha. apply SFleb_key.
  exists (div_key D a), (div_key D a').
  split; [apply key_nearest_quotient, HD|].
  split; [apply key_nearest_quotient, HD|].
  apply div_key_mono; assumption.
Qed.

Lemma valid_nearest_quotient (D : positive) (a : Z) :
  fits D ->
  SpecFloat.valid_binary FloatOps.prec FloatOps.emax
    (PyFloat.nearest_quotient a (Z.pos D)) = true.
Proof.
  intros HD. unfold PyFloat.nearest_quotient.
  change (PyFloat.SF_of_Z (Z.pos D)) with (S754_finite false D 0).
  destruct a as [|n|n]; cbn [PyFloat.SF_of_Z].
  - reflexivity.
  - apply (valid_SFdiv_pos _ _ prec_pos D HD).
  - apply (valid_SFdiv_pos _ _ prec_pos D HD).
Qed.

Lemma int_true_div_value (D : positive) (a : Z) (q : float) :
  fits D -> PyFloat.int_true_div a (Z.pos D) = Some q ->
  Prim2SF q = PyFloat.nearest_quotient a (Z.pos D).
Proof.
  intros HD. unfold PyFloat.int_true_div. change (Z.pos D =? 0) with false. cbv iota zeta.
  destruct (PyFloat.is_infinity _); [discriminate|].
  intros Hq. assert (E : q = SF2Prim (PyFloat.nearest_quotient a (Z.pos D))) by congruence.
  rewrite E. apply Prim2SF_SF2Prim, valid_nearest_quotient, HD.
Qed.

(** [a / D] does not decrease with [a]. *)
Lemma int_true_div_mono (D : positive) (a a' : Z) (q q' : float) :
  fits D -> a <= a' ->
  PyFloat.int_true_div a (Z.pos D) = Some q ->
  PyFloat.int_true_div a' (Z.pos D) = Some q' ->
  PyFloat.le q q' = true.
Proof.
  intros HD Ha Hq Hq'. unfold PyFloat.le. rewrite FloatAxioms.leb_spec.
  rewrite (int_true_div_value D a q HD Hq), (int_true_div_value D a' q' HD Hq').
  apply nearest_quotient_mono; assumption.
Qed.

Lemma infinity_key (x : spec_float) :
  match FloatOrder.key x with
  | Some (a, _, _) => if PyFloat.is_infinity x then a = 2 \/ a = -2 else -1 <= a <= 1
  | None => PyFloat.is_infinity x = false
  end.
Proof. destruct x as [[]|[]| |[] m e]; cbn; lia. Qed.

Lemma int_true_div_is_Some (D : positive) (a : Z) :
  is_Some (PyFloat.int_true_div a (Z.pos D))
  <-> PyFloat.is_infinity (PyFloat.nearest_quotient a (Z.pos D)) = false.
Proof.
  unfold PyFloat.int_true_div. change (Z.pos D =? 0) with false. cbv iota zeta.
  destruct (PyFloat.is_infinity _); split; intros H; try discriminate; eauto.
  destruct H as [q H]. discriminate H.
Qed.

(** Between two dividends for which the division returns, it returns. *)
Lemma int_true_div_between (D : positive) (lo a hi : Z) :
  fits D -> lo <= a <= hi ->
  is_Some (PyFloat.int_true_div lo (Z.pos D)) ->
  is_Some (PyFloat.int_true_div hi (Z.pos D)) ->
  is_Some (PyFloat.int_true_div a (Z.pos D)).
Proof.
  intros HD Ha Hl Hh. rewrite int_true_div_is_Some in *.
  pose proof (div_key_mono D lo a HD ltac:(lia)) as H1.
  pose proof (div_key_mono D a hi HD ltac:(lia)) as H2.
  pose proof (infinity_key (PyFloat.nearest_quotient lo (Z.pos D))) as Kl.
  pose proof (infinity_key (PyFloat.nearest_quotient a (Z.pos D))) as Ka.
  pose proof (infinity_key (PyFloat.nearest_quotient hi (Z.pos D))) as Kh.
  rewrite key_nearest_quotient in Kl, Ka, Kh by exact HD.
  rewrite Hl in Kl. rewrite Hh in Kh.
  destruct (PyFloat.is_infinity (PyFloat.nearest_quotient a (Z.pos D))); [|reflexivity].
  destruct (div_key D lo) as [[a1 b1] c1], (div_key D a) as [[a2 b2] c2],
    (div_key D hi) as [[a3 b3] c3].
  unfold FloatOrder.lex_le in *. lia.
Qed.

(** Beyond a dividend for which the division raises, it raises. *)
Lemma int_true_div_raises_beyond (D : positive) (a a' : Z) :
  fits D -> 0 <= a <= a' \/ a' <= a <= 0 ->
  PyFloat.int_true_div a (Z.pos D) = None -> PyFloat.int_true_div a' (Z.pos D) = None.
Proof.
  intros HD Ha Hn.
  destruct (PyFloat.int_true_div a' (Z.pos D)) as [q|] eqn:E; [exfalso|reflexivity].
  assert (H0 : is_Some (PyFloat.int_true_div 0 (Z.pos D))) by (eexists; reflexivity).
  assert (Hs : is_Some (PyFloat.int_true_div a (Z.pos D))).
  { destruct Ha as [Ha|Ha].
    - apply (int_true_div_between D 0 a a'); eauto; lia.
    - apply (int_true_div_between D a' a 0); eauto; lia. }
  rewrite Hn in Hs. destruct Hs as [x Hx]. discriminate Hx.
Qed.

End QuotientFacts.

(** ** The score as a function of the enrollment count *)

Module EnrollmentFacts.
Import CourseSearch FloatMono ScoreFacts QuotientFacts.

(** The course with another enrollment count. *)
Definition with_enrollment (c : Course) (n : Z) : Course :=
  {| title := title c; url := url c; provider := provider c;
     level := level c; rating := rating c; duration := duration c;
     instructors := instructors c;
     enrollment_count := Some n; price := price c;
     language := language c; score := score c;
     searched_for := searched_for c |}.

(** The least count whose quotient by 50000 is too large for a float:
    50000 times the middle of the largest float and [2 ^ 1024]. *)
Definition overflow_count : Z := 50000 * (2 ^ 1024 - 2 ^ 970).

Lemma below_overflow_count (n : Z) :
  Z.abs n < overflow_count -> is_Some (PyFloat.int_true_div n 50000).
Proof.
  intros Hn.
  apply (int_true_div_between 50000 (- (overflow_count - 1)) n (overflow_count - 1));
    [exact fifty_thousand_fits|lia|vm_compute; eexists; reflexivity..].
Qed.

Lemma from_overflow_count (n : Z) :
  overflow_count <= Z.abs n -> PyFloat.int_true_div n 50000 = None.
Proof.
  intros Hn. destruct (Z.le_ge_cases 0 n) as [H0|H0].
  - apply (int_true_div_raises_beyond 50000 overflow_count n);
      [exact fifty_thousand_fits|left; unfold overflow_count in *; lia|
       vm_compute; reflexivity].
  - apply (int_true_div_raises_beyond 50000 (- overflow_count) n);
      [exact fifty_thousand_fits|right; unfold overflow_count in *; lia|
       vm_compute; reflexivity].
Qed.

Lemma enrollment_score_defined (c : Course) :
  is_Some (enrollment_score c) <-> Z.abs (default 0 (enrollment_count c)) < overflow_count.
Proof.
  unfold enrollment_score. split.
  - intros [e He].
    destruct (Z.lt_ge_cases (Z.abs (default 0 (enrollment_count c))) overflow_count)
      as [H|H]; [exact H|].
    rewrite (from_overflow_count _ H) in He. discriminate He.
  - intros H. destruct (below_overflow_count _ H) as [q Hq]. rewrite Hq.
    eexists; reflexivity.
Qed.

Section Scores.

Context `{python : Interpreter}.

Lemma score_course_defined (career : string) (c : Course) :
  is_Some (score_course career c) <-> is_Some (enrollment_score c).
Proof.
  unfold score_course, raw_score. destruct (enrollment_score c) as [e|]; cbn.
  - split; intros _; eexists; reflexivity.
  - split; intros [x Hx]; discriminate Hx.
Qed.

(** X4. [_rank_courses] raises if and only if the enrollment count of one of
    the courses is, in absolute value, at least [overflow_count]; every
    smaller count is ranked. *)
Theorem rank_courses_raises_iff (courses : list Course) (level career : string) :
  _rank_courses courses level career = None
  <-> Exists (fun c => overflow_count <= Z.abs (default 0 (enrollment_count c))) courses.
Proof.
  unfold _rank_courses. destruct courses as [|c0 rest].
  - split; [discriminate|intros H; inversion H].
  - destruct (mapM (score_course career) (c0 :: rest)) as [scored|] eqn:Hm; cbn.
    + split; [discriminate|]. intros Hex. exfalso.
      assert (Hs : is_Some (mapM (score_course career) (c0 :: rest))) by eauto.
      apply mapM_is_Some in Hs. rewrite Forall_forall in Hs.
      apply Exists_exists in Hex. destruct Hex as (c & Hin & Hc).
      specialize (Hs c Hin). cbn in Hs.
      apply score_course_defined, enrollment_score_defined in Hs. lia.
    + split; [intros _|reflexivity].
      apply mapM_None in Hm. apply Exists_exists in Hm. destruct Hm as (c & Hin & Hc).
      apply Exists_exists. exists c. split; [exact Hin|].
      destruct (Z.lt_ge_cases (Z.abs (default 0 (enrollment_count c))) overflow_count)
        as [H|H]; [exfalso|exact H].
      apply enrollment_score_defined in H. apply (score_course_defined career) in H.
      rewrite Hc in H. destruct H as [x Hx]. discriminate Hx.
Qed.

(** Two floats in the order, neither a zero nor below the other, are the
    same float. *)
Lemma le_not_lt_eq (x y : float) :
  PyFloat.le x y = true -> PyFloat.lt x y = false -> PyFloat.lt 0 x = true -> x = y.
Proof.
  unfold PyFloat.le, PyFloat.lt.
  rewrite FloatOrder.leb_key, FloatOrder.ltb_key.
  intros (k1 & k2 & E1 & E2 & Hle) Hlt (k0 & k1' & E0 & E1' & H0).
  rewrite E1 in E1'. injection E1' as <-.
  assert (Hk : k1 = k2).
  { destruct (PrimFloat.ltb x y) eqn:E; [discriminate|].
    destruct k1 as [[a1 b1] c1], k2 as [[a2 b2] c2].
    assert (Hn : ~ FloatOrder.lex_lt (a1, b1, c1) (a2, b2, c2)).
    { intros Hl. assert (Ht : PrimFloat.ltb x y = true)
        by (apply FloatOrder.ltb_key; exists (a1, b1, c1), (a2, b2, c2); auto).
      rewrite Ht in E. discriminate E. }
    unfold FloatOrder.lex_le, FloatOrder.lex_lt in *.
    assert (a1 = a2 /\ b1 = b2 /\ c1 = c2) as (-> & -> & ->) by lia. reflexivity. }
  subst k2. apply Prim2SF_inj.
  change (Prim2SF 0) with (S754_zero false) in E0. cbn in E0. injection E0 as <-.
  destruct (Prim2SF x) as [[]|[]| |[] m e], (Prim2SF y) as [[]|[]| |[] m' e'];
    cbn in E1, E2; try discriminate;
    injection E1 as <-; try discriminate E2;
    try (unfold FloatOrder.lex_lt in H0; lia).
  - reflexivity.
  - injection E2 as -> ->. reflexivity.
Qed.

Lemma min_two_mono (q1 q2 : float) :
  PyFloat.le q1 q2 = true ->
  PyFloat.le (PyFloat.min q1 2.0) (PyFloat.min q2 2.0) = true.
Proof.
  intros H. destruct (le_not_nan q1 q2 H) as [N1 N2].
  unfold PyFloat.min. destruct (PyFloat.lt 2.0 q1) eqn:E1.
  - rewrite (lt_le_trans _ _ _ E1 H). reflexivity.
  - destruct (PyFloat.lt 2.0 q2) eqn:E2; [|exact H].
    apply FloatOrder.leb_total; [reflexivity|exact N1|exact E1].
Qed.

(** From 100000 enrollments on the enrollment term is 2.0. *)
Lemma enrollment_score_saturates (c : Course) (e : float) :
  100000 <= default 0 (enrollment_count c) ->
  enrollment_score c = Some e -> e = 2.0%float.
Proof.
  intros Hn. unfold enrollment_score.
  destruct (PyFloat.int_true_div (default 0 (enrollment_count c)) 50000) as [q|] eqn:Hq;
    [|discriminate].
  cbn. intros [= <-].
  assert (H2 : PyFloat.le 2.0 q = true).
  { apply (int_true_div_mono 50000 100000 (default 0 (enrollment_count c)));
      [exact fifty_thousand_fits|exact Hn|vm_compute; reflexivity|exact Hq]. }
  unfold PyFloat.min. destruct (PyFloat.lt 2.0 q) eqn:E; [reflexivity|].
  symmetry. apply le_not_lt_eq; [exact H2|exact E|reflexivity].
Qed.

Lemma total_mono_enrollment (a t e1 e2 p v : float) :
  finite (0 + a) = true -> finite e1 = true -> finite e2 = true ->
  finite p = true -> finite v = true ->
  PyFloat.is_nan t = false -> PyFloat.le e1 e2 = true ->
  PyFloat.le (PyFloat.round (total a t e1 p v) 2) (PyFloat.round (total a t e2 p v) 2) = true.
Proof.
  intros Fa F1 F2 Fp Fv Ht H. unfold total.
  apply round_mono. do 2 (apply add_mono_l; [assumption|]).
  apply add_mono_number; try assumption.
  apply (le_not_nan (0 + a + t) (0 + a + t)).
  apply add_mono_r; [assumption|]. apply FloatOrder.leb_refl, Ht.
Qed.

Lemma enrollment_score_quotient (c : Course) (n : Z) (e : float) :
  enrollment_score (with_enrollment c n) = Some e ->
  exists q, PyFloat.int_true_div n 50000 = Some q /\ e = PyFloat.min q 2.0.
Proof.
  unfold enrollment_score.
  change (default 0 (enrollment_count (with_enrollment c n))) with n.
  destruct (PyFloat.int_true_div n 50000) as [q|]; [|discriminate].
  cbn. intros [= <-]. eauto.
Qed.

(** X5. More enrollments never lower the score, and from 100000 enrollments
    on they no longer change it: for two counts that the division accepts,
    every other key of the course being the same and the rating a number,
    the greater count gives a score that is no smaller; two counts of
    100000 or more give the same score. *)
Theorem score_monotone_in_enrollment (c : Course) (career : string) (n1 n2 : Z) :
  Z.abs n1 < overflow_count -> Z.abs n2 < overflow_count -> n1 <= n2 ->
  PyFloat.is_nan (default 4.0%float (rating c)) = false ->
  exists c1 c2,
    score_course career (with_enrollment c n1) = Some c1
    /\ score_course career (with_enrollment c n2) = Some c2
    /\ PyFloat.le (score c1) (score c2) = true
    /\ (100000 <= n1 -> score c1 = score c2).
Proof.
  intros B1 B2 Hn Hr.
  destruct (proj2 (enrollment_score_defined (with_enrollment c n1)) B1) as [e1 He1].
  destruct (proj2 (enrollment_score_defined (with_enrollment c n2)) B2) as [e2 He2].
  exists (set_score (with_enrollment c n1)
            (PyFloat.round (total (_get_provider_score (provider c)) (rating_score c) e1
                              (price_score c) (_calculate_relevance_score c career)) 2)),
         (set_score (with_enrollment c n2)
            (PyFloat.round (total (_get_provider_score (provider c)) (rating_score c) e2
                              (price_score c) (_calculate_relevance_score c career)) 2)).
  split; [exact (score_course_of_total career (with_enrollment c n1) e1 He1)|].
  split; [exact (score_course_of_total career (with_enrollment c n2) e2 He2)|].
  cbn [score set_score].
  destruct (enrollment_score_bounds _ e1 He1) as (F1 & _ & _).
  destruct (enrollment_score_bounds _ e2 He2) as (F2 & _ & _).
  destruct (provider_score_bounds (provider c)) as (Fa & _ & _).
  split.
  - apply total_mono_enrollment; try assumption;
      [apply price_finite|apply relevance_finite| |].
    + unfold rating_score.
      apply (le_not_nan (default 4.0%float (rating c) * 1.5)
                        (default 4.0%float (rating c) * 1.5)).
      eapply mul_mono; [vm_compute; reflexivity|]. apply FloatOrder.leb_refl, Hr.
    + destruct (enrollment_score_quotient c n1 e1 He1) as (q1 & Q1 & ->).
      destruct (enrollment_score_quotient c n2 e2 He2) as (q2 & Q2 & ->).
      apply min_two_mono.
      exact (int_true_div_mono 50000 n1 n2 q1 q2 fifty_thousand_fits Hn Q1 Q2).
  - intros H100.
    rewrite (enrollment_score_saturates (with_enrollment c n1) e1 H100 He1).
    rewrite (enrollment_score_saturates (with_enrollment c n2) e2
               ltac:(change (100000 <= n2); lia) He2).
    reflexivity.
Qed.

(** X6. The score of a course whose rating lies between 0 and 5 and whose
    enrollment count is not negative (and not beyond the bound of the
    division) lies between 1.5 and 15. *)
Theorem score_range (c : Course) (career : string) :
  PyFloat.le 0 (default 4.0%float (rating c)) = true ->
  PyFloat.le (default 4.0%float (rating c)) 5 = true ->
  0 <= default 0 (enrollment_count c) < overflow_count ->
  exists c',
    score_course career c = Some c'
    /\ PyFloat.le 1.5 (score c') = true /\ PyFloat.le (score c') 15 = true.
Proof.
  intros Hlo Hhi Hn.
  destruct (proj2 (enrollment_score_defined c) ltac:(lia)) as [e He].
  eexists. split; [exact (score_course_of_total career c e He)|].
  cbn [score set_score].
  destruct (enrollment_score_bounds c e He) as (Fe & He2 & He0).
  destruct (provider_score_bounds (provider c)) as (Fa & La & Ha).
  destruct (rating_score_bounds _ Hlo Hhi) as [Lt Ut].
  destruct (total_bounds (_get_provider_score (provider c)) (rating_score c) e
              Fa La Ha Lt Ut (He0 (proj1 Hn)) He2) as [Lx Ux].
  assert (Fx : finite (0 + _get_provider_score (provider c) + rating_score c + e) = true)
    by (apply (between_finite 0.5 _ 11.0); auto).
  assert (Lp : PyFloat.le 0.5 (price_score c) = true
               /\ PyFloat.le (price_score c) 2.0 = true)
    by (rewrite price_cases; destruct (decide _); split; reflexivity).
  assert (Lv : PyFloat.le 0.5 (_calculate_relevance_score c career) = true
               /\ PyFloat.le (_calculate_relevance_score c career) 2.0 = true)
    by (destruct (relevance_cases c career) as [ -> | [ -> | -> ] ]; split; reflexivity).
  pose proof (price_finite c) as Fp. pose proof (relevance_finite c career) as Fv.
  destruct Lp as [Lp Up], Lv as [Lv Uv].
  assert (L1 : PyFloat.le 1.0
                 (0 + _get_provider_score (provider c) + rating_score c + e + price_score c)
               = true)
    by (change 1.0%float with (0.5 + 0.5)%float; apply add_mono; auto).
  assert (U1 : PyFloat.le
                 (0 + _get_provider_score (provider c) + rating_score c + e + price_score c)
                 13.0 = true)
    by (change 13.0%float with (11.0 + 2.0)%float; apply add_mono; auto).
  assert (F1 : finite (0 + _get_provider_score (provider c) + rating_score c + e
                       + price_score c) = true)
    by (apply (between_finite 1.0 _ 13.0); auto).
  unfold total. split.
  - change 1.5%float with (PyFloat.round (1.0 + 0.5) 2).
    apply round_mono, add_mono; auto.
  - change 15%float with (PyFloat.round (13.0 + 2.0) 2).
    apply round_mono, add_mono; auto.
Qed.

End Scores.

Section Examples.

#[local] Existing Instance ascii_interpreter.

Lemma score_monotone_in_enrollment_witness :
  exists c1 c2,
    score_course "Data Scientist" (with_enrollment sample_course 120000) = Some c1
    /\ score_course "Data Scientist" (with_enrollment sample_course 5000000) = Some c2
    /\ PyFloat.le (score c1) (score c2) = true
    /\ score c1 = score c2.
Proof.
  destruct (score_monotone_in_enrollment sample_course "Data Scientist" 120000 5000000)
    as (c1 & c2 & E1 & E2 & Hle & Heq);
    [vm_compute; reflexivity|vm_compute; reflexivity|lia|reflexivity|].
  exists c1, c2. split; [exact E1|]. split; [exact E2|]. split; [exact Hle|].
  apply Heq. lia.
Defined.

Lemma score_range_witness :
  exists c',
    score_course "Data Scientist" sample_course = Some c'
    /\ PyFloat.le 1.5 (score c') = true /\ PyFloat.le (score c') 15 = true.
Proof.
  apply (score_range sample_course "Data Scientist");
    [reflexivity|reflexivity|vm_compute; split; [discriminate|reflexivity]].
Defined.

End Examples.

End EnrollmentFacts.

(** ** The ranking as the specification states it *)

Module RankingFacts.
Import CourseSearch FloatMono ScoreFacts RankFacts EnrollmentFacts.

Section Ranking.

Context `{python : Interpreter}.

Lemma rank_courses_below (courses : list Course) (level career : string) :
  Forall (fun c => Z.abs (default 0 (enrollment_count c)) < overflow_count) courses ->
  exists scored,
    _rank_courses courses level career = Some (sorted_desc scored)
    /\ Forall2 (fun c c' => score_course career c = Some c') courses scored.
Proof.
  intros Hall.
  destruct (rank_courses_total courses level career) as [ranked Hr].
  { eapply Forall_impl; [exact Hall|]. intros c Hc. apply enrollment_score_defined, Hc. }
  destruct (rank_courses_scored courses level career ranked Hr) as (scored & Hsc & ->).
  exists scored. split; assumption.
Qed.

Lemma rank_courses_beyond (courses : list Course) (level career : string) :
  Exists (fun c => overflow_count <= Z.abs (default 0 (enrollment_count c))) courses ->
  _rank_courses courses level career = None.
Proof.
  intros Hex. unfold _rank_courses. destruct courses as [|c0 rest]; [inversion Hex|].
  assert (Hm : mapM (score_course career) (c0 :: rest) = None).
  { apply mapM_None. eapply Exists_impl; [exact Hex|]. intros c Hc.
    unfold score_course, raw_score, enrollment_score.
    rewrite (from_overflow_count _ Hc). reflexivity. }
  rewrite Hm. reflexivity.
Qed.

(** C10, amended. For every list of courses whose enrollment counts are
    all below [overflow_count] in absolute value, the ranking returns a
    permutation of the list in which each course has a score stored and
    every other key (title, url, provider, level, rating, duration,
    instructors, enrollment_count, price, language, searched_for) as it
    was: no course is dropped, repeated or made up, and the empty list
    gives the empty list. For a list that holds a count of
    [overflow_count] or more the ranking raises and returns no list. *)
Theorem rank_frame_permutation (courses : list Course) (level career : string) :
  (Forall (fun c => Z.abs (default 0 (enrollment_count c)) < overflow_count) courses ->
   exists ranked scored,
     _rank_courses courses level career = Some ranked
     /\ Forall2 same_but_score courses scored
     /\ scored ≡ₚ ranked
     /\ length ranked = length courses
     /\ (courses = [] -> ranked = []))
  /\ (Exists (fun c => overflow_count <= Z.abs (default 0 (enrollment_count c))) courses ->
      _rank_courses courses level career = None).
Proof.
  split; [|apply rank_courses_beyond]. intros Hall.
  destruct (rank_courses_below courses level career Hall) as (scored & Hr & Hsc).
  exists (sorted_desc scored), scored.
  assert (Hf : Forall2 same_but_score courses scored).
  { eapply Forall2_impl; [exact Hsc|]. intros c c' Hc.
    apply score_course_spec in Hc. destruct Hc as [-> _]. apply set_score_same. }
  split; [exact Hr|]. split; [exact Hf|].
  split; [symmetry; apply sorted_desc_perm|]. split.
  - rewrite (Permutation_length (sorted_desc_perm scored)).
    symmetry. eapply Forall2_length. exact Hf.
  - intros ->. inversion Hsc. subst scored. revert Hr. cbn. congruence.
Qed.



End Ranking.

(** A course with the least enrollment count that the division by 50000
    turns down, and a course whose rating is a NaN. *)
Definition huge_course : Course := with_enrollment sample_course overflow_count.

Section Examples.

#[local] Existing Instance ascii_interpreter.

(** C10, as the claim states it, fails: the ranking of a list that holds a
    course with an enrollment count of [overflow_count] raises
    [OverflowError] in the division by 50000 and returns no list at all,
    while one enrollment less is ranked. *)
Lemma rank_raises_on_huge_count :
  _rank_courses [huge_course] "beginner" "Data Scientist" = None
  /\ is_Some (_rank_courses [with_enrollment sample_course (overflow_count - 1)]
                "beginner" "Data Scientist")
  /\ ~ (forall (python : Interpreter) (courses : list Course) (level career : string),
          exists ranked scored,
            _rank_courses courses level career = Some ranked
            /\ Forall2 same_but_score courses scored
            /\ scored ≡ₚ ranked).
Proof.
  assert (Hn : _rank_courses [huge_course] "beginner" "Data Scientist" = None)
    by (vm_compute; reflexivity).
  split; [exact Hn|]. split; [vm_compute; eexists; reflexivity|].
  intros Hall.
  destruct (Hall ascii_interpreter [huge_course] "beginner" "Data Scientist")
    as (ranked & scored & Hr & _).
  rewrite Hn in Hr. discriminate Hr.
Qed.


(** The two theorems at the two fallback courses. *)
Lemma rank_frame_permutation_witness :
  exists ranked scored,
    _rank_courses (_get_fallback_courses "Engineer" "beginner") "beginner" "Engineer"
    = Some ranked
    /\ Forall2 same_but_score (_get_fallback_courses "Engineer" "beginner") scored
    /\ scored ≡ₚ ranked
    /\ length ranked = length (_get_fallback_courses "Engineer" "beginner")
    /\ (_get_fallback_courses "Engineer" "beginner" = [] -> ranked = []).
Proof.
  apply (rank_frame_permutation (_get_fallback_courses "Engineer" "beginner")).
  repeat constructor.
Defined.


End Examples.

End RankingFacts.

(** ** The order of the ranking *)

Module RankOrderFacts.
Import CourseSearch RankFacts.

Lemma eqb_key (x y : float) :
  PrimFloat.eqb x y = true
  <-> exists k, FloatOrder.key (Prim2SF x) = Some k /\ FloatOrder.key (Prim2SF y) = Some k.
Proof.
  rewrite FloatAxioms.eqb_spec. unfold SFeqb. rewrite FloatOrder.SFcompare_key.
  destruct (FloatOrder.key (Prim2SF x)) as [k1|], (FloatOrder.key (Prim2SF y)) as [k2|];
    try (split; [discriminate|intros (? & ? & ?); discriminate]).
  pose proof (FloatOrder.lex_spec k1 k2) as H.
  destruct (FloatOrder.lex k1 k2).
  - subst k2. split; [intros _; exists k1; auto|reflexivity].
  - split; [discriminate|]. intros (k & E1 & E2).
    assert (E : k1 = k2) by congruence. subst k2.
    destruct k1 as [[a b] c]. unfold FloatOrder.lex_lt in H. lia.
  - split; [discriminate|]. intros (k & E1 & E2).
    assert (E : k1 = k2) by congruence. subst k2.
    destruct k1 as [[a b] c]. unfold FloatOrder.lex_lt in H. lia.
Qed.

(** Two floats equal to a third are not one below the other. *)
Lemma equal_not_lt (x y v : float) :
  PrimFloat.eqb x v = true -> PrimFloat.eqb y v = true -> PyFloat.lt x y = false.
Proof.
  rewrite !eqb_key. intros (k & Ex & Ev) (k' & Ey & Ev').
  assert (Ek : k' = k) by congruence. subst k'.
  unfold PyFloat.lt. destruct (PrimFloat.ltb x y) eqn:E; [|reflexivity].
  apply FloatOrder.ltb_key in E. destruct E as (k1 & k2 & E1 & E2 & Hlt).
  assert (Ek1 : k1 = k) by congruence. assert (Ek2 : k2 = k) by congruence.
  subst k1 k2. destruct k as [[a b] c]. unfold FloatOrder.lex_lt in Hlt. lia.
Qed.

Lemma ge_not_lt (x y : float) : PyFloat.ge x y = true -> PyFloat.lt x y = false.
Proof.
  unfold PyFloat.ge, PyFloat.lt. rewrite FloatOrder.leb_key.
  intros (k1 & k2 & E1 & E2 & Hle).
  destruct (PrimFloat.ltb x y) eqn:E; [|reflexivity].
  apply FloatOrder.ltb_key in E. destruct E as (k1' & k2' & E1' & E2' & Hlt).
  assert (Ek1 : k1' = k2) by congruence. assert (Ek2 : k2' = k1) by congruence.
  subst k1' k2'. destruct k1 as [[a1 b1] c1], k2 as [[a2 b2] c2].
  unfold FloatOrder.lex_le, FloatOrder.lex_lt in *. lia.
Qed.

(** The courses of the score [v]. *)
Definition scored_at (v : float) (l : list Course) : list Course :=
  List.filter (fun c => PrimFloat.eqb (score c) v) l.

Lemma scored_at_insert_desc (v : float) (c : Course) (l : list Course) :
  scored_at v (insert_desc c l) = scored_at v (c :: l).
Proof.
  induction l as [|d l IH]; [reflexivity|].
  cbn [insert_desc]. destruct (PyFloat.lt (score c) (score d)) eqn:E; [|reflexivity].
  unfold scored_at in *. cbn [List.filter] in *. rewrite IH.
  destruct (PrimFloat.eqb (score c) v) eqn:Ec, (PrimFloat.eqb (score d) v) eqn:Ed;
    try reflexivity.
  rewrite (equal_not_lt _ _ _ Ec Ed) in E. discriminate E.
Qed.

Lemma scored_at_stable_desc (v : float) (l : list Course) :
  scored_at v (stable_desc l) = scored_at v l.
Proof.
  induction l as [|c l IH]; [reflexivity|].
  change (stable_desc (c :: l)) with (insert_desc c (stable_desc l)).
  rewrite scored_at_insert_desc. unfold scored_at in *. cbn [List.filter].
  rewrite IH. reflexivity.
Qed.

Lemma stable_desc_fixed (l : list Course) : StronglySorted desc l -> stable_desc l = l.
Proof.
  induction 1 as [|c l Hs IH Hc]; [reflexivity|].
  change (stable_desc (c :: l)) with (insert_desc c (stable_desc l)). rewrite IH.
  destruct l as [|d l']; [reflexivity|]. cbn [insert_desc].
  apply Forall_cons_1 in Hc. destruct Hc as [Hd _]. unfold desc in Hd.
  rewrite (ge_not_lt _ _ Hd). reflexivity.
Qed.

Section Order.

Context `{python : Interpreter}.

(** X7. The ranking is stable: when the ratings are numbers, the courses
    that get the same score keep the order in which they were given. *)
Theorem rank_courses_stable (courses ranked : list Course) (level career : string) :
  Forall (fun c => PyFloat.is_nan (default 4.0%float (rating c)) = false) courses ->
  _rank_courses courses level career = Some ranked ->
  exists scored,
    Forall2 (fun c c' => score_course career c = Some c') courses scored
    /\ forall v : float, scored_at v ranked = scored_at v scored.
Proof.
  intros Hnan Hr. destruct (rank_courses_scored courses level career ranked Hr)
    as (scored & Hsc & ->).
  exists scored. split; [exact Hsc|]. intros v.
  rewrite (sorted_desc_numbers scored (scored_numbers career courses scored Hsc Hnan)).
  apply scored_at_stable_desc.
Qed.

Lemma sorted_desc_fixed (l : list Course) :
  Forall (fun d => PyFloat.is_nan (score d) = false) l ->
  StronglySorted desc l -> sorted_desc l = l.
Proof.
  intros Hl Hs. rewrite (sorted_desc_numbers l Hl). apply stable_desc_fixed, Hs.
Qed.

(** The score that the ranking stores does not depend on the score the
    course carried. *)
Lemma score_course_again (career : string) (c c' : Course) :
  score_course career c = Some c' -> score_course career c' = Some c'.
Proof.
  unfold score_course. destruct (raw_score c career) as [s|] eqn:E; [|discriminate].
  intros H. assert (Ec : c' = set_score c (PyFloat.round s 2)) by (cbn in H; congruence).
  subst c'.
  change (raw_score (set_score c (PyFloat.round s 2)) career) with (raw_score c career).
  rewrite E. reflexivity.
Qed.

(** X8. Ranking is idempotent: a ranked list, ranked again for the same
    career, comes back as it is (the ratings being numbers). *)
Theorem rank_courses_idempotent (courses ranked : list Course) (level career : string) :
  Forall (fun c => PyFloat.is_nan (default 4.0%float (rating c)) = false) courses ->
  _rank_courses courses level career = Some ranked ->
  _rank_courses ranked level career = Some ranked.
Proof.
  intros Hnan Hr.
  destruct (rank_courses_scored courses level career ranked Hr) as (scored & Hsc & ->).
  assert (Hnum : Forall (fun d => PyFloat.is_nan (score d) = false) scored)
    by exact (scored_numbers career courses scored Hsc Hnan).
  assert (Hagain : Forall (fun c' => score_course career c' = Some c') (sorted_desc scored)).
  { rewrite (sorted_desc_perm scored).
    clear Hr Hnum Hnan. induction Hsc as [|c c' l l' Hc Hl IH]; constructor; [|exact IH].
    exact (score_course_again career c c' Hc). }
  assert (Hm : mapM (score_course career) (sorted_desc scored) = Some (sorted_desc scored)).
  { apply mapM_Some. clear -Hagain.
    induction Hagain as [|c l Hc Hl IH]; constructor; assumption. }
  assert (Hfix : sorted_desc (sorted_desc scored) = sorted_desc scored).
  { apply sorted_desc_fixed; [|apply sorted_desc_sorted, Hnum].
    rewrite (sorted_desc_perm scored). exact Hnum. }
  clear Hr Hagain. revert Hm Hfix. generalize (sorted_desc scored). intros r Hm Hfix.
  unfold _rank_courses. destruct r as [|c0 rest]; [reflexivity|].
  rewrite Hm. change (Some (sorted_desc (c0 :: rest)) = Some (c0 :: rest)).
  rewrite Hfix. reflexivity.
Qed.

End Order.

(** Two courses of two providers of the same credibility, which get the
    same score, 11.55, with the career Engineer: the first given stays
    first. *)
Definition tie_a : Course :=
  {| title := Some "Engineer course"; url := "a"; provider := "Career Guidance";
     level := "beginner"; rating := Some 4.5%float; duration := "Self-paced";
     instructors := []; enrollment_count := Some 0; price := Some "Free";
     language := "English"; score := 0; searched_for := "a" |}.
Definition tie_b : Course :=
  {| title := Some "Engineer course"; url := "b"; provider := "Skills Academy";
     level := "beginner"; rating := Some 4.5%float; duration := "Self-paced";
     instructors := []; enrollment_count := Some 0; price := Some "Free";
     language := "English"; score := 0; searched_for := "b" |}.

Section Examples.

#[local] Existing Instance ascii_interpreter.

Lemma rank_courses_stable_witness :
  exists scored,
    Forall2 (fun c c' => score_course "Engineer" c = Some c') [tie_a; tie_b] scored
    /\ forall v : float,
         scored_at v [set_score tie_a 11.55; set_score tie_b 11.55] = scored_at v scored.
Proof.
  apply (rank_courses_stable [tie_a; tie_b] _ "beginner" "Engineer").
  - repeat constructor.
  - vm_compute. reflexivity.
Defined.

Lemma rank_courses_idempotent_witness :
  _rank_courses [set_score tie_a 11.55; set_score tie_b 11.55] "beginner" "Engineer"
  = Some [set_score tie_a 11.55; set_score tie_b 11.55].
Proof.
  apply (rank_courses_idempotent [tie_a; tie_b] _ "beginner" "Engineer").
  - repeat constructor.
  - vm_compute. reflexivity.
Defined.

End Examples.

End RankOrderFacts.

(** ** Cleaning a title twice *)

Module CleanAgainFacts.
Import PyStr CourseSearch CleanTitleFacts.

Section Again.

Context `{python : Interpreter}.

Lemma sub_non_word_fixed (l : list string) :
  Forall (fun c => kept c = true \/ c = " ") l -> map sub_non_word l = l.
Proof.
  induction 1 as [|c l Hc _ IH]; [reflexivity|]. cbn [map]. rewrite IH. f_equal.
  destruct Hc as [Hc| ->]; [apply sub_non_word_kept, Hc|reflexivity].
Qed.

Lemma collapse_from_fixed (b : bool) (l : list string) :
  Forall (fun c => kept c = true \/ c = " ") l ->
  single_spaced l = true -> (b = true -> starts_clean l = true) ->
  collapse_from b l = l.
Proof.
  intros Hl. revert b. induction Hl as [|c l Hc _ IH]; intros b Hs Hb; [reflexivity|].
  cbn [collapse_from]. pose proof (single_spaced_tail c l Hs) as Ht.
  destruct (isspace c) eqn:Ec.
  - destruct Hc as [Hc| ->].
    { unfold kept in Hc. rewrite Ec, andb_false_r in Hc. discriminate Hc. }
    destruct b.
    + specialize (Hb eq_refl). cbn [starts_clean] in Hb. rewrite Ec in Hb. discriminate Hb.
    + f_equal. apply IH; [exact Ht|]. intros _.
      destruct l as [|d l']; [reflexivity|]. cbn [single_spaced] in Hs.
      cbn [starts_clean]. rewrite Ec in Hs. cbn [andb] in Hs.
      apply andb_true_iff in Hs. destruct Hs as [Hd _].
      destruct (isspace d); [discriminate Hd|reflexivity].
  - f_equal. apply IH; [exact Ht|discriminate].
Qed.

Lemma lstrip_chars_fixed (l : list string) : starts_clean l = true -> lstrip_chars l = l.
Proof.
  destruct l as [|c l]; [reflexivity|]. cbn [starts_clean lstrip_chars].
  destruct (isspace c); [discriminate|reflexivity].
Qed.

Lemma rstrip_chars_length (l : list string) : (length (rstrip_chars l) <= length l)%nat.
Proof.
  induction l as [|c l IH]; [reflexivity|]. cbn [rstrip_chars].
  destruct (rstrip_chars l) as [|d r].
  - destruct (isspace c); cbn [length]; lia.
  - cbn [length] in *. lia.
Qed.

Lemma lstrip_chars_length (l : list string) : (length (lstrip_chars l) <= length l)%nat.
Proof.
  induction l as [|c l IH]; [reflexivity|]. cbn [lstrip_chars].
  destruct (isspace c); cbn [length]; lia.
Qed.

Lemma collapse_from_length (b : bool) (l : list string) :
  (length (collapse_from b l) <= length l)%nat.
Proof.
  revert b. induction l as [|c l IH]; intros b; [reflexivity|]. cbn [collapse_from].
  pose proof (IH true) as IHt. pose proof (IH false) as IHf.
  destruct (isspace c); [destruct b|]; cbn [length]; lia.
Qed.

Lemma rstrip_chars_fixed (l : list string) : ends_clean l = true -> rstrip_chars l = l.
Proof.
  induction l as [|c l IH]; [reflexivity|]. intros He. cbn [rstrip_chars].
  destruct l as [|d l'].
  - cbn [rstrip_chars]. unfold ends_clean in He. cbn in He.
    destruct (isspace c); [discriminate He|reflexivity].
  - rewrite IH; [reflexivity|].
    unfold ends_clean in *. cbn [rev] in *.
    destruct (rev l' ++ [d])%list as [|x r] eqn:E.
    + destruct (rev l'); discriminate E.
    + cbn in He. exact He.
Qed.

(** X11. Cleaning is idempotent, and a cleaned title never has more
    characters than the title: a title that [_clean_title] returned is
    returned unchanged when it is cleaned again. *)
Theorem clean_title_idempotent (title : string) :
  _clean_title (_clean_title title) = _clean_title title
  /\ len (_clean_title title) <= len title.
Proof.
  split.
  - unfold _clean_title at 1. rewrite clean_title_chars.
    destruct (cleaned_chars_normal title) as (Hw & Hs & Hb & He).
    rewrite (sub_non_word_fixed _ Hw).
    rewrite (collapse_from_fixed false _ Hw Hs) by discriminate.
    unfold strip_chars. rewrite (lstrip_chars_fixed _ Hb), (rstrip_chars_fixed _ He).
    reflexivity.
  - unfold len. rewrite clean_title_chars. unfold cleaned_chars, strip_chars.
    apply Nat2Z.inj_le.
    etransitivity; [apply rstrip_chars_length|].
    etransitivity; [apply lstrip_chars_length|].
    etransitivity; [apply collapse_from_length|].
    rewrite length_map. reflexivity.
Qed.

End Again.

End CleanAgainFacts.

(** ** The relevance term and the fallback courses *)

Module RelevanceFacts.
Import PyStr CourseSearch.

Lemma chars_append (a b : string) : chars (a +:+ b) = (chars a ++ chars b)%list.
Proof.
  unfold chars. induction a as [|c a IH]; [reflexivity|].
  change (String c a +:+ b) with (String c (a +:+ b)).
  cbn [list_ascii_of_string app]. f_equal. exact IH.
Qed.

Lemma of_chars_app (l k : list ascii) : of_chars (l ++ k) = of_chars l +:+ of_chars k.
Proof.
  unfold of_chars. induction l as [|c l IH]; [reflexivity|].
  cbn [app string_of_list_ascii].
  change (String c (string_of_list_ascii l) +:+ string_of_list_ascii k)
    with (String c (string_of_list_ascii l +:+ string_of_list_ascii k)).
  f_equal. exact IH.
Qed.

Lemma chars_of_chars (l : list ascii) : chars (of_chars l) = l.
Proof. apply list_ascii_of_string_of_list_ascii. Qed.

Lemma starts_with_app (p l : list ascii) : starts_with p (p ++ l) = true.
Proof.
  induction p as [|c p IH]; [reflexivity|]. cbn. rewrite Ascii.eqb_refl. exact IH.
Qed.

Lemma occurs_in_app (p pre post : list ascii) : occurs_in p (pre ++ p ++ post) = true.
Proof.
  induction pre as [|c pre IH].
  - cbn [app]. destruct (p ++ post)%list eqn:E; cbn [occurs_in];
      rewrite <- E, starts_with_app; reflexivity.
  - cbn [app occurs_in]. rewrite IH. apply orb_true_r.
Qed.

(** A string holds every string it was built around. *)
Lemma contains_middle (sub pre post : string) :
  contains sub (pre +:+ sub +:+ post) = true.
Proof. unfold contains. rewrite !chars_append. apply occurs_in_app. Qed.

(** *** The pieces of a text *)

Lemma pieces_cons (s : string) : exists w ws, pieces s = w :: ws.
Proof.
  destruct s as [|c r]; [eexists; eexists; reflexivity|]. cbn [pieces].
  destruct (Ascii.eqb c " "); [eexists; eexists; reflexivity|].
  destruct (pieces r); eexists; eexists; reflexivity.
Qed.

Lemma pieces_space (a b : string) :
  pieces (a +:+ " " +:+ b) = (pieces a ++ pieces b)%list.
Proof.
  induction a as [|c a IH]; [reflexivity|].
  change (String c a +:+ " " +:+ b) with (String c (a +:+ " " +:+ b)).
  cbn [pieces]. rewrite IH. destruct (Ascii.eqb c " "); [reflexivity|].
  destruct (pieces_cons a) as (w & ws & ->). reflexivity.
Qed.

Lemma join_spaces_app (x y : list string) :
  x <> [] -> y <> [] ->
  join_spaces (x ++ y) = join_spaces x +:+ " " +:+ join_spaces y.
Proof.
  intros Hx Hy. induction x as [|w x IH]; [congruence|].
  destruct x as [|w2 x'].
  - cbn [app]. destruct y as [|v y']; [congruence|]. reflexivity.
  - change (join_spaces ((w :: w2 :: x') ++ y))
      with (w +:+ " " +:+ join_spaces ((w2 :: x') ++ y)).
    rewrite IH by discriminate.
    change (join_spaces (w :: w2 :: x')) with (w +:+ " " +:+ join_spaces (w2 :: x')).
    rewrite <- !CleanTitleFacts.append_assoc. reflexivity.
Qed.

Lemma join_pieces (s : string) : join_spaces (pieces s) = s.
Proof.
  induction s as [|c r IH]; [reflexivity|]. cbn [pieces].
  destruct (Ascii.eqb_spec c " ") as [->|Hc].
  - destruct (pieces_cons r) as (w & ws & E). rewrite E in *.
    change (join_spaces ("" :: w :: ws)) with (" " +:+ join_spaces (w :: ws)).
    rewrite IH. reflexivity.
  - destruct (pieces_cons r) as (w & ws & E). rewrite E in *.
    destruct ws as [|w2 ws']; cbn [join_spaces] in *; rewrite <- IH; reflexivity.
Qed.

Lemma lower_char_space (c : ascii) : Ascii.eqb (lower_char c) " " = Ascii.eqb c " ".
Proof.
  destruct c as [b0 b1 b2 b3 b4 b5 b6 b7].
  destruct b0, b1, b2, b3, b4, b5, b6, b7; reflexivity.
Qed.

Lemma lower_char_ascii (c : ascii) : is_ascii_byte (lower_char c) = is_ascii_byte c.
Proof.
  destruct c as [b0 b1 b2 b3 b4 b5 b6 b7].
  destruct b0, b1, b2, b3, b4, b5, b6, b7; reflexivity.
Qed.

Lemma lower_char_idempotent (c : ascii) : lower_char (lower_char c) = lower_char c.
Proof.
  destruct c as [b0 b1 b2 b3 b4 b5 b6 b7].
  destruct b0, b1, b2, b3, b4, b5, b6, b7; reflexivity.
Qed.

Lemma lower_ascii_cons (c : ascii) (s : string) :
  lower_ascii (String c s) = String (lower_char c) (lower_ascii s).
Proof. reflexivity. Qed.

Lemma pieces_lower_ascii (s : string) :
  pieces (lower_ascii s) = map lower_ascii (pieces s).
Proof.
  induction s as [|c r IH]; [reflexivity|].
  rewrite lower_ascii_cons. cbn [pieces]. rewrite lower_char_space, IH.
  destruct (Ascii.eqb c " "); [reflexivity|].
  destruct (pieces_cons r) as (w & ws & ->). reflexivity.
Qed.

Lemma is_ascii_cons (c : ascii) (s : string) :
  is_ascii (String c s) = is_ascii_byte c && is_ascii s.
Proof. reflexivity. Qed.

Lemma is_ascii_pieces (s : string) :
  is_ascii s = true -> Forall (fun w => is_ascii w = true) (pieces s).
Proof.
  induction s as [|c r IH]; [repeat constructor|].
  rewrite is_ascii_cons. intros Hs. apply andb_true_iff in Hs. destruct Hs as [Hc Hr].
  specialize (IH Hr). cbn [pieces]. destruct (Ascii.eqb c " ").
  - constructor; [reflexivity|exact IH].
  - destruct (pieces r) as [|w ws].
    + constructor; [|constructor]. rewrite is_ascii_cons, Hc. reflexivity.
    + apply Forall_cons_1 in IH. destruct IH as [Hw Hws].
      constructor; [|exact Hws]. rewrite is_ascii_cons, Hc. exact Hw.
Qed.

Lemma is_ascii_lower_ascii (s : string) : is_ascii (lower_ascii s) = is_ascii s.
Proof.
  induction s as [|c r IH]; [reflexivity|].
  rewrite lower_ascii_cons, !is_ascii_cons, lower_char_ascii, IH. reflexivity.
Qed.

Lemma lower_ascii_idempotent (s : string) : lower_ascii (lower_ascii s) = lower_ascii s.
Proof.
  induction s as [|c r IH]; [reflexivity|].
  rewrite !lower_ascii_cons, lower_char_idempotent, IH. reflexivity.
Qed.

Lemma occurs_in_nil (p : list ascii) : occurs_in p [] = match p with [] => true | _ => false end.
Proof. destruct p; reflexivity. Qed.

Lemma existsb_false {A} (f : A -> bool) (l : list A) :
  Forall (fun x => f x = false) l -> existsb f l = false.
Proof.
  induction 1 as [|x l Hx _ IH]; [reflexivity|]. cbn [existsb]. rewrite Hx, IH. reflexivity.
Qed.

(** Nothing but the empty text occurs in the empty text. *)
Lemma contains_empty (sub : string) : sub <> "" -> contains sub "" = false.
Proof.
  intros Hs. unfold contains. change (chars "") with (@nil ascii). rewrite occurs_in_nil.
  destruct sub; [congruence|reflexivity].
Qed.

Lemma characters_whole_all (s : string) : Forall CleanTitleFacts.whole (characters s).
Proof.
  pose proof (CleanTitleFacts.characters_well_formed s) as Hw.
  destruct (characters s) as [|c r]; [constructor|]. destruct Hw as [Hc Hr].
  constructor; [exact Hc|].
  eapply Forall_impl; [exact Hr|]. apply CleanTitleFacts.begins_whole.
Qed.

Lemma of_characters_whole (w : list string) :
  w <> [] -> Forall CleanTitleFacts.whole w -> of_characters w <> "".
Proof.
  destruct 2 as [|c r Hc _]; [congruence|]. destruct c; [destruct Hc|discriminate].
Qed.

Section Relevance.

Context `{python : Interpreter}.

(** The lower case of a text goes through its spaces. *)
Lemma lower_space (a b : string) :
  lower (a +:+ " " +:+ b) = lower a +:+ " " +:+ lower b.
Proof.
  unfold lower. rewrite pieces_space, map_app.
  destruct (pieces_cons a) as (w & ws & ->). destruct (pieces_cons b) as (v & vs & ->).
  apply join_spaces_app; discriminate.
Qed.

(** A title that holds the career between two spaces, or before a space
    at its beginning, holds it whatever the case of the letters. *)
Lemma relevance_of_embedded (c : Course) (career pre post : string) :
  title c = Some (pre +:+ " " +:+ career +:+ " " +:+ post) ->
  _calculate_relevance_score c career = 2.0%float.
Proof.
  intros Ht. unfold _calculate_relevance_score. rewrite Ht.
  change (default "" (Some (pre +:+ " " +:+ career +:+ " " +:+ post)))
    with (pre +:+ " " +:+ career +:+ " " +:+ post).
  rewrite !lower_space.
  rewrite (CleanTitleFacts.append_assoc (lower pre) " ").
  rewrite contains_middle. reflexivity.
Qed.

Lemma relevance_of_prefix (c : Course) (career post : string) :
  title c = Some (career +:+ " " +:+ post) ->
  _calculate_relevance_score c career = 2.0%float.
Proof.
  intros Ht. unfold _calculate_relevance_score. rewrite Ht.
  change (default "" (Some (career +:+ " " +:+ post))) with (career +:+ " " +:+ post).
  rewrite lower_space.
  pose proof (contains_middle (lower career) "" (" " +:+ lower post)) as Hc.
  change ("" +:+ lower career +:+ " " +:+ lower post)
    with (lower career +:+ " " +:+ lower post) in Hc.
  rewrite Hc. reflexivity.
Qed.

(** X9. Whatever the career and the level, the two fallback courses hold the
    career in their titles, so their relevance is 2.0 and their scores are
    11.75 and 11.55: the ranking returns the Introduction course first and
    the Skills Development course second. *)
Theorem fallback_scores (career level : string) :
  match _get_fallback_courses career level with
  | [introduction; development] =>
      _rank_courses [introduction; development] level career
      = Some [set_score introduction 11.75; set_score development 11.55]
      /\ _rank_courses [development; introduction] level career
         = Some [set_score introduction 11.75; set_score development 11.55]
  | _ => False
  end.
Proof.
  unfold _get_fallback_courses.
  set (f1 := {| title := Some ("Introduction to " +:+ _); provider := "Career Guidance" |}).
  set (f2 := {| title := Some (career +:+ _); provider := "Skills Academy" |}).
  assert (E1 : _calculate_relevance_score f1 career = 2.0%float)
    by (apply (relevance_of_embedded f1 career "Introduction to"
                 ("- " +:+ PyStr.title level +:+ " Level")); reflexivity).
  assert (E2 : _calculate_relevance_score f2 career = 2.0%float)
    by (apply (relevance_of_prefix f2 career "Skills Development Course");
        reflexivity).
  assert (S1 : score_course career f1 = Some (set_score f1 11.75)).
  { unfold score_course, raw_score. rewrite E1. reflexivity. }
  assert (S2 : score_course career f2 = Some (set_score f2 11.55)).
  { unfold score_course, raw_score. rewrite E2. reflexivity. }
  unfold _rank_courses. cbn [mapM]. rewrite S1, S2. split; reflexivity.
Qed.

Lemma split_from_Forall (P : string -> Prop) (cur l : list string) :
  Forall P cur -> Forall P l -> Forall (Forall P) (split_from cur l).
Proof.
  intros Hcur Hl. revert cur Hcur.
  induction Hl as [|c r Hc Hr IH]; intros cur Hcur; cbn [split_from].
  - destruct cur; [constructor|]. constructor; [apply Forall_rev, Hcur|constructor].
  - destruct (isspace c).
    + destruct cur; [apply IH; constructor|].
      constructor; [apply Forall_rev, Hcur|apply IH; constructor].
    + apply IH. constructor; assumption.
Qed.

(** The words of a text are not empty. *)
Lemma split_words (s : string) : Forall (fun w => w <> "") (split s).
Proof.
  unfold split. apply Forall_map.
  pose proof (CleanTitleFacts.split_from_words [] (characters s)) as Hn.
  pose proof (split_from_Forall CleanTitleFacts.whole [] (characters s)
                ltac:(constructor) (characters_whole_all s)) as Hw.
  induction Hn as [|w ws Hne _ IH]; [constructor|].
  apply Forall_cons_1 in Hw. destruct Hw as [Hw Hws].
  constructor; [apply of_characters_whole; assumption|exact (IH Hws)].
Qed.

Lemma lower_of_ascii (s : string) : is_ascii s = true -> lower s = lower_ascii s.
Proof.
  intros Hs. unfold lower.
  assert (Hm : map lower_piece (pieces s) = map lower_ascii (pieces s)).
  { pose proof (is_ascii_pieces s Hs) as Hp.
    induction Hp as [|w ws Hw _ IH]; [reflexivity|]. cbn [map]. rewrite IH.
    unfold lower_piece. rewrite Hw. reflexivity. }
  rewrite Hm, <- pieces_lower_ascii. apply join_pieces.
Qed.

(** X10. The edges of the relevance term: an empty career is found in every
    title and gives 2.0; a career whose lower case is not empty gives 0.5 for
    a course without a title or with an empty one; two careers with the same
    lower case get the same relevance; and for a career of ASCII characters,
    whose lower case is empty only if the career is, the letter case plays no
    role. *)
Theorem relevance_edge_cases (c : Course) (career other : string) :
  _calculate_relevance_score c "" = 2.0%float
  /\ (lower career <> "" -> default "" (title c) = "" ->
      _calculate_relevance_score c career = 0.5%float)
  /\ (lower career = lower other ->
      _calculate_relevance_score c career = _calculate_relevance_score c other)
  /\ (is_ascii career = true ->
      (career <> "" -> lower career <> "")
      /\ _calculate_relevance_score c (lower career) = _calculate_relevance_score c career).
Proof.
  split; [|split; [|split]].
  - unfold _calculate_relevance_score, contains. change (chars (lower "")) with (@nil ascii).
    destruct (chars (lower (default "" (title c)))); reflexivity.
  - intros Hne Ht. unfold _calculate_relevance_score. rewrite Ht.
    change (lower "") with "". rewrite (contains_empty _ Hne).
    rewrite existsb_false; [reflexivity|].
    eapply Forall_impl; [apply split_words|]. intros w Hw. apply contains_empty, Hw.
  - intros Heq. unfold _calculate_relevance_score. rewrite Heq. reflexivity.
  - intros Ha. rewrite (lower_of_ascii career Ha). split.
    + destruct career; [congruence|discriminate].
    + unfold _calculate_relevance_score.
      rewrite (lower_of_ascii (lower_ascii career))
        by (rewrite is_ascii_lower_ascii; exact Ha).
      rewrite lower_ascii_idempotent, (lower_of_ascii career Ha). reflexivity.
Qed.

End Relevance.

End RelevanceFacts.

(** ** Rounding to one decimal place *)

Module RoundOneFacts.
Import Rounding FloatMono.

Lemma ten_fits :
  Zdigits2 (Z.pos 10) + FloatOps.prec + SpecFloat.emin FloatOps.prec FloatOps.emax <= 1.
Proof. vm_compute. discriminate. Qed.

Lemma round_one_spec (x : float) :
  Prim2SF (PyFloat.round x 1) = round_sf FloatOps.prec FloatOps.emax 10 (Prim2SF x).
Proof.
  unfold PyFloat.round.
  destruct (Prim2SF x) as [s|s| |s m e] eqn:E; try (rewrite E; reflexivity).
  cbn [round_sf]. change (10 ^ Z.of_N 1) with 10.
  destruct (PyFloat.nearest_even_scaled m e 10) as [|n|n].
  - apply Prim2SF_SF2Prim. reflexivity.
  - apply Prim2SF_SF2Prim.
    apply (valid_SFdiv_pos _ _ prec_pos 10%positive ten_fits).
  - apply Prim2SF_SF2Prim. reflexivity.
Qed.

Lemma round_one_mono (x1 x2 : float) :
  PyFloat.le x1 x2 = true -> PyFloat.le (PyFloat.round x1 1) (PyFloat.round x2 1) = true.
Proof.
  unfold PyFloat.le. rewrite !FloatAxioms.leb_spec, !round_one_spec. intros H.
  apply (round_sf_mono _ _ prec_pos 10%positive ten_fits);
    try apply Prim2SF_valid; exact H.
Qed.

End RoundOneFacts.

(** ** What a search returns *)

Module SearchResultFacts.
Import CourseSearch FloatMono ScoreFacts EnrollmentFacts RankFacts RankOrderFacts.

(** A course as the providers and the fallback make them: free, of one of
    the four providers, with a rating between 4.0 and 4.9 and between 100
    and 200000 enrollments. *)
Definition sourced (c : Course) : Prop :=
  price c = Some "Free"
  /\ provider c ∈ ["YouTube"; "GitHub"; "Career Guidance"; "Skills Academy"]
  /\ (exists r, rating c = Some r /\ PyFloat.le 4.0 r = true /\ PyFloat.le r 4.9 = true)
  /\ (exists n, enrollment_count c = Some n /\ 100 <= n <= 200000).

(** A course as a search returns it. *)
Definition recommended (c : Course) : Prop :=
  price c = Some "Free"
  /\ PyFloat.le 9.3 (score c) = true /\ PyFloat.le (score c) 14.85 = true.

(** A list as a search returns it. *)
Definition presentable (l : list Course) : Prop :=
  (2 <= length l <= 5)%nat /\ StronglySorted desc l /\ Forall recommended l.

Lemma count_below_overflow (n : Z) : 100 <= n <= 200000 -> Z.abs n < overflow_count.
Proof.
  intros Hn. assert (H : 200000 < overflow_count) by (vm_compute; reflexivity). lia.
Qed.

Lemma sourced_enrollment (c : Course) :
  sourced c ->
  exists e, enrollment_score c = Some e
            /\ PyFloat.le 0.002 e = true /\ PyFloat.le e 2.0 = true /\ finite e = true.
Proof.
  intros (_ & _ & _ & n & Hn & Hr).
  destruct (proj2 (enrollment_score_defined c)) as [e He].
  { rewrite Hn. apply count_below_overflow, Hr. }
  exists e. split; [exact He|].
  destruct (enrollment_score_bounds c e He) as (Fe & He2 & _).
  split; [|split; assumption].
  revert He. unfold enrollment_score. rewrite Hn.
  change (default 0 (Some n)) with n.
  destruct (PyFloat.int_true_div n 50000) as [q|] eqn:Q; [|discriminate].
  cbn. intros [= <-].
  change 0.002%float with (PyFloat.min 0.002 2.0).
  apply min_two_mono.
  apply (QuotientFacts.int_true_div_mono 50000 100 n);
    [exact fifty_thousand_fits|lia|vm_compute; reflexivity|exact Q].
Qed.

Section Sourced.

Context `{python : Interpreter}.

(** The score of a sourced course. *)
Lemma sourced_score (career : string) (c : Course) :
  sourced c ->
  exists c', score_course career c = Some c'
             /\ price c' = Some "Free"
             /\ PyFloat.le 9.3 (score c') = true /\ PyFloat.le (score c') 14.85 = true.
Proof.
  intros Hc. destruct (sourced_enrollment c Hc) as (e & He & Le & Ue & Fe).
  destruct Hc as (Hp & Hprov & (r & Hr & Lr & Ur) & _).
  eexists. split; [exact (score_course_of_total career c e He)|].
  split; [exact Hp|]. cbn [score set_score].
  assert (Pp : price_score c = 2.0%float) by (unfold price_score; rewrite Hp; reflexivity).
  assert (Rs : rating_score c = (r * 1.5)%float) by (unfold rating_score; rewrite Hr; reflexivity).
  rewrite Pp, Rs.
  assert (Lt : PyFloat.le (4.0 * 1.5) (r * 1.5) = true)
    by (eapply mul_mono; [vm_compute; reflexivity|exact Lr]).
  assert (Ut : PyFloat.le (r * 1.5) (4.9 * 1.5) = true)
    by (eapply mul_mono; [vm_compute; reflexivity|exact Ur]).
  destruct (le_not_nan _ _ Lt) as [_ Nt].
  pose proof (relevance_finite c career) as Fv.
  assert (Fa : finite (0 + _get_provider_score (provider c)) = true)
    by (apply provider_score_bounds).
  split.
  - apply (le_trans _ (PyFloat.round
             (total (_get_provider_score (provider c)) (4.0 * 1.5) 0.002 2.0
                (_calculate_relevance_score c career)) 2)).
    + repeat (apply elem_of_cons in Hprov; destruct Hprov as [-> | Hprov]);
        try (apply elem_of_nil in Hprov; destruct Hprov);
        destruct (relevance_cases c career) as [ -> | [ -> | -> ] ]; reflexivity.
    + apply (le_trans _ (PyFloat.round
               (total (_get_provider_score (provider c)) (r * 1.5) 0.002 2.0
                  (_calculate_relevance_score c career)) 2)).
      * apply total_mono_rating; try assumption; reflexivity.
      * apply total_mono_enrollment; try assumption; reflexivity.
  - apply (le_trans _ (PyFloat.round
             (total (_get_provider_score (provider c)) (4.9 * 1.5) 2.0 2.0
                (_calculate_relevance_score c career)) 2)).
    + apply (le_trans _ (PyFloat.round
               (total (_get_provider_score (provider c)) (r * 1.5) 2.0 2.0
                  (_calculate_relevance_score c career)) 2)).
      * apply total_mono_enrollment; try assumption; reflexivity.
      * apply total_mono_rating; try assumption; reflexivity.
    + repeat (apply elem_of_cons in Hprov; destruct Hprov as [-> | Hprov]);
        try (apply elem_of_nil in Hprov; destruct Hprov);
        destruct (relevance_cases c career) as [ -> | [ -> | -> ] ]; reflexivity.
Qed.

Lemma StronglySorted_take {A} (R : A -> A -> Prop) (n : nat) (l : list A) :
  StronglySorted R l -> StronglySorted R (take n l).
Proof.
  intros H. revert n. induction H as [|x l Hs IH Hx]; intros n.
  - rewrite take_nil. constructor.
  - destruct n as [|n]; [constructor|]. cbn [take]. constructor; [apply IH|].
    apply Forall_take, Hx.
Qed.

Lemma fallback_sourced (career level : string) :
  Forall sourced (_get_fallback_courses career level).
Proof.
  unfold _get_fallback_courses.
  repeat constructor; cbn [provider price rating enrollment_count];
    try set_solver; try (eexists; repeat split; reflexivity);
    try (eexists; split; [reflexivity|lia]).
Qed.

End Sourced.

Section Search.

Context `{python : Interpreter}.

Variable set_order : list string -> list string.
Variable findall_video findall_repo : string -> list (string * string).
Variable urlopen_youtube urlopen_github : string -> option string.
Variable random_uniform : nat -> float -> float -> float.
Variable random_randint : nat -> Z -> Z -> Z.

(** [random.randint(a, b)] and [random.uniform(a, b)] return a number
    between their bounds. *)
Hypothesis randint_law :
  forall k lo hi, lo <= hi -> lo <= random_randint k lo hi <= hi.
Hypothesis uniform_law :
  forall k a b, PyFloat.le a b = true ->
    PyFloat.le a (random_uniform k a b) = true
    /\ PyFloat.le (random_uniform k a b) b = true.

Local Abbreviation search :=
  (search_courses set_order findall_video findall_repo urlopen_youtube
     urlopen_github random_uniform random_randint).
Local Abbreviation gathered :=
  (gather set_order findall_video findall_repo urlopen_youtube
     urlopen_github random_uniform random_randint).

Lemma rounded_rating (k : nat) (a b : float) :
  PyFloat.le a b = true ->
  PyFloat.le 4.0 (PyFloat.round a 1) = true -> PyFloat.le (PyFloat.round b 1) 4.9 = true ->
  PyFloat.le 4.0 (PyFloat.round (random_uniform k a b) 1) = true
  /\ PyFloat.le (PyFloat.round (random_uniform k a b) 1) 4.9 = true.
Proof.
  intros Hab Ha Hb. destruct (uniform_law k a b Hab) as [L U]. split.
  - exact (le_trans _ _ _ Ha (RoundOneFacts.round_one_mono _ _ L)).
  - exact (le_trans _ _ _ (RoundOneFacts.round_one_mono _ _ U) Hb).
Qed.

Lemma youtube_course_sourced (k : nat) (video_id t term : string) :
  sourced (youtube_course random_uniform random_randint k video_id t term).
Proof.
  unfold sourced, youtube_course. cbn [price provider rating enrollment_count].
  split; [reflexivity|]. split; [apply list_elem_of_here|]. split.
  - eexists. split; [reflexivity|]. apply rounded_rating; reflexivity.
  - eexists. split; [reflexivity|].
    pose proof (randint_law (k + 2) 5000 200000 ltac:(lia)). lia.
Qed.

Lemma github_course_sourced (k : nat) (repo_path t term : string) :
  sourced (github_course random_uniform random_randint k repo_path t term).
Proof.
  unfold sourced, github_course. cbn [price provider rating enrollment_count].
  split; [reflexivity|]. split; [apply list_elem_of_further, list_elem_of_here|]. split.
  - eexists. split; [reflexivity|]. apply rounded_rating; reflexivity.
  - eexists. split; [reflexivity|].
    pose proof (randint_law (k + 1) 100 5000 ltac:(lia)). lia.
Qed.

Lemma youtube_matches_sourced (matches : list (string * string)) (term : string) (k : nat) :
  Forall sourced (youtube_matches random_uniform random_randint matches term k).1.
Proof.
  revert k. induction matches as [|[v t] rest IH]; intros k; cbn [youtube_matches];
    [constructor|].
  destruct (youtube_keeps t); [|apply IH].
  specialize (IH (k + 3)%nat).
  destruct (youtube_matches random_uniform random_randint rest term (k + 3)) as [cs k'].
  cbn [fst] in *. constructor; [apply youtube_course_sourced|exact IH].
Qed.

Lemma github_matches_sourced (matches : list (string * string)) (term : string) (k : nat) :
  Forall sourced (github_matches random_uniform random_randint matches term k).1.
Proof.
  revert k. induction matches as [|[v t] rest IH]; intros k; cbn [github_matches];
    [constructor|].
  destruct (github_keeps t); [|apply IH].
  specialize (IH (k + 2)%nat).
  destruct (github_matches random_uniform random_randint rest term (k + 2)) as [cs k'].
  cbn [fst] in *. constructor; [apply github_course_sourced|exact IH].
Qed.

Lemma search_terms_loop_sourced (urlopen : string -> option string)
  (parse : string -> string -> nat -> list Course * nat) (terms : list string) (k : nat) :
  (forall html term j, Forall sourced (parse html term j).1) ->
  Forall sourced (search_terms_loop urlopen parse terms k).1.
Proof.
  intros Hp. revert k. induction terms as [|term rest IH]; intros k;
    cbn [search_terms_loop]; [constructor|].
  destruct (urlopen term) as [html|]; [|apply IH].
  specialize (Hp html term k). destruct (parse html term k) as [found k1].
  specialize (IH k1). destruct (search_terms_loop urlopen parse rest k1) as [cs k2].
  cbn [fst] in *. apply Forall_app. split; assumption.
Qed.

(** The pool of a fresh search holds from 2 to 10 sourced courses. *)
Lemma gathered_sourced (career level : string) (k : nat) :
  Forall sourced (gathered career level k).1
  /\ (2 <= length (gathered career level k).1 <= 10)%nat.
Proof.
  rewrite (SearchFacts.gather_adds_fallback set_order findall_video findall_repo
             urlopen_youtube urlopen_github random_uniform random_randint).
  split.
  - apply Forall_app. split; [apply Forall_app; split|apply fallback_sourced].
    + unfold _search_youtube. apply search_terms_loop_sourced.
      intros html term j. apply youtube_matches_sourced.
    + unfold _search_github. apply search_terms_loop_sourced.
      intros html term j. apply github_matches_sourced.
  - rewrite length_app.
    pose proof (SearchFacts.pool_below_minimum set_order findall_video findall_repo
                  urlopen_youtube urlopen_github random_uniform random_randint
                  career level k
                  (_search_youtube set_order findall_video urlopen_youtube random_uniform
                     random_randint career level k).2) as H.
    cbn [length _get_fallback_courses]. lia.
Qed.

(** The ranking of a pool of sourced courses. *)
Lemma rank_sourced (pool : list Course) (level career : string) :
  Forall sourced pool ->
  exists ranked,
    _rank_courses pool level career = Some ranked
    /\ length ranked = length pool
    /\ StronglySorted desc ranked /\ Forall recommended ranked.
Proof.
  intros Hp.
  destruct (rank_courses_total pool level career) as [ranked Hr].
  { eapply Forall_impl; [exact Hp|]. intros c Hc.
    destruct (sourced_enrollment c Hc) as (e & He & _). eauto. }
  exists ranked. split; [exact Hr|].
  destruct (rank_courses_scored pool level career ranked Hr) as (scored & Hsc & ->).
  assert (Hrec : Forall recommended scored).
  { clear Hr. induction Hsc as [|c c' l l' Hc Hl IH]; [constructor|].
    apply Forall_cons_1 in Hp. destruct Hp as [Hs Hp].
    constructor; [|exact (IH Hp)].
    destruct (sourced_score career c Hs) as (c'' & E & H1 & H2 & H3).
    rewrite Hc in E. injection E as <-. repeat split; assumption. }
  split; [|split].
  - rewrite (Permutation_length (sorted_desc_perm scored)).
    symmetry. eapply Forall2_length. exact Hsc.
  - apply sorted_desc_sorted. eapply Forall_impl; [exact Hrec|].
    intros c (_ & H & _). exact (proj2 (le_not_nan _ _ H)).
  - rewrite (sorted_desc_perm scored). exact Hrec.
Qed.

(** The entries of the cache are lists as a search returns them. *)
Definition cache_presentable (cache : Cache) : Prop :=
  forall key entry, cache !! key = Some entry -> presentable (courses entry).

Lemma evict_presentable (cache : Cache) (key : string) (now : Z) :
  cache_presentable cache -> cache_presentable (evict_if_too_old cache key now).
Proof.
  intros H. unfold evict_if_too_old. destruct (_is_cache_too_old cache key now); [|exact H].
  intros k e Hk. apply lookup_delete_Some in Hk. destruct Hk as [_ Hk]. exact (H k e Hk).
Qed.

(** The two ways of [search_courses]: the entry of the key is served, or
    the pool of a fresh search is ranked and its first five stored. *)
Lemma search_courses_cases (agent : Agent) (career level : string)
  (now_old now_valid now_store : Z) :
  let key := cache_key_of career level in
  let cache := evict_if_too_old (course_cache agent) key now_old in
  (exists entry,
      cache !! key = Some entry
      /\ search agent career level now_old now_valid now_store
         = Some (courses entry,
                 {| course_cache := cache; random_calls := random_calls agent |}))
  \/ (exists top k',
      presentable top
      /\ search agent career level now_old now_valid now_store
         = Some (top, {| course_cache := cache_put cache key top now_store;
                         random_calls := k' |})).
Proof.
  intros key cache. unfold search_courses. fold key. fold cache.
  destruct (_is_cache_valid cache key now_valid) eqn:Hv.
  - left. unfold _is_cache_valid in Hv.
    destruct (cache !! key) as [entry|] eqn:Hk; [|discriminate].
    exists entry. split; reflexivity.
  - right. destruct (gathered_sourced career level (random_calls agent)) as [Hs Hlen].
    destruct (gathered career level (random_calls agent)) as [pool k'].
    cbn [fst] in Hs, Hlen.
    destruct (rank_sourced pool level career Hs) as (ranked & Hr & Hl & Hsorted & Hrec).
    rewrite Hr. cbn [mbind option_bind].
    exists (take 5 ranked), k'. split; [|reflexivity].
    split; [|split].
    + rewrite length_take. lia.
    + apply StronglySorted_take, Hsorted.
    + apply Forall_take, Hrec.
Qed.

Lemma evict_other_key (cache : Cache) (key k : string) (now : Z) :
  k <> key -> evict_if_too_old cache key now !! k = cache !! k.
Proof.
  intros Hk. unfold evict_if_too_old.
  destruct (_is_cache_too_old _ _ _); [|reflexivity].
  apply lookup_delete_ne. congruence.
Qed.

Lemma put_presentable (cache : Cache) (key : string) (top : list Course) (now : Z) :
  cache_presentable cache -> presentable top ->
  cache_presentable (cache_put cache key top now).
Proof.
  intros Hc Hp k e. unfold cache_put. destruct (decide (k = key)) as [->|Hne].
  - rewrite lookup_insert_eq. intros [= <-]. exact Hp.
  - rewrite lookup_insert_ne by congruence. apply Hc.
Qed.

(** X12. With a random generator that keeps its bounds [search_courses] never
    raises, and it returns a presentable list: from 2 to 5 courses, in
    descending order of their scores, each free and with a score between
    9.3 and 14.85. It keeps the cache in that state: if every entry of the
    cache is presentable before the call, every entry is after it, and
    the entries of the other keys are the same. *)
Theorem search_courses_presentable (agent : Agent) (career level : string)
  (now_old now_valid now_store : Z) :
  cache_presentable (course_cache agent) ->
  exists top agent',
    search agent career level now_old now_valid now_store = Some (top, agent')
    /\ presentable top
    /\ cache_presentable (course_cache agent')
    /\ (forall key, key <> cache_key_of career level ->
          course_cache agent' !! key = course_cache agent !! key).
Proof.
  intros Hc.
  pose proof (evict_presentable (course_cache agent) (cache_key_of career level)
                now_old Hc) as He.
  destruct (search_courses_cases agent career level now_old now_valid now_store)
    as [(entry & Hk & Hs)|(top & k' & Hp & Hs)]; rewrite Hs; eexists _, _;
    (split; [reflexivity|]); cbn [course_cache].
  - split; [exact (He _ entry Hk)|]. split; [exact He|].
    intros k Hne. apply evict_other_key, Hne.
  - split; [exact Hp|]. split; [apply put_presentable; assumption|].
    intros k Hne. unfold cache_put. rewrite lookup_insert_ne by congruence.
    apply evict_other_key, Hne.
Qed.

End Search.

Lemma fixed_randint_law (k : nat) (lo hi : Z) :
  lo <= hi -> lo <= SearchFacts.fixed_randint k lo hi <= hi.
Proof. unfold SearchFacts.fixed_randint. lia. Qed.

Lemma fixed_uniform_law (k : nat) (a b : float) :
  PyFloat.le a b = true ->
  PyFloat.le a (SearchFacts.fixed_uniform k a b) = true
  /\ PyFloat.le (SearchFacts.fixed_uniform k a b) b = true.
Proof.
  unfold SearchFacts.fixed_uniform. intros H. split; [|exact H].
  apply FloatOrder.leb_refl. exact (proj1 (le_not_nan _ _ H)).
Qed.

Section Examples.

#[local] Existing Instance ascii_interpreter.

Lemma search_courses_presentable_witness :
  exists top agent',
    search_courses remove_dups SearchFacts.no_match SearchFacts.no_match
      SearchFacts.no_response SearchFacts.no_response
      SearchFacts.fixed_uniform SearchFacts.fixed_randint
      {| course_cache := ∅; random_calls := 0 |} "Engineer" "beginner" 10 20 30
    = Some (top, agent')
    /\ presentable top
    /\ cache_presentable (course_cache agent')
    /\ (forall key, key <> cache_key_of "Engineer" "beginner" ->
          course_cache agent' !! key = (∅ : Cache) !! key).
Proof.
  apply (search_courses_presentable remove_dups SearchFacts.no_match SearchFacts.no_match
           SearchFacts.no_response SearchFacts.no_response
           SearchFacts.fixed_uniform SearchFacts.fixed_randint
           fixed_randint_law fixed_uniform_law
           {| course_cache := ∅; random_calls := 0 |}).
  intros key entry H. cbn [course_cache] in H. rewrite lookup_empty in H. discriminate H.
Defined.

End Examples.

(** ** The search thread *)

Section Thread.

Context `{python : Interpreter}.

Variable set_order : list string -> list string.
Variable findall_video findall_repo : string -> list (string * string).
Variable urlopen_youtube urlopen_github : string -> option string.
Variable random_uniform : nat -> float -> float -> float.
Variable random_randint : nat -> Z -> Z -> Z.

Hypothesis randint_law :
  forall k lo hi, lo <= hi -> lo <= random_randint k lo hi <= hi.
Hypothesis uniform_law :
  forall k a b, PyFloat.le a b = true ->
    PyFloat.le a (random_uniform k a b) = true
    /\ PyFloat.le (random_uniform k a b) b = true.

(** X13. With a random generator that keeps its bounds and a cache whose
    entries are presentable (the empty cache of the start is), the search
    thread never reaches its exception handler: for every career it hands
    to [show_results] the career stored in the state, the market data of
    the career and a presentable list of courses, so the list shown is
    never empty; the search is made at the level beginner, and only the
    entry of the key of the career at that level can change. *)
Theorem search_thread_shows_results (agent : Agent) (st : App.AppState)
  (career now_text : string) (now_old now_valid now_store : Z) :
  cache_presentable (course_cache agent) ->
  exists agent' results,
    AppFlow.perform_real_search_thread set_order findall_video findall_repo
      urlopen_youtube urlopen_github random_uniform random_randint
      agent st career now_text now_old now_valid now_store
    = Some (agent', results)
    /\ AppFlow.shown_career results = App.recommended_career st
    /\ AppFlow.shown_market results = MarketData.get_market_data career now_text
    /\ presentable (AppFlow.shown_courses results)
    /\ AppFlow.shown_courses results <> []
    /\ cache_presentable (course_cache agent')
    /\ (forall key, key <> cache_key_of career "beginner" ->
          course_cache agent' !! key = course_cache agent !! key).
Proof.
  intros Hc. unfold AppFlow.perform_real_search_thread.
  pose proof (evict_presentable (course_cache agent) (cache_key_of career "beginner")
                now_old Hc) as He.
  assert (Hne : forall l, presentable l -> l <> []).
  { intros l [[Hl _] _]. destruct l; [cbn in Hl; lia|discriminate]. }
  destruct (search_courses_cases set_order findall_video findall_repo urlopen_youtube
              urlopen_github random_uniform random_randint randint_law uniform_law
              agent career "beginner" now_old now_valid now_store)
    as [(entry & Hk & Hs)|(top & k' & Hp & Hs)]; rewrite Hs; cbn [mbind option_bind];
    eexists _, _; (split; [reflexivity|]);
    cbn [AppFlow.shown_career AppFlow.shown_market AppFlow.shown_courses course_cache];
    (split; [reflexivity|]); (split; [reflexivity|]).
  - split; [exact (He _ entry Hk)|]. split; [exact (Hne _ (He _ entry Hk))|].
    split; [exact He|]. intros k Hk'. apply evict_other_key, Hk'.
  - split; [exact Hp|]. split; [exact (Hne _ Hp)|].
    split; [apply put_presentable; assumption|].
    intros k Hk'. unfold cache_put. rewrite lookup_insert_ne by congruence.
    apply evict_other_key, Hk'.
Qed.

End Thread.

Section ThreadExamples.

#[local] Existing Instance ascii_interpreter.

Lemma search_thread_shows_results_witness :
  exists agent' results,
    AppFlow.perform_real_search_thread remove_dups SearchFacts.no_match
      SearchFacts.no_match SearchFacts.no_response SearchFacts.no_response
      SearchFacts.fixed_uniform SearchFacts.fixed_randint
      {| course_cache := ∅; random_calls := 0 |}
      {| App.current_node := "Engineer"; App.user_skills := ∅;
         App.recommended_career := Some "Engineer" |}
      "Engineer" "2024-01-01 12:00" 10 20 30
    = Some (agent', results)
    /\ AppFlow.shown_career results = Some "Engineer"
    /\ AppFlow.shown_market results
       = MarketData.get_market_data "Engineer" "2024-01-01 12:00"
    /\ presentable (AppFlow.shown_courses results)
    /\ AppFlow.shown_courses results <> []
    /\ cache_presentable (course_cache agent')
    /\ (forall key, key <> cache_key_of "Engineer" "beginner" ->
          course_cache agent' !! key = (∅ : Cache) !! key).
Proof.
  apply (search_thread_shows_results remove_dups SearchFacts.no_match SearchFacts.no_match
           SearchFacts.no_response SearchFacts.no_response
           SearchFacts.fixed_uniform SearchFacts.fixed_randint
           fixed_randint_law fixed_uniform_law
           {| course_cache := ∅; random_calls := 0 |}).
  intros key entry H. cbn [course_cache] in H. rewrite lookup_empty in H. discriminate H.
Defined.

End ThreadExamples.

End SearchResultFacts.

(** ** The keys of the cache and a search that follows another *)

Module CacheKeyFacts.
Import PyStr CourseSearch.

Lemma of_chars_chars (s : string) : of_chars (chars s) = s.
Proof. apply string_of_list_ascii_of_string. Qed.

Lemma append_cancel_r (a b s : string) : a +:+ s = b +:+ s -> a = b.
Proof.
  intros H. apply (f_equal chars) in H. rewrite !RelevanceFacts.chars_append in H.
  apply app_inv_tail in H. rewrite <- (of_chars_chars a), <- (of_chars_chars b), H.
  reflexivity.
Qed.

Lemma append_cancel_l (a s t : string) : a +:+ s = a +:+ t -> s = t.
Proof.
  intros H. apply (f_equal chars) in H. rewrite !RelevanceFacts.chars_append in H.
  apply app_inv_head in H. rewrite <- (of_chars_chars s), <- (of_chars_chars t), H.
  reflexivity.
Qed.

Lemma split_at_underscore (a b la lb : list ascii) :
  "_"%char ∉ a -> "_"%char ∉ b ->
  (a ++ "_"%char :: la = b ++ "_"%char :: lb)%list -> a = b /\ la = lb.
Proof.
  revert b. induction a as [|x a IH]; intros b Ha Hb H.
  - destruct b as [|y b]; cbn [app] in H.
    + injection H as ->. auto.
    + injection H as <- _. exfalso. apply Hb. apply list_elem_of_here.
  - destruct b as [|y b]; cbn [app] in H.
    + injection H as -> _. exfalso. apply Ha. apply list_elem_of_here.
    + injection H as -> H.
      destruct (IH b) as [-> ->]; [| |exact H|auto].
      * intros Hin. apply Ha. apply list_elem_of_further, Hin.
      * intros Hin. apply Hb. apply list_elem_of_further, Hin.
Qed.

(** X16. The key of the cache is the career, an underscore and the level.
    For one level two careers have two keys, and for one career two levels
    have two keys; two careers without an underscore never share a key;
    but an underscore in the career makes keys meet: the career a_b at the
    level c and the career a at the level b_c have the same key. *)
Theorem cache_key_collisions :
  (forall career1 career2 level : string,
      cache_key_of career1 level = cache_key_of career2 level -> career1 = career2)
  /\ (forall career level1 level2 : string,
      cache_key_of career level1 = cache_key_of career level2 -> level1 = level2)
  /\ (forall career1 career2 level1 level2 : string,
      "_"%char ∉ chars career1 -> "_"%char ∉ chars career2 ->
      cache_key_of career1 level1 = cache_key_of career2 level2 ->
      career1 = career2 /\ level1 = level2)
  /\ cache_key_of "a_b" "c" = cache_key_of "a" "b_c".
Proof.
  unfold cache_key_of. split; [|split; [|split]].
  - intros c1 c2 l H. exact (append_cancel_r c1 c2 ("_" +:+ l) H).
  - intros c l1 l2 H. apply append_cancel_l in H. exact (append_cancel_l "_" l1 l2 H).
  - intros c1 c2 l1 l2 H1 H2 H. apply (f_equal chars) in H.
    rewrite !RelevanceFacts.chars_append in H.
    change (chars "_") with ["_"%char] in H. cbn [app] in H.
    destruct (split_at_underscore _ _ _ _ H1 H2 H) as [Ec El].
    rewrite <- (of_chars_chars c1), <- (of_chars_chars c2), Ec.
    rewrite <- (of_chars_chars l1), <- (of_chars_chars l2), El. auto.
  - reflexivity.
Qed.

End CacheKeyFacts.

Module SearchAgainFacts.
Import CourseSearch.

Section TwoSearches.

Context `{python : Interpreter}.

(** The environment of the first search and that of the second. *)
Variable set_order set_order' : list string -> list string.
Variable findall_video findall_repo findall_video' findall_repo'
  : string -> list (string * string).
Variable urlopen_youtube urlopen_github urlopen_youtube' urlopen_github'
  : string -> option string.
Variable random_uniform random_uniform' : nat -> float -> float -> float.
Variable random_randint random_randint' : nat -> Z -> Z -> Z.

Local Abbreviation search :=
  (search_courses set_order findall_video findall_repo urlopen_youtube
     urlopen_github random_uniform random_randint).
Local Abbreviation search' :=
  (search_courses set_order' findall_video' findall_repo' urlopen_youtube'
     urlopen_github' random_uniform' random_randint').

(** X14. The list that [search_courses] returns is the list that the cache
    holds for the key after the call. A later search whose career and level
    give the same key, made while the age of the entry is at most one week
    at the first reading of the clock and under one week at the second,
    returns the same list and leaves the agent as it is, whatever the
    requests, the matches and the random numbers would be: it makes no
    request. *)
Theorem search_courses_again (agent agent1 : Agent) (career level : string)
  (now_old now_valid now_store : Z) (top : list Course) :
  search agent career level now_old now_valid now_store = Some (top, agent1) ->
  exists entry,
    course_cache agent1 !! cache_key_of career level = Some entry
    /\ courses entry = top
    /\ forall (career' level' : string) (later_old later_valid later_store : Z),
         cache_key_of career' level' = cache_key_of career level ->
         later_old - timestamp entry <= one_week ->
         later_valid - timestamp entry < one_week ->
         search' agent1 career' level' later_old later_valid later_store
         = Some (top, agent1).
Proof.
  unfold search_courses at 1.
  set (key := cache_key_of career level).
  set (cache := evict_if_too_old (course_cache agent) key now_old).
  assert (Hagain : forall (c1 : Cache) (k1 : nat) (entry : CacheEntry),
    c1 !! key = Some entry ->
    forall (career' level' : string) (later_old later_valid later_store : Z),
      cache_key_of career' level' = key ->
      later_old - timestamp entry <= one_week ->
      later_valid - timestamp entry < one_week ->
      search' {| course_cache := c1; random_calls := k1 |} career' level'
        later_old later_valid later_store
      = Some (courses entry, {| course_cache := c1; random_calls := k1 |})).
  { intros c1 k1 entry Hk career' level' lo lv ls Hkey Ho Hv.
    unfold search_courses. rewrite Hkey. cbn [course_cache random_calls].
    assert (He : evict_if_too_old c1 key lo = c1).
    { unfold evict_if_too_old, _is_cache_too_old. rewrite Hk.
      destruct (Z.ltb_spec one_week (lo - timestamp entry)); [lia|reflexivity]. }
    rewrite He. unfold _is_cache_valid. rewrite Hk. unfold cache_expiry.
    destruct (Z.ltb_spec (lv - timestamp entry) one_week); [reflexivity|lia]. }
  destruct (_is_cache_valid cache key now_valid) eqn:Hv.
  - unfold _is_cache_valid in Hv.
    destruct (cache !! key) as [entry|] eqn:Hk; [|discriminate].
    intros [= <- <-]. exists entry. cbn [course_cache].
    split; [exact Hk|]. split; [reflexivity|].
    intros career' level' lo lv ls. apply Hagain. exact Hk.
  - destruct (gather _ _ _ _ _ _ _ career level (random_calls agent)) as [pool k'].
    destruct (_rank_courses pool level career) as [ranked|]; cbn [mbind option_bind];
      [|discriminate].
    intros [= <- <-].
    exists {| courses := take 5 ranked; timestamp := now_store |}.
    cbn [course_cache courses timestamp]. unfold cache_put.
    split; [apply lookup_insert_eq|]. split; [reflexivity|].
    intros career' level' lo lv ls Hkey Ho Hvl.
    exact (Hagain _ k' {| courses := take 5 ranked; timestamp := now_store |}
             (lookup_insert_eq _ _ _) career' level' lo lv ls Hkey Ho Hvl).
Qed.

End TwoSearches.

Definition one_video (html : string) : list (string * string) :=
  [("abcdefghijk", "Learn engineering: a complete course")].
Definition page (term : string) : option string := Some "<html>".

Section Examples.

#[local] Existing Instance ascii_interpreter.

(** A first search without a network, then one with a network that would
    find a video: the second returns the cached fallback courses. *)
Lemma search_courses_again_witness :
  exists top agent1,
    search_courses remove_dups SearchFacts.no_match SearchFacts.no_match
      SearchFacts.no_response SearchFacts.no_response
      SearchFacts.fixed_uniform SearchFacts.fixed_randint
      {| course_cache := ∅; random_calls := 0 |} "Engineer" "beginner" 10 20 30
    = Some (top, agent1)
    /\ length top = 2%nat
    /\ search_courses remove_dups one_video SearchFacts.no_match page page
         SearchFacts.fixed_uniform SearchFacts.fixed_randint
         agent1 "Engineer" "beginner" 1000 1001 1002
       = Some (top, agent1).
Proof.
  destruct (search_courses remove_dups SearchFacts.no_match SearchFacts.no_match
      SearchFacts.no_response SearchFacts.no_response
      SearchFacts.fixed_uniform SearchFacts.fixed_randint
      {| course_cache := ∅; random_calls := 0 |} "Engineer" "beginner" 10 20 30)
    as [[top agent1]|] eqn:E; [|vm_compute in E; discriminate E].
  exists top, agent1. split; [reflexivity|].
  destruct (search_courses_again remove_dups remove_dups
              SearchFacts.no_match SearchFacts.no_match one_video SearchFacts.no_match
              SearchFacts.no_response SearchFacts.no_response page page
              SearchFacts.fixed_uniform SearchFacts.fixed_uniform
              SearchFacts.fixed_randint SearchFacts.fixed_randint
              _ agent1 "Engineer" "beginner" 10 20 30 top E)
    as (entry & Hk & Hc & Hagain).
  assert (Ht : timestamp entry = 30 /\ length top = 2%nat).
  { vm_compute in E. injection E as <- <-. vm_compute in Hk. injection Hk as <-.
    split; reflexivity. }
  destruct Ht as [Ht Hl]. split; [exact Hl|].
  apply Hagain; [reflexivity|rewrite Ht; vm_compute; discriminate|
                 rewrite Ht; vm_compute; reflexivity].
Defined.

End Examples.

Section Stale.

Context `{python : Interpreter}.

Variable set_order : list string -> list string.
Variable findall_video findall_repo : string -> list (string * string).
Variable urlopen_youtube urlopen_github : string -> option string.
Variable random_uniform : nat -> float -> float -> float.
Variable random_randint : nat -> Z -> Z -> Z.

Local Abbreviation search_with :=
  (search_courses set_order findall_video findall_repo urlopen_youtube
     urlopen_github random_uniform random_randint).

(** X15. An entry whose age has reached one week without exceeding it at
    the first reading of the clock is neither deleted by the test of
    [_is_cache_too_old] nor served: the search runs as if the entry were
    absent, with the same result and the same agent after the call, the
    new list taking the place of the old one. *)
Theorem week_old_entry_not_served (cache : Cache) (career level : string)
  (v : list Course) (t now_old now_valid now_store : Z) (k : nat) :
  now_old - t <= one_week -> one_week <= now_valid - t ->
  let key := cache_key_of career level in
  evict_if_too_old (cache_put cache key v t) key now_old = cache_put cache key v t
  /\ _is_cache_valid (cache_put cache key v t) key now_valid = false
  /\ search_with {| course_cache := cache_put cache key v t; random_calls := k |}
       career level now_old now_valid now_store
     = search_with {| course_cache := delete key cache; random_calls := k |}
         career level now_old now_valid now_store.
Proof.
  intros Ho Hv key.
  assert (E1 : evict_if_too_old (cache_put cache key v t) key now_old
               = cache_put cache key v t).
  { unfold evict_if_too_old. rewrite SearchFacts.too_old_after_put.
    destruct (Z.ltb_spec one_week (now_old - t)); [lia|reflexivity]. }
  assert (E2 : _is_cache_valid (cache_put cache key v t) key now_valid = false).
  { rewrite SearchFacts.valid_after_put. apply Z.ltb_ge. exact Hv. }
  split; [exact E1|]. split; [exact E2|].
  unfold search_courses. fold key. cbn [course_cache random_calls].
  rewrite E1, E2.
  rewrite (SearchFacts.evict_absent (delete key cache) key now_old)
    by apply lookup_delete_eq.
  rewrite (SearchFacts.valid_absent (delete key cache) key now_valid)
    by apply lookup_delete_eq.
  destruct (gather _ _ _ _ _ _ _ career level k) as [pool k'].
  destruct (_rank_courses pool level career) as [ranked|]; [|reflexivity].
  cbn [mbind option_bind]. unfold cache_put.
  rewrite insert_insert_eq, insert_delete_eq. reflexivity.
Qed.

End Stale.

Section StaleExamples.

#[local] Existing Instance ascii_interpreter.

Lemma week_old_entry_not_served_witness :
  let key := cache_key_of "Engineer" "beginner" in
  let old := _get_fallback_courses "Old" "beginner" in
  evict_if_too_old (cache_put ∅ key old 0) key one_week = cache_put ∅ key old 0
  /\ _is_cache_valid (cache_put ∅ key old 0) key one_week = false
  /\ search_courses remove_dups SearchFacts.no_match SearchFacts.no_match
       SearchFacts.no_response SearchFacts.no_response
       SearchFacts.fixed_uniform SearchFacts.fixed_randint
       {| course_cache := cache_put ∅ key old 0; random_calls := 0 |}
       "Engineer" "beginner" one_week one_week (one_week + 1)
     = search_courses remove_dups SearchFacts.no_match SearchFacts.no_match
         SearchFacts.no_response SearchFacts.no_response
         SearchFacts.fixed_uniform SearchFacts.fixed_randint
         {| course_cache := delete key ∅; random_calls := 0 |}
         "Engineer" "beginner" one_week one_week (one_week + 1).
Proof.
  apply (week_old_entry_not_served remove_dups SearchFacts.no_match SearchFacts.no_match
           SearchFacts.no_response SearchFacts.no_response
           SearchFacts.fixed_uniform SearchFacts.fixed_randint
           ∅ "Engineer" "beginner" (_get_fallback_courses "Old" "beginner")
           0 one_week one_week (one_week + 1) 0); lia.
Defined.

End StaleExamples.

End SearchAgainFacts.

(** ** The assessment on the default tree *)

Module SessionFacts.
Import DecisionAgent App AppFlow CourseSearch.

(** The nodes that the edges of a node lead to. *)
Definition targets (tree : Tree) (node : string) : list string :=
  match tree !! node with
  | Some nd => map (fun x => next x.2) (default [] (answers nd))
  | None => []
  end.

Lemma default_tree_entry (node : string) (nd : Node) :
  get_default_tree !! node = Some nd ->
  node ∈ ["Math"; "Math_High"; "HighProg"; "HighPhys"; "Math_Med"; "MedDesign";
          "MedBio"; "Math_Low"; "LowComm"; "LowHands"].
Proof.
  intros H. unfold get_default_tree in H. apply elem_of_list_to_map_2 in H.
  repeat (apply elem_of_cons in H; destruct H as [H|H];
          [injection H as -> _; set_solver|]).
  apply elem_of_nil in H. destruct H.
Qed.

Lemma ge_zero_threshold (r t : float) :
  PyFloat.ge r 0 = false -> PyFloat.le 0 t = true -> PyFloat.ge r t = false.
Proof.
  unfold PyFloat.ge, PyFloat.le. intros Hr Ht.
  destruct (PrimFloat.leb t r) eqn:E; [|reflexivity].
  rewrite (FloatOrder.leb_trans _ _ _ Ht E) in Hr. discriminate Hr.
Qed.

Lemma ge_one_threshold (r t : float) :
  PyFloat.ge r 1 = true -> PyFloat.le t 1 = true -> PyFloat.ge r t = true.
Proof.
  unfold PyFloat.ge, PyFloat.le. intros Hr Ht.
  exact (FloatOrder.leb_trans _ _ _ Ht Hr).
Qed.

(** The value of [navigate_tree] at a node of the default tree, as the
    cascade of its threshold tests. *)
Ltac at_node node :=
  unfold navigate_tree, targets;
  let v := eval vm_compute in (get_default_tree !! node) in
  change (get_default_tree !! node) with v;
  cbn [answers question first_answer threshold next default map snd fst].

Ltac split_tests r :=
  repeat match goal with
         | |- context [PyFloat.ge r ?t] => destruct (PyFloat.ge r t) eqn:?
         end.

Ltac each_node H :=
  repeat (apply elem_of_cons in H; destruct H as [-> | H]);
  try (apply elem_of_nil in H; destruct H).

(** From a node of the default tree a rating that is at least 0 leads to
    one of the nodes its edges name, and never back to the node. *)
Lemma default_tree_moves (node : string) (r : float) :
  is_Some (get_default_tree !! node) -> PyFloat.ge r 0 = true ->
  navigate_tree get_default_tree node r ∈ targets get_default_tree node
  /\ navigate_tree get_default_tree node r <> node.
Proof.
  intros [nd Hnd] Hr. apply default_tree_entry in Hnd. clear nd.
  each_node Hnd;
    match goal with |- navigate_tree _ ?n _ ∈ _ /\ _ => at_node n end;
    rewrite Hr; split_tests r; (split; [set_solver|discriminate]).
Qed.

(** X2. On the default tree [navigate_tree] returns the node it was given
    exactly when the node is not in the tree (a career) or the rating is
    not at least 0 (a negative number or a NaN); a rating of 1 or more
    leads where the rating 1 leads; and on every tree the result is the
    node given or a node that one of its edges names. *)
Theorem default_tree_fixed_points :
  (forall (node : string) (r : float),
      navigate_tree get_default_tree node r = node
      <-> get_default_tree !! node = None \/ PyFloat.ge r 0 = false)
  /\ (forall (node : string) (r : float),
      PyFloat.ge r 1 = true ->
      navigate_tree get_default_tree node r = navigate_tree get_default_tree node 1)
  /\ (forall (tree : Tree) (node : string) (r : float),
      navigate_tree tree node r = node \/ navigate_tree tree node r ∈ targets tree node).
Proof.
  split; [|split]; cycle 2.
  { intros tree node r. unfold navigate_tree, targets.
    destruct (tree !! node) as [nd|]; [|auto].
    destruct (answers nd) as [items|]; [|auto]. cbn [default].
    change (default [] (Some items)) with items.
    induction items as [|[key a] rest IH]; cbn [first_answer map]; [auto|].
    destruct (PyFloat.ge r (threshold a)).
    - right. apply list_elem_of_here.
    - destruct IH as [IH|IH]; [auto|right; apply list_elem_of_further, IH]. }
  - intros node r. destruct (get_default_tree !! node) as [nd|] eqn:E.
    + destruct (PyFloat.ge r 0) eqn:Hr.
      * destruct (default_tree_moves node r) as [_ Hne]; [eauto|exact Hr|].
        split; [intros H; contradiction|intros [H|H]; discriminate H].
      * split; [auto|intros _]. apply default_tree_entry in E. clear nd.
        each_node E;
          match goal with |- navigate_tree _ ?n _ = _ => at_node n end;
          repeat match goal with
                 | |- context [PyFloat.ge r ?t] =>
                     rewrite (ge_zero_threshold r t Hr) by reflexivity
                 end; reflexivity.
    + unfold navigate_tree. rewrite E. split; auto.
  - intros node r Hr. destruct (get_default_tree !! node) as [nd|] eqn:E.
    + apply default_tree_entry in E. clear nd.
      each_node E;
        match goal with |- navigate_tree _ ?n _ = _ => at_node n end;
        repeat match goal with
               | |- context [PyFloat.ge r ?t] =>
                   rewrite (ge_one_threshold r t Hr) by reflexivity
               end; reflexivity.
    + unfold navigate_tree. rewrite E. reflexivity.
Qed.

(** The handler on a rating in range. *)
Lemma process_answer_step (tree : Tree) (st : AppState) (r : float) :
  rating_in_range r = true ->
  process_answer tree st (Some r)
  = show_question tree
      {| current_node := navigate_tree tree (current_node st) r;
         user_skills := <[extract_skill_name (current_node st) := r]> (user_skills st);
         recommended_career := recommended_career st |}.
Proof. intros H. unfold process_answer. rewrite H. reflexivity. Qed.

Lemma in_range_ge_zero (r : float) : rating_in_range r = true -> PyFloat.ge r 0 = true.
Proof.
  unfold rating_in_range. intros H. apply andb_true_iff in H. exact (proj1 H).
Qed.

(** One answer in range, from a state whose node is known: the local
    definition [s] of the result is replaced by its value, for each node
    that the answer can lead to. *)
Ltac answer s r Hr :=
  let body := eval unfold s in s in
  let E := fresh "E" in
  assert (E : s = body) by reflexivity;
  rewrite (process_answer_step get_default_tree _ r Hr) in E;
  cbn [current_node user_skills recommended_career initial_state fst snd] in E;
  lazymatch type of E with
  | context [navigate_tree get_default_tree ?n r] =>
      let H := fresh "H" in
      destruct (default_tree_moves n r) as [H _];
      [vm_compute; eauto|exact (in_range_ge_zero r Hr)|];
      let v := eval vm_compute in (targets get_default_tree n) in
      change (targets get_default_tree n) with v in H;
      let w := eval vm_compute in (extract_skill_name n) in
      change (extract_skill_name n) with w in E;
      repeat (apply elem_of_cons in H; destruct H as [H | H];
              [rewrite H in E; clear H|]);
      try (apply elem_of_nil in H; destruct H)
  end;
  unfold show_question in E;
  cbn [current_node user_skills recommended_career] in E;
  lazymatch type of E with
  | context [get_default_tree !! ?nd] =>
      let v := eval vm_compute in (get_default_tree !! nd) in
      change (get_default_tree !! nd) with v in E
  end;
  cbn [question] in E;
  clearbody s; subst s;
  cbn [fst snd current_node user_skills recommended_career] in *.

(** The careers at the leaves of the default tree. *)
Definition careers : list string :=
  [ "Data Scientist"; "Software Engineer"; "Research Scientist"; "Engineer";
    "UI/UX Designer"; "Graphic Designer"; "Healthcare Specialist"; "Project Manager";
    "Manager / HR Specialist"; "Journalist / Public Speaker"; "Technician";
    "Sales Assistant" ].

(** X1. Every assessment takes exactly three answers: from the start, three
    ratings in range bring two further questions and then the loading
    screen, with the recommended career stored; the career is a leaf of the
    tree, it has keywords of its own in [_get_search_terms], and the three
    ratings are stored under three different skill names, the first under
    Mathematics. [restart] then brings back the state and the question of
    the start. *)
Theorem assessment_takes_three_answers (r1 r2 r3 : float) :
  rating_in_range r1 = true -> rating_in_range r2 = true -> rating_in_range r3 = true ->
  let s1 := process_answer get_default_tree initial_state (Some r1) in
  let s2 := process_answer get_default_tree s1.1 (Some r2) in
  let s3 := process_answer get_default_tree s2.1 (Some r3) in
  (exists q, s1.2 = ShowQuestion q) /\ (exists q, s2.2 = ShowQuestion q)
  /\ s3.2 = ShowLoading
  /\ recommended_career s1.1 = None /\ recommended_career s2.1 = None
  /\ recommended_career s3.1 = Some (current_node s3.1)
  /\ current_node s3.1 ∈ careers
  /\ get_default_tree !! current_node s3.1 = None
  /\ current_node s3.1 ∈ map fst career_keywords
  /\ size (user_skills s3.1) = 3%nat
  /\ user_skills s3.1 !! "Mathematics" = Some r1
  /\ restart get_default_tree s3.1
     = (initial_state, ShowQuestion "🔢 Rate your Math skills (0.0 - 1.0):").
Proof.
  intros H1 H2 H3 s1 s2 s3.
  answer s1 r1 H1; answer s2 r2 H2; answer s3 r3 H3.
  all: repeat split; try (eexists; reflexivity);
    try (vm_compute; reflexivity); try (unfold careers; set_solver);
    try (cbn [map fst career_keywords]; set_solver).
Qed.

Lemma assessment_takes_three_answers_witness :
  let s1 := process_answer get_default_tree initial_state (Some 0.8%float) in
  let s2 := process_answer get_default_tree s1.1 (Some 0.9%float) in
  let s3 := process_answer get_default_tree s2.1 (Some 0.7%float) in
  (exists q, s1.2 = ShowQuestion q) /\ (exists q, s2.2 = ShowQuestion q)
  /\ s3.2 = ShowLoading
  /\ recommended_career s1.1 = None /\ recommended_career s2.1 = None
  /\ recommended_career s3.1 = Some (current_node s3.1)
  /\ current_node s3.1 ∈ careers
  /\ get_default_tree !! current_node s3.1 = None
  /\ current_node s3.1 ∈ map fst career_keywords
  /\ size (user_skills s3.1) = 3%nat
  /\ user_skills s3.1 !! "Mathematics" = Some 0.8%float
  /\ restart get_default_tree s3.1
     = (initial_state, ShowQuestion "🔢 Rate your Math skills (0.0 - 1.0):").
Proof.
  apply (assessment_takes_three_answers 0.8 0.9 0.7); vm_compute; reflexivity.
Defined.

End SessionFacts.

(** ** The market data *)

Module MarketFacts.
Import CourseSearch.
Import MarketData.

(** The careers with a salary entry; the other tables name a part of
    them. *)
Definition tabled : list string :=
  [ "Data Scientist"; "Software Engineer"; "UI/UX Designer"; "Healthcare Specialist";
    "Project Manager"; "Graphic Designer" ].

Lemma within_tabled (keys : list string) (career : string) :
  forallb (fun k => bool_decide (k ∈ tabled)) keys = true ->
  career ∈ keys -> career ∈ tabled.
Proof.
  intros Hall Hin. rewrite forallb_forall in Hall.
  apply list_elem_of_In in Hin. exact (proj1 (bool_decide_eq_true _) (Hall career Hin)).
Qed.

(** X3. [get_market_data] answers for every career, in a table or not: the
    salary range is ordered and lies within 45000 and 165000, the job
    openings within 8000 and 45000, three or four different skills are
    named; a career outside the six of the salary table gets the default
    of each of the five tables. *)
Theorem market_data_well_formed (career now_text : string) :
  let m := get_market_data career now_text in
  45000 <= min (salary_range m) /\ min (salary_range m) < max (salary_range m)
  /\ max (salary_range m) <= 165000
  /\ 8000 <= job_openings m <= 45000
  /\ (3 <= length (skills_in_demand m) <= 4)%nat
  /\ NoDup (skills_in_demand m)
  /\ last_updated m = now_text
  /\ (career ∉ tabled ->
      m = {| demand := "⚖️ Medium Demand";
             salary_range := {| min := 50000; max := 100000 |};
             growth_trend := "📈 Moderate Growth (10% annually)";
             skills_in_demand := ["Communication"; "Problem Solving"; "Teamwork"];
             job_openings := 8000;
             last_updated := now_text |}).
Proof.
  cbv zeta. unfold get_market_data.
  cbn [demand salary_range growth_trend skills_in_demand job_openings last_updated].
  split; [|split; [|split; [|split; [|split; [|split; [|split]]]]]].
  - unfold _get_salary_range. cbn [dict_get].
    repeat match goal with |- context [String.eqb ?a ?b] => destruct (String.eqb a b) end;
      cbn [min]; lia.
  - unfold _get_salary_range. cbn [dict_get].
    repeat match goal with |- context [String.eqb ?a ?b] => destruct (String.eqb a b) end;
      cbn [min max]; lia.
  - unfold _get_salary_range. cbn [dict_get].
    repeat match goal with |- context [String.eqb ?a ?b] => destruct (String.eqb a b) end;
      cbn [max]; lia.
  - unfold _get_job_openings. cbn [dict_get].
    repeat match goal with |- context [String.eqb ?a ?b] => destruct (String.eqb a b) end;
      lia.
  - unfold _get_skills_demand. cbn [dict_get].
    repeat match goal with |- context [String.eqb ?a ?b] => destruct (String.eqb a b) end;
      cbn [length]; lia.
  - unfold _get_skills_demand. cbn [dict_get].
    repeat match goal with |- context [String.eqb ?a ?b] => destruct (String.eqb a b) end;
      apply NoDup_ListNoDup; repeat constructor; cbn [In]; intuition discriminate.
  - reflexivity.
  - intros Hc.
    unfold _get_demand_level, _get_salary_range, _get_growth_trend,
      _get_skills_demand, _get_job_openings.
    rewrite !SearchTermsFacts.dict_get_unknown; [reflexivity|..];
      intros Hin; apply Hc; revert Hin; apply within_tabled; vm_compute; reflexivity.
Qed.

End MarketFacts.

